(** * Community playlist maker: a model of [main.py] and its properties

    The script reads channel-point song requests from Twitch and builds a
    Spotify playlist from them.  This file embeds its pipeline

      - [parse_spotify_url]                (main.py, lines 241-259)
      - [TwitchOAuth.start_oauth_flow]     (lines 107-158)
      - [get_song_requests_from_twitch]    (lines 262-342)
      - [create_spotify_playlist]          (lines 345-450)
      - [main]                             (lines 453-485)

    as executable functions and proves the properties its specification
    states about them.

    Conventions.  A Python [str] is a list of characters; characters are the
    code points below 256, on which [lower] and [strip] are Python's.  A JSON
    object received from Twitch is a finite map from keys to Python values.
    A call that may raise returns a [result]; the outside world (the network,
    the browser, the terminal) is an abstract state threaded through the
    calls, and every call to it and every line printed is recorded in a
    trace. *)

From Stdlib Require Import Ascii String List Bool Arith ZArith Lia.
From stdpp Require Import base option list gmap strings.
Import ListNotations.

Local Open Scope list_scope.
Local Open Scope bool_scope.

(** ** Python values *)

Definition str := list ascii.

(** A literal of the source, as a [str]. *)
Definition lit (x : string) : str := list_ascii_of_string x.

(** The scalar values a JSON field can hold. *)
Inductive pyval :=
| PyNone
| PyBool (b : bool)
| PyInt (z : Z)
| PyStr (s : str).

(** Python's truth value: [None], [False], [0] and [''] are false. *)
Definition truthy (v : pyval) : bool :=
  match v with
  | PyNone => false
  | PyBool b => b
  | PyInt z => negb (Z.eqb z 0)
  | PyStr [] => false
  | PyStr (_ :: _) => true
  end.

(** The exceptions the modelled code can meet.  All are subclasses of
    [Exception], which is what the two [except Exception] clauses catch;
    [ServiceError] stands for what the Spotify client and the transport
    raise. *)
Inductive exn :=
| TypeError
| AttributeError
| KeyError (k : string)
| IndexError
| ServiceError.

Inductive result (A : Type) :=
| Ok (a : A)
| Raise (e : exn).
Arguments Ok {A} a.
Arguments Raise {A} e.

(** ** Strings: [in], [lower], [strip], slicing *)

Definition ascii_eqb (a b : ascii) : bool := Ascii.eqb a b.

(** [startswith p s]: [p] is a prefix of [s]. *)
Fixpoint startswith (p s : str) : bool :=
  match p, s with
  | [], _ => true
  | _ :: _, [] => false
  | a :: p', b :: s' => ascii_eqb a b && startswith p' s'
  end.

(** [p in s] for strings: [p] occurs in [s] as a substring. *)
Fixpoint contains (p s : str) : bool :=
  startswith p s ||
  match s with
  | [] => false
  | _ :: s' => contains p s'
  end.

Definition code (c : ascii) : N := N_of_ascii c.

Definition between (lo hi : N) (c : ascii) : bool :=
  (N.leb lo (code c)) && (N.leb (code c) hi).

(** [str.lower] on one character: A-Z, and the Latin-1 capitals
    U+00C0..U+00DE except the multiplication sign U+00D7, move up by 32. *)
Definition lower_char (c : ascii) : ascii :=
  if between 65 90 c
     || (between 192 222 c && negb (N.eqb (code c) 215))
  then ascii_of_N (code c + 32)
  else c.

Definition lower (s : str) : str := map lower_char s.

(** The characters [str.strip] removes: tab to carriage return, the
    separators U+001C..U+001F, space, U+0085 and U+00A0. *)
Definition is_space (c : ascii) : bool :=
  between 9 13 c || between 28 32 c
  || N.eqb (code c) 133 || N.eqb (code c) 160.

Fixpoint lstrip (s : str) : str :=
  match s with
  | [] => []
  | c :: s' => if is_space c then lstrip s' else s
  end.

Definition rstrip (s : str) : str := rev (lstrip (rev s)).

Definition strip (s : str) : str := rstrip (lstrip s).

(** ** Regular expressions: the fragment of [re] the patterns use

    A pattern is a sequence of items.  The matcher is a backtracking one,
    like [re]: an optional character is tried present first, a repetition
    takes the longest run first and gives characters back one at a time. *)

Inductive item :=
| Lit (c : ascii)                          (* a character, or an escaped one *)
| OptLit (c : ascii)                       (* c? *)
| Group1Plus (ranges : list (ascii * ascii)). (* ([...]+), capturing group 1 *)

Definition pattern := list item.

Definition in_class (ranges : list (ascii * ascii)) (c : ascii) : bool :=
  existsb (fun r => N.leb (code (fst r)) (code c) && N.leb (code c) (code (snd r)))
          ranges.

Fixpoint span (f : ascii -> bool) (s : str) : str :=
  match s with
  | [] => []
  | c :: s' => if f c then c :: span f s' else []
  end.

Fixpoint first_some {A B : Type} (f : A -> option B) (l : list A) : option B :=
  match l with
  | [] => None
  | a :: l' =>
      match f a with
      | Some b => Some b
      | None => first_some f l'
      end
  end.

(** [match_here p s g]: match [p] at the start of [s]; [g] is group 1 so
    far.  The result is group 1 of the match. *)
Fixpoint match_here (p : pattern) (s : str) (g : option str) : option (option str) :=
  match p with
  | [] => Some g
  | Lit c :: p' =>
      match s with
      | a :: s' => if ascii_eqb a c then match_here p' s' g else None
      | [] => None
      end
  | OptLit c :: p' =>
      let taken :=
        match s with
        | a :: s' => if ascii_eqb a c then match_here p' s' g else None
        | [] => None
        end in
      match taken with
      | Some m => Some m
      | None => match_here p' s g
      end
  | Group1Plus ranges :: p' =>
      let longest := length (span (in_class ranges) s) in
      first_some (fun k => match_here p' (drop k s) (Some (take k s)))
                 (rev (seq 1 longest))
  end.

(** [re.search(p, s)]: the leftmost position at which [p] matches.  The
    value is the match object, reduced to its group 1. *)
Fixpoint re_search (p : pattern) (s : str) : option (option str) :=
  match match_here p s None with
  | Some m => Some m
  | None =>
      match s with
      | [] => None
      | _ :: s' => re_search p s'
      end
  end.

Definition lits (x : string) : pattern := map Lit (lit x).

(** ** parse_spotify_url (lines 241-259) *)

Definition alnum_ranges : list (ascii * ascii) :=
  [("a", "z"); ("A", "Z"); ("0", "9")]%char.

(** The three patterns of the source, in its order:
      https?://open\.spotify\.com/track/([a-zA-Z0-9]+)
      spotify:track:([a-zA-Z0-9]+)
      track/([a-zA-Z0-9]+) *)
Definition patterns : list pattern :=
  [ lits "http" ++ [OptLit "s"%char] ++ lits "://open" ++ [Lit "."%char]
      ++ lits "spotify" ++ [Lit "."%char] ++ lits "com/track/"
      ++ [Group1Plus alnum_ranges];
    lits "spotify:track:" ++ [Group1Plus alnum_ranges];
    lits "track/" ++ [Group1Plus alnum_ranges] ].

(** The loop over the patterns: the first one that matches returns its
    group 1. *)
Fixpoint first_match (ps : list pattern) (text : str) : option str :=
  match ps with
  | [] => None
  | p :: ps' =>
      match re_search p text with
      | Some m => m
      | None => first_match ps' text
      end
  end.

Definition parse_spotify_url (text : pyval) : result (option str) :=
  if negb (truthy text) then Ok None
  else
    match text with
    | PyStr t => Ok (first_match patterns t)
    | _ => Raise TypeError          (* re.search on a value that is no str *)
    end.

(** *** The parser as the specification words it *)

Definition is_alnum (c : ascii) : bool :=
  between 48 57 c || between 65 90 c || between 97 122 c.

(** The identifier that follows [prefix] at the start of [s]: the longest
    run of alphanumeric characters, if there is one. *)
Definition id_after (prefix s : str) : option str :=
  if startswith prefix s then
    match span is_alnum (drop (length prefix) s) with
    | [] => None
    | run => Some run
    end
  else None.

(** The leftmost place of [s] where one of [prefixes] is followed by an
    identifier. *)
Fixpoint find_ref (prefixes : list str) (s : str) : option str :=
  match first_some (fun p => id_after p s) prefixes with
  | Some i => Some i
  | None =>
      match s with
      | [] => None
      | _ :: s' => find_ref prefixes s'
      end
  end.

Definition first_of (a b c : option str) : option str :=
  match a with
  | Some i => Some i
  | None => match b with Some i => Some i | None => c end
  end.

(** Forms (a), (b), (c) as the specification lists them: (a) is a web URL
    that starts with [https://]. *)
Definition parse_spec (text : str) : option str :=
  first_of (find_ref [lit "https://open.spotify.com/track/"] text)
           (find_ref [lit "spotify:track:"] text)
           (find_ref [lit "track/"] text).

(** The same with form (a) in either scheme, [https://] or [http://]. *)
Definition parse_ref (text : str) : option str :=
  first_of (find_ref [lit "https://open.spotify.com/track/";
                      lit "http://open.spotify.com/track/"] text)
           (find_ref [lit "spotify:track:"] text)
           (find_ref [lit "track/"] text).

(** ** The outside world

    The records the two services return, the calls the script makes to them
    and the lines it prints. *)

(** A JSON object: a redemption or a reward as Twitch returns it. *)
Abbreviation json := (gmap string pyval).

(** An entry of [song_requests] (lines 317-324). *)
Record direct_request := {
  dr_track_id : str;
  dr_user : pyval;
  dr_redeemed_at : pyval;
  dr_status : pyval;
  dr_original_input : pyval;
  dr_method : str
}.

(** An entry of [search_requests] (lines 330-335). *)
Record search_request := {
  sq_search_query : str;
  sq_user : pyval;
  sq_redeemed_at : pyval;
  sq_status : pyval
}.

(** A track of a search response: [id], [uri], [name] and the names of its
    [artists]. *)
Record track := {
  tr_id : str;
  tr_uri : str;
  tr_name : str;
  tr_artists : list str
}.

(** An entry of [search_results] (lines 391-399). *)
Record search_result := {
  sr_track_id : str;
  sr_track_uri : str;
  sr_track_name : str;
  sr_artist : str;
  sr_user : pyval;
  sr_search_query : str;
  sr_method : str
}.

Record spotify_user := { su_id : str; su_display_name : str }.

Record playlist := { pl_id : str; pl_name : str; pl_url : str }.

(** The fields of a [TwitchOAuth] object that the callback handler writes
    and the flow reads. *)
Record TwitchOAuth := {
  access_token : pyval;
  refresh_token : pyval;
  auth_code : pyval
}.

(** What [get_song_requests_from_twitch] hands to [main]: a function that
    ends without [return] gives [None]; the source returns pairs. *)
Inductive fetched :=
| FNone
| FPair (song_requests : list direct_request) (search_requests : list search_request).

(** [bool(result)] in [if not result]: a 2-tuple is never empty. *)
Definition fetched_truthy (r : fetched) : bool :=
  match r with
  | FNone => false
  | FPair _ _ => true
  end.

(** The lines printed.  A banner of several lines, and a heading with the
    figures under it, are one message. *)
Inductive msg :=
| MBanner
| MNoChannel
| MFailedToFetch
| MNoValidRequests
| MPlaylistCreated
| MFetching (login : str)
| MFailedToAuthenticate
| MNoBroadcaster (login : str)
| MFoundBroadcaster (id : pyval)
| MFoundRewards (n : nat)
| MNoReward
| MAvailableRewards (titles : list pyval)
| MFoundReward (title id : pyval)
| MFetchingRedemptions
| MFoundRedemptions (n : nat)
| MSkippingNonSpotify (shown : str)
| MEmptyInput (user : pyval)
| MParsed (n : nat)
| MNeedSearch (n : nat)
| MStartingOAuth
| MOAuthTimeout
| MCreatingPlaylist
| MAuthenticatedAs (name : str)
| MCreated (name url : str)
| MSearching (n : nat)
| MFound (name artist shown : str)
| MNoResults (shown : str)
| MSearchError (shown : str) (e : exn)
| MFoundViaSearch (n : nat)
| MAdding (n : nat)
| MAdded (n total all : nat)
| MErrorAddingBatch (e : exn)
| MSummary (direct searched added : nat)
| MFailedToAdd (n : nat)
| MSampleDirectHeading
| MSampleDirect (r : direct_request)
| MSampleSearchHeading
| MSampleSearch (r : search_result).

(** What happens, in order: a line printed or a call to the outside. *)
Inductive event :=
| Print (m : msg)
| EvInput
| EvOAuthListen
| EvOpenBrowser
| EvSleep
| EvCleanup
| EvGetBroadcasterId (login : str)
| EvGetCustomRewards (broadcaster : pyval)
| EvGetRedemptions (broadcaster reward : pyval)
| EvCurrentUser
| EvPlaylistCreate (user name : str)
| EvSearch (query : str)
| EvAddItems (playlist_id : str) (batch : list str).

(** The collaborators: the terminal, the listener and the browser of the
    OAuth flow, the Twitch API and the Spotify client.  Each call takes the
    world to a new one; those that go over the network may raise.  The
    callback handler runs while the flow is suspended, so the awaits of the
    flow may change the [TwitchOAuth] object; the sleep and the cleanup of the
    listener return. *)
Class Env := {
  World : Type;
  (* input("Enter Twitch channel name: ") *)
  input : World -> str * World;
  (* datetime.now().strftime('%Y-%m-%d') *)
  today : World -> str;
  (* lines 109-135: the state value, the listener on the callback port *)
  oauth_listen : TwitchOAuth -> World -> result TwitchOAuth * World;
  (* webbrowser.open(auth_url) *)
  webbrowser_open : World -> result unit * World;
  (* await asyncio.sleep(1) *)
  sleep1 : TwitchOAuth -> World -> TwitchOAuth * World;
  (* await self.runner.cleanup() *)
  runner_cleanup : TwitchOAuth -> World -> TwitchOAuth * World;
  (* TwitchAPI, by access token: get_broadcaster_id(login),
     get_custom_rewards(broadcaster_id),
     get_reward_redemptions(broadcaster_id, reward_id) *)
  get_broadcaster_id : pyval -> str -> World -> result pyval * World;
  get_custom_rewards : pyval -> pyval -> World -> result (list json) * World;
  get_reward_redemptions : pyval -> pyval -> pyval -> World -> result (list json) * World;
  (* sp.current_user() *)
  sp_current_user : World -> result spotify_user * World;
  (* sp.user_playlist_create(user, name, description), public *)
  sp_user_playlist_create : str -> str -> str -> World -> result playlist * World;
  (* sp.search(q, type='track', limit=1)['tracks']['items'] *)
  sp_search : str -> World -> result (list track) * World;
  (* sp.playlist_add_items(playlist_id, batch) *)
  sp_playlist_add_items : str -> list str -> World -> result unit * World
}.

(** ** The monad of the script: a world, a trace, and exceptions *)

Record state `{Env} := {
  world : World;
  trace : list event
}.

Definition M `{Env} (A : Type) : Type := state -> result A * state.

Definition ret `{Env} {A : Type} (a : A) : M A := fun s => (Ok a, s).

Definition bind `{Env} {A B : Type} (m : M A) (k : A -> M B) : M B :=
  fun s =>
    match m s with
    | (Ok a, s') => k a s'
    | (Raise e, s') => (Raise e, s')
    end.

Notation "x <- m ;; k" := (bind m (fun x => k))
  (at level 100, m at next level, right associativity, only parsing).
Notation "m ;;; k" := (bind m (fun _ => k))
  (at level 100, right associativity, only parsing).

Definition raise `{Env} {A : Type} (e : exn) : M A := fun s => (Raise e, s).

Definition emit `{Env} (ev : event) : M unit :=
  fun s => (Ok tt, {| world := world s; trace := trace s ++ [ev] |}).

Definition print `{Env} (m : msg) : M unit := emit (Print m).

(** A call to the outside: recorded, then answered by the world. *)
Definition call `{Env} {A : Type} (ev : event) (f : World -> result A * World) : M A :=
  fun s =>
    let (r, w) := f (world s) in
    (r, {| world := w; trace := trace s ++ [ev] |}).

(** A call to the outside that always returns. *)
Definition call_total `{Env} {A : Type} (ev : event) (f : World -> A * World) : M A :=
  call ev (fun w => let (a, w') := f w in (Ok a, w')).

(** [try: body except Exception as e: handler(e)]. *)
Definition try_except `{Env} {A : Type} (body : M A) (handler : exn -> M A) : M A :=
  fun s =>
    match body s with
    | (Ok a, s') => (Ok a, s')
    | (Raise e, s') => handler e s'
    end.

(** [for x in l: st = body x st]. *)
Fixpoint for_each `{Env} {A S : Type} (l : list A) (body : A -> S -> M S) (st : S) : M S :=
  match l with
  | [] => ret st
  | x :: l' => st' <- body x st ;; for_each l' body st'
  end.

(** [d[k]]: the value, or [KeyError]. *)
Definition getitem `{Env} (d : json) (k : string) : M pyval :=
  match d !! k with
  | Some v => ret v
  | None => raise (KeyError k)
  end.

(** [d.get(k, default)]. *)
Definition dict_get (d : json) (k : string) (default : pyval) : pyval :=
  match d !! k with
  | Some v => v
  | None => default
  end.

(** [v.lower()] on a value: only a [str] has the method. *)
Definition py_lower `{Env} (v : pyval) : M str :=
  match v with
  | PyStr s => ret (lower s)
  | _ => raise AttributeError
  end.

(** [range(0, stop, step)]: 0, step, 2*step, ... below [stop]. *)
Definition py_range (stop step : nat) : list nat :=
  map (fun k => k * step) (seq 0 ((stop + step - 1) / step)).

(** ** TwitchOAuth.start_oauth_flow (lines 107-158) *)

(** [TwitchOAuth(...)]: a new object holds no token (lines 39-42). *)
Definition new_oauth : TwitchOAuth :=
  {| access_token := PyNone; refresh_token := PyNone; auth_code := PyNone |}.

Definition timeout : nat := 120.

(** Lines 146-149: [for _ in range(timeout)]: sleep one second, leave the
    loop as soon as the object holds a token. *)
Fixpoint wait_for_token `{Env} (ticks : nat) (self : TwitchOAuth) : M TwitchOAuth :=
  match ticks with
  | 0 => ret self
  | S ticks' =>
      self' <- call_total EvSleep (sleep1 self) ;;
      if truthy (access_token self') then ret self'
      else wait_for_token ticks' self'
  end.

Definition start_oauth_flow `{Env} (self : TwitchOAuth) : M (TwitchOAuth * bool) :=
  self <- call EvOAuthListen (oauth_listen self) ;;
  print MStartingOAuth ;;;
  call EvOpenBrowser webbrowser_open ;;;
  self <- wait_for_token timeout self ;;
  self <- call_total EvCleanup (runner_cleanup self) ;;
  if negb (truthy (access_token self)) then
    print MOAuthTimeout ;;;
    ret (self, false)
  else ret (self, true).

(** ** get_song_requests_from_twitch (lines 262-342) *)

Definition REWARD_NAME : str := lit "song request bot".

(** Lines 290-294: the first reward whose title is the reward name, case
    apart. *)
Fixpoint find_reward `{Env} (rewards : list json) : M (option json) :=
  match rewards with
  | [] => ret None
  | reward :: rest =>
      title <- getitem reward "title" ;;
      t <- py_lower title ;;
      if bool_decide (t = lower REWARD_NAME) then ret (Some reward)
      else find_reward rest
  end.

Definition has_url_marker (user_input : str) : bool :=
  contains (lit "http://") (lower user_input)
  || contains (lit "https://") (lower user_input)
  || contains (lit "www.") (lower user_input).

(** Lines 313-337: the body of the loop over the redemptions.  [acc] holds
    [song_requests] and [search_requests]. *)
Definition classify `{Env} (redemption : json)
    (acc : list direct_request * list search_request)
    : M (list direct_request * list search_request) :=
  let user_input := dict_get redemption "user_input" (PyStr []) in
  track_id <- (fun s => (parse_spotify_url user_input, s)) ;;
  match track_id with
  | Some (c :: i) =>                   (* [if track_id:] a string that is not empty *)
      user <- getitem redemption "user_name" ;;
      redeemed_at <- getitem redemption "redeemed_at" ;;
      status <- getitem redemption "status" ;;
      ret (fst acc ++ [{| dr_track_id := c :: i;
                          dr_user := user;
                          dr_redeemed_at := redeemed_at;
                          dr_status := status;
                          dr_original_input := user_input;
                          dr_method := lit "direct_url" |}],
           snd acc)
  | _ =>
      match user_input with
      | PyStr text =>
          if has_url_marker text then
            print (MSkippingNonSpotify (take 50 text)) ;;;
            ret acc
          else
            match strip text with
            | _ :: _ =>
                user <- getitem redemption "user_name" ;;
                redeemed_at <- getitem redemption "redeemed_at" ;;
                status <- getitem redemption "status" ;;
                ret (fst acc,
                     snd acc ++ [{| sq_search_query := text;
                                    sq_user := user;
                                    sq_redeemed_at := redeemed_at;
                                    sq_status := status |}])
            | [] =>
                user <- getitem redemption "user_name" ;;
                print (MEmptyInput user) ;;;
                ret acc
            end
      | _ => raise AttributeError      (* [user_input.lower()] on a value that is no str *)
      end
  end.

Definition classify_all `{Env} (redemptions : list json)
    : M (list direct_request * list search_request) :=
  for_each redemptions classify ([], []).

Fixpoint titles `{Env} (rewards : list json) : M (list pyval) :=
  match rewards with
  | [] => ret []
  | r :: rest =>
      t <- getitem r "title" ;;
      ts <- titles rest ;;
      ret (t :: ts)
  end.

Definition get_song_requests_from_twitch `{Env} (broadcaster_login : str) : M fetched :=
  print (MFetching broadcaster_login) ;;;
  flow <- start_oauth_flow new_oauth ;;
  if negb (snd flow) then
    print MFailedToAuthenticate ;;;
    ret (FPair [] [])
  else
    let token := access_token (fst flow) in
    broadcaster_id <- call (EvGetBroadcasterId broadcaster_login)
                           (get_broadcaster_id token broadcaster_login) ;;
    if negb (truthy broadcaster_id) then
      print (MNoBroadcaster broadcaster_login) ;;;
      ret (FPair [] [])
    else
      print (MFoundBroadcaster broadcaster_id) ;;;
      rewards <- call (EvGetCustomRewards broadcaster_id)
                      (get_custom_rewards token broadcaster_id) ;;
      print (MFoundRewards (length rewards)) ;;;
      song_reward <- find_reward rewards ;;
      match song_reward with
      | None =>
          print MNoReward ;;;
          ts <- titles rewards ;;
          print (MAvailableRewards ts) ;;;
          ret (FPair [] [])
      | Some reward =>
          title <- getitem reward "title" ;;
          id <- getitem reward "id" ;;
          print (MFoundReward title id) ;;;
          print MFetchingRedemptions ;;;
          id <- getitem reward "id" ;;
          redemptions <- call (EvGetRedemptions broadcaster_id id)
                              (get_reward_redemptions token broadcaster_id id) ;;
          print (MFoundRedemptions (length redemptions)) ;;;
          requests <- classify_all redemptions ;;
          print (MParsed (length (fst requests))) ;;;
          print (MNeedSearch (length (snd requests))) ;;;
          ret (FPair (fst requests) (snd requests))
      end.

(** ** create_spotify_playlist (lines 345-450) *)

(** Lines 384-404: the body of the search loop. *)
Definition search_one `{Env} (search_req : search_request)
    (search_results : list search_result) : M (list search_result) :=
  let query := sq_search_query search_req in
  try_except
    (items <- call (EvSearch query) (sp_search query) ;;
     match items with
     | track :: _ =>
         artist <- match tr_artists track with
                   | a :: _ => ret a
                   | [] => raise IndexError
                   end ;;
         print (MFound (tr_name track) artist (take 40 query)) ;;;
         ret (search_results ++ [{| sr_track_id := tr_id track;
                                    sr_track_uri := tr_uri track;
                                    sr_track_name := tr_name track;
                                    sr_artist := artist;
                                    sr_user := sq_user search_req;
                                    sr_search_query := query;
                                    sr_method := lit "search" |}])
     | [] =>
         print (MNoResults (take 50 query)) ;;;
         ret search_results
     end)
    (fun e =>
       print (MSearchError (take 50 query) e) ;;;
       ret search_results).

Definition resolve_searches `{Env} (search_requests : list search_request)
    : M (list search_result) :=
  for_each search_requests search_one [].

(** An insertion-ordered dict, as a list of its items: setting a key that
    is present keeps its place, a new key goes last. *)
Fixpoint dict_set (d : list (str * pyval)) (k : str) (v : pyval) : list (str * pyval) :=
  match d with
  | [] => [(k, v)]
  | (k', v') :: d' =>
      if bool_decide (k' = k) then (k', v) :: d'
      else (k', v') :: dict_set d' k v
  end.

(** [dict.fromkeys(keys)]: every key set to [None], in turn. *)
Definition dict_fromkeys (keys : list str) : list (str * pyval) :=
  fold_left (fun d k => dict_set d k PyNone) keys [].

(** [list(d)]: the keys in insertion order. *)
Definition dict_keys (d : list (str * pyval)) : list str := map fst d.

(** Lines 378 and 409-412: the URIs of the direct requests, then those of
    the search results, duplicates removed. *)
Definition assemble (song_requests : list direct_request)
    (search_results : list search_result) : list str :=
  let track_uris := map (fun req => lit "spotify:track:" ++ dr_track_id req) song_requests in
  let search_track_uris := map sr_track_uri search_results in
  let all_track_uris := track_uris ++ search_track_uris in
  dict_keys (dict_fromkeys all_track_uris).

Definition batch_size : nat := 100.

(** Lines 422-429: the body of the batch loop.  [acc] holds [added_count]
    and [failed_tracks]. *)
Definition add_batch `{Env} (playlist_id : str) (all_track_uris : list str)
    (i : nat) (acc : nat * list str) : M (nat * list str) :=
  let batch := take batch_size (drop i all_track_uris) in
  try_except
    (call (EvAddItems playlist_id batch) (sp_playlist_add_items playlist_id batch) ;;;
     let added_count := fst acc + length batch in
     print (MAdded (length batch) added_count (length all_track_uris)) ;;;
     ret (added_count, snd acc))
    (fun e =>
       print (MErrorAddingBatch e) ;;;
       ret (fst acc, snd acc ++ batch)).

(** Lines 415-429. *)
Definition add_in_batches `{Env} (playlist_id : str) (all_track_uris : list str)
    : M (nat * list str) :=
  for_each (py_range (length all_track_uris) batch_size)
           (add_batch playlist_id all_track_uris) (0, []).

Definition create_spotify_playlist `{Env} (song_requests : list direct_request)
    (search_requests : list search_request) (broadcaster_name : str) : M playlist :=
  print MCreatingPlaylist ;;;
  current_user <- call EvCurrentUser sp_current_user ;;
  let user_id := su_id current_user in
  print (MAuthenticatedAs (su_display_name current_user)) ;;;
  let playlist_name := broadcaster_name ++ lit " - Community Song Requests" in
  date <- (fun s => (Ok (today (world s)), s)) ;;
  let playlist_description :=
    lit "Community requested songs from Twitch channel points. Created on " ++ date in
  playlist <- call (EvPlaylistCreate user_id playlist_name)
                   (sp_user_playlist_create user_id playlist_name playlist_description) ;;
  print (MCreated (pl_name playlist) (pl_url playlist)) ;;;
  print (MSearching (length search_requests)) ;;;
  search_results <- resolve_searches search_requests ;;
  print (MFoundViaSearch (length search_results)) ;;;
  let all_track_uris := assemble song_requests search_results in
  print (MAdding (length all_track_uris)) ;;;
  added <- add_in_batches (pl_id playlist) all_track_uris ;;
  print (MSummary (length song_requests) (length search_results) (fst added)) ;;;
  match snd added with
  | _ :: _ => print (MFailedToAdd (length (snd added)))
  | [] => ret tt
  end ;;;
  match song_requests with
  | _ :: _ =>
      print MSampleDirectHeading ;;;
      for_each (take 3 song_requests) (fun r _ => print (MSampleDirect r)) tt
  | [] => ret tt
  end ;;;
  match search_results with
  | _ :: _ =>
      print MSampleSearchHeading ;;;
      for_each (take 3 search_results) (fun r _ => print (MSampleSearch r)) tt
  | [] => ret tt
  end ;;;
  ret playlist.

(** ** main (lines 453-485) *)

Definition main `{Env} : M unit :=
  print MBanner ;;;
  line <- call_total EvInput input ;;
  let broadcaster_login := strip line in
  match broadcaster_login with
  | [] => print MNoChannel
  | _ :: _ =>
      result <- get_song_requests_from_twitch broadcaster_login ;;
      if negb (fetched_truthy result) then print MFailedToFetch
      else
        match result with
        | FNone => raise TypeError     (* unpacking [None] *)
        | FPair song_requests search_requests =>
            match song_requests, search_requests with
            | [], [] => print MNoValidRequests
            | _, _ =>
                create_spotify_playlist song_requests search_requests broadcaster_login ;;;
                print MPlaylistCreated
            end
        end
  end.

(** Running a computation from a world, with nothing traced yet. *)
Definition run `{Env} {A : Type} (m : M A) (w : World) : result A * state :=
  m {| world := w; trace := [] |}.

(** ** The words of the specification, as definitions *)

(** A match object whose group 1 is [o], if there is a match. *)
Definition lift (o : option str) : option (option str) :=
  match o with
  | Some i => Some (Some i)
  | None => None
  end.

(** A redemption as Twitch documents it: the requester, the time and the
    status are there, and the text, when there, is a string. *)
Definition well_formed (redemption : json) : Prop :=
  is_Some (redemption !! "user_name")
  /\ is_Some (redemption !! "redeemed_at")
  /\ is_Some (redemption !! "status")
  /\ (redemption !! "user_input" = None
      \/ exists text, redemption !! "user_input" = Some (PyStr text)).

(** The three things that can happen to a redemption. *)
Inductive outcome :=
| Direct (request : direct_request)
| Search (request : search_request)
| Discarded (diagnostic : msg).

(** [happened acc acc' tr tr' o]: from the lists [acc] and the trace [tr],
    outcome [o] leads to [acc'] and [tr']. *)
Definition happened (acc acc' : list direct_request * list search_request)
    (tr tr' : list event) (o : outcome) : Prop :=
  match o with
  | Direct d => acc' = (fst acc ++ [d], snd acc) /\ tr' = tr
  | Search q => acc' = (fst acc, snd acc ++ [q]) /\ tr' = tr
  | Discarded m => acc' = acc /\ tr' = tr ++ [Print m]
  end.

(** [marker] occurs in [text] when case is ignored. *)
Definition ci_substring (marker text : str) : Prop :=
  exists pre mid post, text = pre ++ mid ++ post /\ lower mid = lower marker.

(** Text that looks like a link. *)
Definition url_shaped (text : str) : Prop :=
  ci_substring (lit "http://") text
  \/ ci_substring (lit "https://") text
  \/ ci_substring (lit "www.") text.

(** A Spotify track reference, as the claim about links means it: the text
    holds a web URL of a track on [open.spotify.com], in either scheme, or
    a [spotify:track:] URI (forms (a) and (b)). *)
Definition spotify_track_reference (text : str) : Prop :=
  find_ref [lit "https://open.spotify.com/track/";
            lit "http://open.spotify.com/track/"] text <> None
  \/ find_ref [lit "spotify:track:"] text <> None.

(** A link that is not to a track on Spotify. *)
Definition non_spotify_link (text : str) : Prop :=
  url_shaped text /\ ~ spotify_track_reference text.

(** The URI of a direct request (line 378). *)
Definition direct_uri (req : direct_request) : str :=
  lit "spotify:track:" ++ dr_track_id req.

(** Removing duplicates, first occurrences kept: walk through the
    sequence and keep a URI when it was not [seen] before. *)
Fixpoint unseen (seen l : list str) : list str :=
  match l with
  | [] => []
  | x :: l' =>
      if bool_decide (x ∈ seen) then unseen seen l'
      else x :: unseen (seen ++ [x]) l'
  end.

Definition first_occurrences (l : list str) : list str := unseen [] l.

(** A state with [evs] added to its trace. *)
Definition traced `{Env} (s : state) (evs : list event) : state :=
  {| world := world s; trace := trace s ++ evs |}.

(** The batches submitted and the queries searched, read off a trace. *)
Definition add_calls (tr : list event) : list (list str) :=
  omap (fun ev => match ev with EvAddItems _ batch => Some batch | _ => None end) tr.

Definition search_calls (tr : list event) : list str :=
  omap (fun ev => match ev with EvSearch query => Some query | _ => None end) tr.

(** The slices the batch loop takes (line 422), one per index of its range. *)
Definition batches (all_track_uris : list str) : list (list str) :=
  map (fun i => take batch_size (drop i all_track_uris))
      (py_range (length all_track_uris) batch_size).

(** The fate of each batch when the service is called with them in turn,
    from world [w]: [true] when the call returns, [false] when it raises. *)
Fixpoint add_outcomes `{Env} (playlist_id : str) (bs : list (list str)) (w : World)
    : list bool :=
  match bs with
  | [] => []
  | b :: rest =>
      let (r, w') := sp_playlist_add_items playlist_id b w in
      match r with
      | Ok _ => true :: add_outcomes playlist_id rest w'
      | Raise _ => false :: add_outcomes playlist_id rest w'
      end
  end.

(** The URIs of the batches whose fate is [fate], in order. *)
Fixpoint select (fate : bool) (oks : list bool) (bs : list (list str)) : list str :=
  match oks, bs with
  | ok :: oks', b :: bs' =>
      if Bool.eqb ok fate then b ++ select fate oks' bs' else select fate oks' bs'
  | _, _ => []
  end.

(** The search result a response gives for a request: one for a first
    track that lists an artist, none for a failed call, an empty list or a
    track without artists. *)
Definition result_of (req : search_request) (response : result (list track))
    : list search_result :=
  match response with
  | Ok (track :: _) =>
      match tr_artists track with
      | artist :: _ =>
          [{| sr_track_id := tr_id track;
              sr_track_uri := tr_uri track;
              sr_track_name := tr_name track;
              sr_artist := artist;
              sr_user := sq_user req;
              sr_search_query := sq_search_query req;
              sr_method := lit "search" |}]
      | [] => []
      end
  | _ => []
  end.

(** The results of searching for each request in turn, from world [w]. *)
Fixpoint search_hits `{Env} (reqs : list search_request) (w : World)
    : list search_result :=
  match reqs with
  | [] => []
  | req :: rest =>
      let (response, w') := sp_search (sq_search_query req) w in
      result_of req response ++ search_hits rest w'
  end.

(** The seconds slept, read off a trace. *)
Fixpoint sleeps (tr : list event) : nat :=
  match tr with
  | [] => 0
  | EvSleep :: tr' => S (sleeps tr')
  | _ :: tr' => sleeps tr'
  end.

(** The object and the world after [k] seconds of sleep. *)
Fixpoint after_sleeps `{Env} (k : nat) (self : TwitchOAuth) (w : World)
    : TwitchOAuth * World :=
  match k with
  | 0 => (self, w)
  | S k' => let (self', w') := sleep1 self w in after_sleeps k' self' w'
  end.

(** The token the flow sees at its [k]-th poll. *)
Definition token_after `{Env} (k : nat) (self : TwitchOAuth) (w : World) : pyval :=
  access_token (fst (after_sleeps k self w)).

(** The calls to Spotify, read off a trace. *)
Definition is_spotify_call (ev : event) : bool :=
  match ev with
  | EvCurrentUser | EvPlaylistCreate _ _ | EvSearch _ | EvAddItems _ _ => true
  | _ => false
  end.

Definition spotify_calls (tr : list event) : list event :=
  List.filter is_spotify_call tr.

(** [emits P Q m]: whatever the state, [m] adds to the trace only events
    that satisfy [P], and a value it returns satisfies [Q]. *)
Definition emits `{Env} {A : Type} (P : event -> Prop) (Q : A -> Prop) (m : M A) : Prop :=
  forall s, exists evs,
    trace (snd (m s)) = trace s ++ evs
    /\ Forall P evs
    /\ forall a, fst (m s) = Ok a -> Q a.

(** A reward that is not the song request reward: its title is a string
    other than the reward name, case apart. *)
Definition other_title (reward : json) : Prop :=
  exists t, reward !! "title" = Some (PyStr t) /\ lower t <> lower REWARD_NAME.

(** Events of the Twitch side of a run: no call to Spotify, and not the
    report of a failed fetch. *)
Definition twitch_side (ev : event) : Prop :=
  is_spotify_call ev = false /\ ev <> Print MFailedToFetch.

Definition is_pair (r : fetched) : Prop :=
  exists song_requests search_requests, r = FPair song_requests search_requests.

Definition anything {A : Type} (a : A) : Prop := True.

Definition not_failed_fetch (ev : event) : Prop := ev <> Print MFailedToFetch.

(** ** A scripted world, for examples

    The world is a clock, the seconds slept so far.  A script says what the
    operator types, when the callback delivers a token, what Twitch holds and
    how Spotify answers. *)

Record script := {
  sc_line : str;
  sc_token_at : option nat;
  sc_broadcaster : pyval;
  sc_rewards : list json;
  sc_redemptions : list json;
  sc_search : str -> result (list track);
  sc_refused : list str -> bool
}.

Definition scripted (sc : script) : Env := {|
  World := nat;
  input := fun w => (sc_line sc, w);
  today := fun _ => lit "2025-01-01";
  oauth_listen := fun self w => (Ok self, w);
  webbrowser_open := fun w => (Ok tt, w);
  sleep1 := fun self w =>
    (if bool_decide (sc_token_at sc = Some (S w))
     then {| access_token := PyStr (lit "token");
             refresh_token := refresh_token self;
             auth_code := PyStr (lit "code") |}
     else self,
     S w);
  runner_cleanup := fun self w => (self, w);
  get_broadcaster_id := fun _ _ w => (Ok (sc_broadcaster sc), w);
  get_custom_rewards := fun _ _ w => (Ok (sc_rewards sc), w);
  get_reward_redemptions := fun _ _ _ w => (Ok (sc_redemptions sc), w);
  sp_current_user := fun w =>
    (Ok {| su_id := lit "me"; su_display_name := lit "Me" |}, w);
  sp_user_playlist_create := fun _ name _ w =>
    (Ok {| pl_id := lit "p1"; pl_name := name; pl_url := lit "https://open.spotify.com/playlist/p1" |}, w);
  sp_search := fun query w => (sc_search sc query, w);
  sp_playlist_add_items := fun _ batch w =>
    (if sc_refused sc batch then Raise ServiceError else Ok tt, w)
|}.

Definition redemption_of (user_input : string) : json :=
  {[ "user_name" := PyStr (lit "viewer");
     "redeemed_at" := PyStr (lit "2025-01-01T00:00:00Z");
     "status" := PyStr (lit "FULFILLED");
     "user_input" := PyStr (lit user_input) ]}.

(** The three redemptions of the first end-to-end scenario. *)
Definition scenario_1 : list json :=
  [ redemption_of "https://open.spotify.com/track/abc123";
    redemption_of "please play freebird";
    redemption_of "" ].

Definition song_reward : json :=
  {[ "title" := PyStr (lit "Song Request Bot"); "id" := PyStr (lit "reward-1") ]}.

Definition freebird : track :=
  {| tr_id := lit "fb"; tr_uri := lit "spotify:track:fb";
     tr_name := lit "Free Bird"; tr_artists := [lit "Lynyrd Skynyrd"] |}.

(** A run in which the operator authorizes after three seconds. *)
Definition happy : script := {|
  sc_line := lit " somechannel ";
  sc_token_at := Some 3;
  sc_broadcaster := PyStr (lit "1234");
  sc_rewards := [song_reward];
  sc_redemptions := scenario_1;
  sc_search := fun _ => Ok [freebird];
  sc_refused := fun _ => false
|}.

(** A run in which no authorization ever comes. *)
Definition unanswered : script := {|
  sc_line := lit " somechannel ";
  sc_token_at := None;
  sc_broadcaster := PyStr (lit "1234");
  sc_rewards := [song_reward];
  sc_redemptions := scenario_1;
  sc_search := fun _ => Ok [freebird];
  sc_refused := fun _ => false
|}.

(** A Spotify that finds nothing and refuses every batch. *)
Definition hostile : script := {|
  sc_line := lit " somechannel ";
  sc_token_at := Some 1;
  sc_broadcaster := PyStr (lit "1234");
  sc_rewards := [song_reward];
  sc_redemptions := scenario_1;
  sc_search := fun _ => Raise ServiceError;
  sc_refused := fun _ => true
|}.

(** The world of [unanswered], but for the cleanup: the handler, which
    was waiting for the token endpoint when the wait ended, finishes while
    the listener is cleaned up and stores its token then. *)
Definition answered_in_cleanup : Env := {|
  World := nat;
  input := @input (scripted unanswered);
  today := @today (scripted unanswered);
  oauth_listen := @oauth_listen (scripted unanswered);
  webbrowser_open := @webbrowser_open (scripted unanswered);
  sleep1 := @sleep1 (scripted unanswered);
  runner_cleanup := fun self w =>
    ({| access_token := PyStr (lit "token");
        refresh_token := refresh_token self;
        auth_code := auth_code self |},
     w);
  get_broadcaster_id := @get_broadcaster_id (scripted unanswered);
  get_custom_rewards := @get_custom_rewards (scripted unanswered);
  get_reward_redemptions := @get_reward_redemptions (scripted unanswered);
  sp_current_user := @sp_current_user (scripted unanswered);
  sp_user_playlist_create := @sp_user_playlist_create (scripted unanswered);
  sp_search := @sp_search (scripted unanswered);
  sp_playlist_add_items := @sp_playlist_add_items (scripted unanswered)
|}.

(** The state in which a scripted run starts. *)
Definition fresh (sc : script) : @state (scripted sc) :=
  @Build_state (scripted sc) 0 [].

(** 150 distinct URIs. *)
Definition uris_150 : list str :=
  map (fun n => lit "spotify:track:" ++ [ascii_of_nat n]) (seq 0 150).

(** ** More words for the properties of the classifier *)

(** The text and the requester of a redemption, as the loop body reads
    them. *)
Definition text_of (redemption : json) : pyval :=
  dict_get redemption "user_input" (PyStr []).

Definition requester_of (redemption : json) : pyval :=
  default PyNone (redemption !! "user_name").

(** A direct request whose track is the one the parser reads in its text. *)
Definition direct_ok (d : direct_request) : Prop :=
  parse_spotify_url (dr_original_input d) = Ok (Some (dr_track_id d))
  /\ dr_method d = lit "direct_url".

(** A search request whose query holds no track reference and no link
    marker, and is not blank. *)
Definition search_ok (q : search_request) : Prop :=
  parse_spotify_url (PyStr (sq_search_query q)) = Ok None
  /\ has_url_marker (sq_search_query q) = false
  /\ strip (sq_search_query q) <> [].

(** ** TwitchOAuth.oauth_callback and exchange_code_for_token (lines 46-105)

    The handler of the local listener.  It runs while the flow sleeps, and
    is the only writer of the three fields the flow reads. *)

(** A whole [TwitchOAuth] object (lines 35-44): the configuration, the
    anti-forgery value of the flow ([None] until the flow starts, then a
    string), and the fields the handler writes. *)
Record oauth_object := {
  oo_client_id : pyval;
  oo_client_secret : pyval;
  oo_redirect_uri : pyval;
  oo_state : option str;
  oo_fields : TwitchOAuth
}.

(** The answer of the token endpoint: its status, its body read as JSON
    (which may fail) and as text. *)
Record token_response := {
  resp_status : nat;
  resp_json : result json;
  resp_text : str
}.

(** The token endpoint, reached by [session.post(url, data=data)]. *)
Class TokenEndpoint := {
  Net : Type;
  session_post : str -> json -> Net -> result token_response * Net
}.

Inductive cb_line :=
| LineObtainedToken
| LineExchangeFailed (error_text : str).

Inductive cb_event :=
| CbPost (url : str) (data : json)
| CbPrint (line : cb_line).

(** The pages the handler answers with. *)
Inductive page :=
| PageAuthorizationFailed (error_description : str)
| PageStateMismatch
| PageNoCode
| PageSuccess
| PageExchangeFailed.

(** [web.Response(text=..., status=...)]; the status is 200 when not given. *)
Record web_response := {
  wr_status : nat;
  wr_page : page
}.

(** The object, the network and what was posted and printed. *)
Record cb_state `{TokenEndpoint} := {
  cb_self : oauth_object;
  cb_net : Net;
  cb_log : list cb_event
}.

Definition token_url : str := lit "https://id.twitch.tv/oauth2/token".

(** A query parameter as a Python value: [params.get(k)]. *)
Definition param (params : gmap string str) (k : string) : pyval :=
  match params !! k with
  | Some v => PyStr v
  | None => PyNone
  end.

Definition with_fields (self : oauth_object) (fields : TwitchOAuth) : oauth_object :=
  {| oo_client_id := oo_client_id self;
     oo_client_secret := oo_client_secret self;
     oo_redirect_uri := oo_redirect_uri self;
     oo_state := oo_state self;
     oo_fields := fields |}.

(** Lines 86-92: what is posted to the token endpoint. *)
Definition token_request (self : oauth_object) : json :=
  {[ "client_id" := oo_client_id self;
     "client_secret" := oo_client_secret self;
     "code" := auth_code (oo_fields self);
     "grant_type" := PyStr (lit "authorization_code");
     "redirect_uri" := oo_redirect_uri self ]}.

(** The object once the handler has stored the code of a callback
    (line 60). *)
Definition with_code (self : oauth_object) (code : pyval) : oauth_object :=
  with_fields self
    {| access_token := access_token (oo_fields self);
       refresh_token := refresh_token (oo_fields self);
       auth_code := code |}.

(** Lines 83-105. *)
Definition exchange_code_for_token `{TokenEndpoint} (st : cb_state)
    : result bool * cb_state :=
  let self := cb_self st in
  let data := token_request self in
  let (r, net) := session_post token_url data (cb_net st) in
  let log := cb_log st ++ [CbPost token_url data] in
  match r with
  | Raise e => (Raise e, {| cb_self := self; cb_net := net; cb_log := log |})
  | Ok response =>
      if Nat.eqb (resp_status response) 200 then
        match resp_json response with
        | Raise e => (Raise e, {| cb_self := self; cb_net := net; cb_log := log |})
        | Ok token_data =>
            (Ok true,
             {| cb_self :=
                  with_fields self
                    {| access_token := dict_get token_data "access_token" PyNone;
                       refresh_token := dict_get token_data "refresh_token" PyNone;
                       auth_code := auth_code (oo_fields self) |};
                cb_net := net;
                cb_log := log ++ [CbPrint LineObtainedToken] |})
        end
      else
        (Ok false,
         {| cb_self := self; cb_net := net;
            cb_log := log ++ [CbPrint (LineExchangeFailed (resp_text response))] |})
  end.

(** Lines 46-81. *)
Definition oauth_callback `{TokenEndpoint} (params : gmap string str) (st : cb_state)
    : result web_response * cb_state :=
  let self := cb_self st in
  match params !! "error" with
  | Some _ =>
      let error_description :=
        match params !! "error_description" with
        | Some d => d
        | None => lit "Unknown error"
        end in
      (Ok {| wr_status := 400; wr_page := PageAuthorizationFailed error_description |}, st)
  | None =>
      if negb (bool_decide (params !! "state" = oo_state self)) then
        (Ok {| wr_status := 400; wr_page := PageStateMismatch |}, st)
      else
        let self1 := with_code self (param params "code") in
        let st1 := {| cb_self := self1; cb_net := cb_net st; cb_log := cb_log st |} in
        if negb (truthy (param params "code")) then
          (Ok {| wr_status := 400; wr_page := PageNoCode |}, st1)
        else
          match exchange_code_for_token st1 with
          | (Ok true, st2) => (Ok {| wr_status := 200; wr_page := PageSuccess |}, st2)
          | (Ok false, st2) => (Ok {| wr_status := 500; wr_page := PageExchangeFailed |}, st2)
          | (Raise e, st2) => (Raise e, st2)
          end
  end.

(** ** TwitchAPI (lines 161-238)

    The three calls to the helix API, over an HTTP session.  The [while
    True] loop of the pagination need not end, so the model of
    [get_reward_redemptions] takes fuel: the requests it may make for one
    status; it gives [None] when they do not suffice. *)

(** The two header values of a request: [Client-ID] and the bearer token
    of [Authorization]. *)
Record headers := {
  h_client_id : pyval;
  h_bearer : pyval
}.

(** The body of an answer, as the code reads it: [data], a list of
    objects when present, and [pagination], an object when present. *)
Record helix_body := {
  hb_data : option (list json);
  hb_pagination : option json
}.

(** The session: [session.get(url, headers=headers, params=params)] and
    [response.json()]. *)
Class Helix := {
  HNet : Type;
  session_get : str -> headers -> json -> HNet -> result helix_body * HNet
}.

Record request := {
  rq_url : str;
  rq_headers : headers;
  rq_params : json
}.

(** The network and the requests made so far. *)
Record api_state `{Helix} := {
  api_net : HNet;
  api_log : list request
}.

Module TwitchAPI.

(** Lines 164-168. *)
Record t := {
  client_id : pyval;
  client_secret : pyval;
  access_token : pyval
}.

Definition base_url : str := lit "https://api.twitch.tv/helix".

Definition headers_of (self : t) : headers :=
  {| h_client_id := client_id self; h_bearer := access_token self |}.

Definition get `{Helix} (url : str) (h : headers) (params : json) (st : api_state)
    : result helix_body * api_state :=
  let (r, net) := session_get url h params (api_net st) in
  (r, {| api_net := net;
         api_log := api_log st ++ [{| rq_url := url; rq_headers := h; rq_params := params |}] |}).

(** Lines 170-185. *)
Definition get_broadcaster_id `{Helix} (self : t) (broadcaster_login : str)
    (st : api_state) : result pyval * api_state :=
  let url := base_url ++ lit "/users" in
  let params : json := {[ "login" := PyStr broadcaster_login ]} in
  let (r, st') := get url (headers_of self) params st in
  match r with
  | Raise e => (Raise e, st')
  | Ok data =>
      match hb_data data with
      | Some (user :: _) =>                      (* [if data.get('data'):] *)
          match user !! "id" with
          | Some id => (Ok id, st')
          | None => (Raise (KeyError "id"), st')
          end
      | _ => (Ok PyNone, st')
      end
  end.

(** [data.get('data', [])]. *)
Definition items (data : helix_body) : list json := default [] (hb_data data).

(** Lines 187-200. *)
Definition get_custom_rewards `{Helix} (self : t) (broadcaster_id : pyval)
    (st : api_state) : result (list json) * api_state :=
  let url := base_url ++ lit "/channel_points/custom_rewards" in
  let params : json := {[ "broadcaster_id" := broadcaster_id ]} in
  let (r, st') := get url (headers_of self) params st in
  match r with
  | Raise e => (Raise e, st')
  | Ok data => (Ok (items data), st')
  end.

(** [data.get('pagination', {}).get('cursor')]. *)
Definition cursor_of (data : helix_body) : pyval :=
  match hb_pagination data with
  | Some pagination => dict_get pagination "cursor" PyNone
  | None => PyNone
  end.

Definition redemptions_url : str :=
  base_url ++ lit "/channel_points/custom_rewards/redemptions".

(** Lines 217-222: the parameters of the first request for a status. *)
Definition first_params (broadcaster_id reward_id : pyval) (status : str) : json :=
  {[ "broadcaster_id" := broadcaster_id;
     "reward_id" := reward_id;
     "status" := PyStr status;
     "first" := PyInt 50 ]}.

(** Lines 225-236: the [while True] loop, with [fuel] requests to spend. *)
Fixpoint fetch_pages `{Helix} (fuel : nat) (h : headers) (params : json)
    (all_redemptions : list json) (st : api_state)
    : option (result (list json) * api_state) :=
  match fuel with
  | 0 => None
  | S fuel' =>
      let (r, st') := get redemptions_url h params st in
      match r with
      | Raise e => Some (Raise e, st')
      | Ok data =>
          let all_redemptions := all_redemptions ++ items data in
          let cursor := cursor_of data in
          if truthy cursor then
            fetch_pages fuel' h (<["after" := cursor]> params) all_redemptions st'
          else Some (Ok all_redemptions, st')
      end
  end.

(** Lines 210-236: the loop over the statuses. *)
Fixpoint fetch_statuses `{Helix} (fuel : nat) (self : t) (broadcaster_id reward_id : pyval)
    (statuses : list str) (all_redemptions : list json) (st : api_state)
    : option (result (list json) * api_state) :=
  match statuses with
  | [] => Some (Ok all_redemptions, st)
  | status :: rest =>
      match fetch_pages fuel (headers_of self)
              (first_params broadcaster_id reward_id status) all_redemptions st with
      | None => None
      | Some (Raise e, st') => Some (Raise e, st')
      | Some (Ok all_redemptions, st') =>
          fetch_statuses fuel self broadcaster_id reward_id rest all_redemptions st'
      end
  end.

Definition default_statuses : list str :=
  [lit "CANCELED"; lit "FULFILLED"; lit "UNFULFILLED"].

(** Lines 202-238. *)
Definition get_reward_redemptions `{Helix} (fuel : nat) (self : t)
    (broadcaster_id reward_id : pyval) (statuses : option (list str)) (st : api_state)
    : option (result (list json) * api_state) :=
  let statuses :=
    match statuses with
    | None => default_statuses
    | Some l => l
    end in
  fetch_statuses fuel self broadcaster_id reward_id statuses [] st.

(** What the server holds for a query: asked with [params] from [net], it
    answers page after page, each with the cursor of the next, until one
    that has none. *)
Inductive serves `{Helix} (h : headers)
    : json -> HNet -> list (list json) -> list json -> HNet -> Prop :=
| serves_last params net body net' :
    session_get redemptions_url h params net = (Ok body, net') ->
    truthy (cursor_of body) = false ->
    serves h params net [items body] [params] net'
| serves_next params net body net' pages asked net'' :
    session_get redemptions_url h params net = (Ok body, net') ->
    truthy (cursor_of body) = true ->
    serves h (<["after" := cursor_of body]> params) net' pages asked net'' ->
    serves h params net (items body :: pages) (params :: asked) net''.

(** The same for a list of statuses, one after the other. *)
Inductive serves_all `{Helix} (self : t) (broadcaster_id reward_id : pyval)
    : list str -> HNet -> list (list (list json)) -> list json -> HNet -> Prop :=
| serves_none net : serves_all self broadcaster_id reward_id [] net [] [] net
| serves_status status rest net pages asked net' pagess asked' net'' :
    serves (headers_of self) (first_params broadcaster_id reward_id status) net
           pages asked net' ->
    serves_all self broadcaster_id reward_id rest net' pagess asked' net'' ->
    serves_all self broadcaster_id reward_id (status :: rest) net
               (pages :: pagess) (asked ++ asked') net''.

Definition request_of (h : headers) (params : json) : request :=
  {| rq_url := redemptions_url; rq_headers := h; rq_params := params |}.

End TwitchAPI.

(** ** The handler as a coroutine

    The handler does not run in one go.  It runs without interruption from
    the arrival of the request to the [session.post] of line 95, where it
    waits for the token endpoint, and again from the answer of the endpoint
    to its return; in between, the flow that sleeps and polls, and other
    handlers, run.  The two steps are those of [oauth_callback] above, cut
    at the post.  The answer counts as in once its body is read (lines 97
    and 103): the handler writes nothing between the status and the body. *)

(** What the first step leaves: a response at once, or a request posted. *)
Inductive began :=
| Returned (response : web_response)
| Posting (data : json).

(** Lines 48-66 and 85-92: from the request to the post. *)
Definition callback_begins (params : gmap string str) (self : oauth_object)
    : began * oauth_object :=
  match params !! "error" with
  | Some _ =>
      let error_description :=
        match params !! "error_description" with
        | Some d => d
        | None => lit "Unknown error"
        end in
      (Returned {| wr_status := 400; wr_page := PageAuthorizationFailed error_description |},
       self)
  | None =>
      if negb (bool_decide (params !! "state" = oo_state self)) then
        (Returned {| wr_status := 400; wr_page := PageStateMismatch |}, self)
      else
        let self1 := with_code self (param params "code") in
        if negb (truthy (param params "code")) then
          (Returned {| wr_status := 400; wr_page := PageNoCode |}, self1)
        else (Posting (token_request self1), self1)
  end.

(** Lines 96-105 and 68-81: from the answer of the endpoint to the return.
    [self] is the object as it is when the answer is in: the two tokens are
    written into it, its other fields are left as they are by then. *)
Definition callback_ends (answer : result token_response) (self : oauth_object)
    : result web_response * oauth_object * list cb_line :=
  match answer with
  | Raise e => (Raise e, self, [])
  | Ok response =>
      if Nat.eqb (resp_status response) 200 then
        match resp_json response with
        | Raise e => (Raise e, self, [])
        | Ok token_data =>
            (Ok {| wr_status := 200; wr_page := PageSuccess |},
             with_fields self
               {| access_token := dict_get token_data "access_token" PyNone;
                  refresh_token := dict_get token_data "refresh_token" PyNone;
                  auth_code := auth_code (oo_fields self) |},
             [LineObtainedToken])
        end
      else
        (Ok {| wr_status := 500; wr_page := PageExchangeFailed |}, self,
         [LineExchangeFailed (resp_text response)])
  end.

(** ** The flow and its handler together

    A world in which the listener of the flow is the handler above.  The
    clock advances by one at every sleep.  A callback that arrives in a
    second runs its first step then; the answer to what it posts is in
    [latency] seconds later (0: within the same second), and its second
    step runs in the sleep of that second, so the flow may poll several
    times between the two.  Answers that are due are handled before the
    callback of the second.  [oauth_listen] starts a new server, which has
    no request in flight.  [runner.cleanup()] accepts no new callback, lets
    the handlers finish whose answer is in within [grace] seconds, and
    cancels the others.  The rest of the world is that of [base]. *)

(** A handler waiting at its post: the second its answer is in, and the
    answer. *)
Record flight := {
  fl_due : nat;
  fl_answer : result token_response
}.

Record listener `{TokenEndpoint} := {
  li_clock : nat;
  li_net : Net;
  li_log : list cb_event;
  li_flights : list flight
}.

(** The second step of every handler whose answer is in by second [t],
    the oldest first; what is left are the handlers still waiting. *)
Fixpoint land_due (t : nat) (flights : list flight) (self : oauth_object)
    (log : list cb_event) : oauth_object * list cb_event * list flight :=
  match flights with
  | [] => (self, log, [])
  | f :: rest =>
      if fl_due f <=? t then
        let '(_, self1, lines) := callback_ends (fl_answer f) self in
        land_due t rest self1 (log ++ map CbPrint lines)
      else
        let '(self1, log1, rest1) := land_due t rest self log in
        (self1, log1, f :: rest1)
  end.

(** One second of the listener, on the object of the flow, whose other
    fields are those of [config]. *)
Definition second `{TokenEndpoint} (config : oauth_object)
    (arrivals : nat -> option (gmap string str)) (latency : nat -> nat)
    (self : TwitchOAuth) (l : listener) : TwitchOAuth * listener :=
  let t := S (li_clock l) in
  let '(self1, log1, flights1) :=
    land_due t (li_flights l) (with_fields config self) (li_log l) in
  match arrivals t with
  | None =>
      (oo_fields self1,
       {| li_clock := t; li_net := li_net l; li_log := log1; li_flights := flights1 |})
  | Some params =>
      match callback_begins params self1 with
      | (Returned _, self2) =>
          (oo_fields self2,
           {| li_clock := t; li_net := li_net l; li_log := log1; li_flights := flights1 |})
      | (Posting data, self2) =>
          let (answer, net) := session_post token_url data (li_net l) in
          let log2 := log1 ++ [CbPost token_url data] in
          match latency t with
          | 0 =>
              let '(_, self3, lines) := callback_ends answer self2 in
              (oo_fields self3,
               {| li_clock := t; li_net := net; li_log := log2 ++ map CbPrint lines;
                  li_flights := flights1 |})
          | S d =>
              (oo_fields self2,
               {| li_clock := t; li_net := net; li_log := log2;
                  li_flights := flights1 ++ [{| fl_due := t + S d; fl_answer := answer |}] |})
          end
      end
  end.

(** [runner.cleanup()]: the handlers whose answer is in within [grace]
    seconds finish, the others are cancelled. *)
Definition closing `{TokenEndpoint} (config : oauth_object) (grace : nat)
    (self : TwitchOAuth) (l : listener) : TwitchOAuth * listener :=
  let '(self1, log1, _) :=
    land_due (li_clock l + grace) (li_flights l) (with_fields config self) (li_log l) in
  (oo_fields self1,
   {| li_clock := li_clock l; li_net := li_net l; li_log := log1; li_flights := [] |}).

(** The world once the flow listens: its server has no handler waiting. *)
Definition listened {base : Env} {E : TokenEndpoint} (w : @World base * @listener E)
    : @World base * @listener E :=
  (fst w, {| li_clock := li_clock (snd w); li_net := li_net (snd w);
             li_log := li_log (snd w); li_flights := [] |}).

Definition with_listener (base : Env) (E : TokenEndpoint) (config : oauth_object)
    (arrivals : nat -> option (gmap string str)) (latency : nat -> nat) (grace : nat)
    : Env := {|
  World := @World base * @listener E;
  input := fun w => let (line, b) := @input base (fst w) in (line, (b, snd w));
  today := fun w => @today base (fst w);
  oauth_listen := fun self w => (Ok self, listened w);
  webbrowser_open := fun w => (Ok tt, w);
  sleep1 := fun self w =>
    let (self', l) := second config arrivals latency self (snd w) in (self', (fst w, l));
  runner_cleanup := fun self w =>
    let (self', l) := closing config grace self (snd w) in (self', (fst w, l));
  get_broadcaster_id := fun token login w =>
    let (r, b) := @get_broadcaster_id base token login (fst w) in (r, (b, snd w));
  get_custom_rewards := fun token id w =>
    let (r, b) := @get_custom_rewards base token id (fst w) in (r, (b, snd w));
  get_reward_redemptions := fun token id reward w =>
    let (r, b) := @get_reward_redemptions base token id reward (fst w) in (r, (b, snd w));
  sp_current_user := fun w =>
    let (r, b) := @sp_current_user base (fst w) in (r, (b, snd w));
  sp_user_playlist_create := fun user name description w =>
    let (r, b) := @sp_user_playlist_create base user name description (fst w) in
    (r, (b, snd w));
  sp_search := fun query w =>
    let (r, b) := @sp_search base query (fst w) in (r, (b, snd w));
  sp_playlist_add_items := fun id batch w =>
    let (r, b) := @sp_playlist_add_items base id batch (fst w) in (r, (b, snd w))
|}.

(** A callback the handler turns away. *)
Definition forged (config : oauth_object) (params : gmap string str) : Prop :=
  is_Some (params !! "error") \/ params !! "state" <> oo_state config.

(** The world after [n] seconds in which nothing was handled and nothing
    was posted: the clock has advanced, [flights] are waiting. *)
Definition ticked {base : Env} {E : TokenEndpoint} (n : nat) (flights : list flight)
    (w : @World base * @listener E) : @World base * @listener E :=
  (fst w, {| li_clock := li_clock (snd w) + n; li_net := li_net (snd w);
             li_log := li_log (snd w); li_flights := flights |}).

(** ** More scripted worlds, for examples *)

(** A token endpoint that always gives the same answer. *)
Definition fixed_endpoint (answer : result token_response) : TokenEndpoint :=
  {| Net := unit; session_post := fun _ _ net => (answer, net) |}.

Definition listening (state : str) : oauth_object :=
  {| oo_client_id := PyStr (lit "id"); oo_client_secret := PyStr (lit "secret");
     oo_redirect_uri := PyStr (lit "http://localhost:5000/twitch/callback");
     oo_state := Some state; oo_fields := new_oauth |}.

Definition waiting (E : TokenEndpoint) (net : @Net E) (state : str) : @cb_state E :=
  @Build_cb_state E (listening state) net [].

Definition granted : token_response :=
  {| resp_status := 200;
     resp_json := Ok {[ "access_token" := PyStr (lit "tok"); "refresh_token" := PyStr (lit "ref") ]};
     resp_text := [] |}.

Definition granted_nothing : token_response :=
  {| resp_status := 200; resp_json := Ok ∅; resp_text := [] |}.

(** A server that holds two pages of fulfilled redemptions and none of the
    other two kinds. *)
Definition two_pages : Helix := {|
  HNet := unit;
  session_get := fun _ _ params net =>
    (Ok match params !! "status", params !! "after" with
        | Some (PyStr status), None =>
            if bool_decide (status = lit "FULFILLED") then
              {| hb_data := Some [redemption_of "first"];
                 hb_pagination := Some {[ "cursor" := PyStr (lit "next") ]} |}
            else {| hb_data := Some []; hb_pagination := None |}
        | _, _ => {| hb_data := Some [redemption_of "second"]; hb_pagination := Some ∅ |}
        end,
     net)
|}.

(** A server that always has one more page. *)
Definition endless : Helix := {|
  HNet := unit;
  session_get := fun _ _ _ net =>
    (Ok {| hb_data := Some [redemption_of "again"];
           hb_pagination := Some {[ "cursor" := PyStr (lit "more") ]} |},
     net)
|}.

Definition api : TwitchAPI.t :=
  {| TwitchAPI.client_id := PyStr (lit "id"); TwitchAPI.client_secret := PyStr (lit "secret");
     TwitchAPI.access_token := PyStr (lit "tok") |}.

(** Someone guesses at the [state], every second. *)
Definition guessing (t : nat) : option (gmap string str) :=
  Some {[ "state" := lit "guess"; "code" := lit "c0de" ]}.

(** A guess in second 2, the operator's own callback in second 5. *)
Definition guess_then_grant (t : nat) : option (gmap string str) :=
  if Nat.eqb t 2 then Some {[ "state" := lit "guess"; "code" := lit "c0de" ]}
  else if Nat.eqb t 5 then Some {[ "state" := lit "s3cret"; "code" := lit "c0de" ]}
  else None.

(** The operator's callback arrives in second 118; the token endpoint
    takes four seconds to answer. *)
Definition grant_at_118 (t : nat) : option (gmap string str) :=
  if Nat.eqb t 118 then Some {[ "state" := lit "s3cret"; "code" := lit "c0de" ]} else None.

Definition listening_world (arrivals : nat -> option (gmap string str))
    (latency grace : nat) : Env :=
  with_listener (scripted unanswered) (fixed_endpoint (Ok granted)) (listening (lit "s3cret"))
    arrivals (fun _ => latency) grace.

Definition listening_start (arrivals : nat -> option (gmap string str))
    (latency grace : nat) : @state (listening_world arrivals latency grace) :=
  @Build_state (listening_world arrivals latency grace)
    (0, @Build_listener (fixed_endpoint (Ok granted)) 0 tt [] []) [].

(** * Properties *)

(** ** The parser *)

Lemma in_class_alnum (c : ascii) : in_class alnum_ranges c = is_alnum c.
Proof. destruct c as [[] [] [] [] [] [] [] []]; reflexivity. Qed.

Lemma span_ext (f g : ascii -> bool) (s : str) :
  (forall c, f c = g c) -> span f s = span g s.
Proof.
  intros E. induction s as [|c s IH]; simpl; [reflexivity|].
  rewrite E, IH. reflexivity.
Qed.

Lemma take_span (f : ascii -> bool) (s : str) :
  take (length (span f s)) s = span f s.
Proof.
  induction s as [|c s IH]; simpl; [reflexivity|].
  destruct (f c); simpl; [f_equal; exact IH | reflexivity].
Qed.

Lemma span_all (f : ascii -> bool) (s : str) : forallb f (span f s) = true.
Proof.
  induction s as [|c s IH]; simpl; [reflexivity|].
  destruct (f c) eqn:E; simpl; [rewrite E; exact IH | reflexivity].
Qed.

Lemma ascii_eqb_sym (a b : ascii) : ascii_eqb a b = ascii_eqb b a.
Proof. apply Ascii.eqb_sym. Qed.

(** A run of literal characters matches as [startswith] tests. *)
Lemma match_here_lits (pre : str) (p : pattern) (s : str) (g : option str) :
  match_here (map Lit pre ++ p) s g
  = if startswith pre s then match_here p (drop (length pre) s) g else None.
Proof.
  revert s. induction pre as [|a pre IH]; intros s; simpl.
  - rewrite drop_0. reflexivity.
  - destruct s as [|b s]; [reflexivity|].
    rewrite (ascii_eqb_sym a b). destruct (ascii_eqb b a); simpl; [apply IH | reflexivity].
Qed.

(** A final group takes the longest run of its class. *)
Lemma match_here_group (ranges : list (ascii * ascii)) (s : str) (g : option str) :
  match_here [Group1Plus ranges] s g
  = match span (in_class ranges) s with
    | [] => None
    | run => Some (Some run)
    end.
Proof.
  simpl. pose proof (take_span (in_class ranges) s) as T.
  destruct (span (in_class ranges) s) as [|c run] eqn:E; [reflexivity|].
  cbn [length]. rewrite seq_S, rev_app_distr. cbn [rev app first_some].
  replace (1 + length run) with (S (length run)) by reflexivity.
  simpl in T. rewrite T. reflexivity.
Qed.

Lemma match_here_id_after (pre s : str) :
  match_here (map Lit pre ++ [Group1Plus alnum_ranges]) s None = lift (id_after pre s).
Proof.
  rewrite match_here_lits. unfold id_after.
  destruct (startswith pre s); [|reflexivity].
  rewrite match_here_group, (span_ext _ is_alnum) by apply in_class_alnum.
  destruct (span is_alnum _); reflexivity.
Qed.

Lemma startswith_app (p q s : str) :
  startswith (p ++ q) s = startswith p s && startswith q (drop (length p) s).
Proof.
  revert s. induction p as [|a p IH]; intros s; simpl.
  - rewrite drop_0. reflexivity.
  - destruct s as [|b s]; [reflexivity|]. simpl.
    rewrite IH. destruct (ascii_eqb a b); reflexivity.
Qed.

Lemma id_after_app (p q s : str) :
  id_after (p ++ q) s
  = if startswith p s then id_after q (drop (length p) s) else None.
Proof.
  unfold id_after. rewrite startswith_app.
  destruct (startswith p s); [|reflexivity]. simpl.
  rewrite length_app, <- drop_drop. reflexivity.
Qed.

(** The first pattern: [http], an optional [s], then the rest of the URL. *)
Lemma match_here_web (s : str) :
  match_here (nth 0 patterns []) s None
  = lift (first_some (fun p => id_after p s)
            [lit "https://open.spotify.com/track/"; lit "http://open.spotify.com/track/"]).
Proof.
  change (nth 0 patterns [])
    with (map Lit (lit "http")
          ++ OptLit "s"%char
             :: (map Lit (lit "://open.spotify.com/track/") ++ [Group1Plus alnum_ranges])).
  rewrite match_here_lits.
  change (lit "https://open.spotify.com/track/")
    with (lit "http" ++ lit "s://open.spotify.com/track/").
  change (lit "http://open.spotify.com/track/")
    with (lit "http" ++ lit "://open.spotify.com/track/").
  cbn [first_some]. rewrite !id_after_app.
  destruct (startswith (lit "http") s); [|reflexivity].
  set (s4 := drop (length (lit "http")) s).
  change (match_here (OptLit "s"%char :: ?p) s4 None)
    with (match match_here (Lit "s"%char :: p) s4 None with
          | Some m => Some m
          | None => match_here p s4 None
          end).
  change (Lit "s"%char :: map Lit (lit "://open.spotify.com/track/") ++ [Group1Plus alnum_ranges])
    with (map Lit (lit "s://open.spotify.com/track/") ++ [Group1Plus alnum_ranges]).
  rewrite !match_here_id_after.
  destruct (id_after (lit "s://open.spotify.com/track/") s4); [reflexivity|].
  destruct (id_after (lit "://open.spotify.com/track/") s4); reflexivity.
Qed.

Lemma match_here_one (pre s : str) :
  match_here (map Lit pre ++ [Group1Plus alnum_ranges]) s None
  = lift (first_some (fun p => id_after p s) [pre]).
Proof.
  rewrite match_here_id_after. cbn [first_some].
  destruct (id_after pre s); reflexivity.
Qed.

(** Searching for a pattern finds the leftmost reference. *)
Lemma re_search_find_ref (p : pattern) (prefixes : list str) :
  (forall s, match_here p s None = lift (first_some (fun q => id_after q s) prefixes)) ->
  forall s, re_search p s = lift (find_ref prefixes s).
Proof.
  intros E s. induction s as [|c s IH]; simpl; rewrite E;
    destruct (first_some _ prefixes); simpl; auto.
Qed.

Lemma first_match_parse_ref (text : str) : first_match patterns text = parse_ref text.
Proof.
  unfold parse_ref, first_of.
  change patterns
    with [nth 0 patterns [];
          map Lit (lit "spotify:track:") ++ [Group1Plus alnum_ranges];
          map Lit (lit "track/") ++ [Group1Plus alnum_ranges]].
  cbn [first_match].
  rewrite (re_search_find_ref _ _ match_here_web).
  rewrite !(re_search_find_ref _ _ (match_here_one _)).
  destruct (find_ref [lit "https://open.spotify.com/track/"; _] text); [reflexivity|].
  destruct (find_ref [lit "spotify:track:"] text); [reflexivity|].
  destruct (find_ref [lit "track/"] text); reflexivity.
Qed.

(** The parser on a string is the reference parser. *)
Lemma parse_str (text : str) : parse_spotify_url (PyStr text) = Ok (parse_ref text).
Proof.
  destruct text as [|c text]; [reflexivity|].
  unfold parse_spotify_url. cbn [truthy negb].
  rewrite first_match_parse_ref. reflexivity.
Qed.

Lemma id_after_alnum (p s i : str) :
  id_after p s = Some i -> i <> [] /\ forallb is_alnum i = true.
Proof.
  unfold id_after. destruct (startswith p s); [|discriminate].
  destruct (span is_alnum _) eqn:S; [discriminate|].
  intros [= <-]. rewrite <- S. split; [rewrite S; discriminate | apply span_all].
Qed.

Lemma first_id_after_alnum (prefixes : list str) (s i : str) :
  first_some (fun p => id_after p s) prefixes = Some i ->
  i <> [] /\ forallb is_alnum i = true.
Proof.
  induction prefixes as [|p ps IH]; [discriminate|]. simpl.
  destruct (id_after p s) as [k|] eqn:K; [|exact IH].
  intros [= <-]. exact (id_after_alnum p s k K).
Qed.

Lemma find_ref_alnum (prefixes : list str) (s i : str) :
  find_ref prefixes s = Some i -> i <> [] /\ forallb is_alnum i = true.
Proof.
  induction s as [|c s IH]; simpl;
    destruct (first_some _ prefixes) as [j|] eqn:E;
    try discriminate; try exact IH;
    intros [= <-]; exact (first_id_after_alnum prefixes _ j E).
Qed.

(** An identifier the parser returns is a non-empty alphanumeric token. *)
Lemma parse_ref_alnum (text i : str) :
  parse_ref text = Some i -> i <> [] /\ forallb is_alnum i = true.
Proof.
  unfold parse_ref, first_of.
  destruct (find_ref [_; _] text) eqn:A; [intros [= <-]; eapply find_ref_alnum, A|].
  destruct (find_ref [lit "spotify:track:"] text) eqn:B;
    [intros [= <-]; eapply find_ref_alnum, B|].
  apply find_ref_alnum.
Qed.

(** C1 (as corrected).  On every text the parser returns what the reference
    definition returns: the identifier of the leftmost web URL
    [https://open.spotify.com/track/<id>] or [http://open.spotify.com/track/<id>],
    else of the leftmost URI [spotify:track:<id>], else of the leftmost
    fragment [track/<id>], else nothing; (a) wins over (b) and (b) over (c).
    An identifier it returns is a non-empty alphanumeric token.  On the empty
    string and on [None] it returns nothing, and it raises on no string. *)
Theorem parse_spotify_url_reference :
  (forall text, parse_spotify_url (PyStr text) = Ok (parse_ref text))
  /\ (forall text i, parse_spotify_url (PyStr text) = Ok (Some i) ->
        i <> [] /\ forallb is_alnum i = true)
  /\ parse_spotify_url (PyStr []) = Ok None
  /\ parse_spotify_url PyNone = Ok None.
Proof.
  split; [exact parse_str|]. split; [|split; reflexivity].
  intros text i. rewrite parse_str. intros [= E]. exact (parse_ref_alnum text i E).
Qed.

(** C1 (as stated) fails: with form (a) read as an [https://] URL only, a
    text that holds a bare fragment before an [http://] URL parses to the
    fragment's identifier, while the source returns the URL's. *)
Lemma parse_spotify_url_http_scheme :
  let text := lit "track/abc http://open.spotify.com/track/xyz" in
  parse_spotify_url (PyStr text) = Ok (Some (lit "xyz"))
  /\ parse_spec text = Some (lit "abc")
  /\ parse_spotify_url (PyStr text) <> Ok (parse_spec text).
Proof. vm_compute. repeat split; discriminate. Qed.

(** ** The classifier *)

Section Classifier.
Context `{Env}.

Implicit Types (redemption : json) (acc : list direct_request * list search_request).

Lemma traced_nil (s : state) : traced s [] = s.
Proof. destruct s. unfold traced. simpl. rewrite app_nil_r. reflexivity. Qed.

Lemma traced_traced (s : state) (a b : list event) :
  traced (traced s a) b = traced s (a ++ b).
Proof. unfold traced. simpl. rewrite app_assoc. reflexivity. Qed.

(** The text the classifier reads: the field, or [''] when it is absent. *)
Lemma user_input_text redemption :
  (redemption !! "user_input" = None
   \/ exists text, redemption !! "user_input" = Some (PyStr text)) ->
  exists text, dict_get redemption "user_input" (PyStr []) = PyStr text.
Proof.
  unfold dict_get. intros [-> | [text ->]]; eauto.
Qed.

(** What the loop body does with a text, in the four cases of the source. *)
Lemma classify_text redemption text user redeemed_at status acc s :
  dict_get redemption "user_input" (PyStr []) = PyStr text ->
  redemption !! "user_name" = Some user ->
  redemption !! "redeemed_at" = Some redeemed_at ->
  redemption !! "status" = Some status ->
  classify redemption acc s =
    match parse_ref text with
    | Some (c :: i) =>
        (Ok (fst acc ++ [{| dr_track_id := c :: i; dr_user := user;
                            dr_redeemed_at := redeemed_at; dr_status := status;
                            dr_original_input := PyStr text;
                            dr_method := lit "direct_url" |}], snd acc), s)
    | _ =>
        if has_url_marker text then
          (Ok acc, traced s [Print (MSkippingNonSpotify (take 50 text))])
        else
          match strip text with
          | _ :: _ =>
              (Ok (fst acc, snd acc ++ [{| sq_search_query := text; sq_user := user;
                                           sq_redeemed_at := redeemed_at;
                                           sq_status := status |}]), s)
          | [] => (Ok acc, traced s [Print (MEmptyInput user)])
          end
    end.
Proof.
  intros T U R S. unfold classify, bind, getitem. rewrite T, parse_str, U, R, S.
  destruct (parse_ref text) as [[|c i]|]; try reflexivity;
    destruct (has_url_marker text); try reflexivity;
    destruct (strip text); reflexivity.
Qed.

Lemma happened_unique acc acc' tr tr' (o o' : outcome) :
  happened acc acc' tr tr' o -> happened acc acc' tr tr' o' -> o = o'.
Proof.
  destruct acc as [songs searches].
  assert (L : forall (A : Type) (l : list A) (x : A), l ++ [x] <> l).
  { intros A l x E. apply (f_equal length) in E. rewrite length_app in E. simpl in E. lia. }
  destruct o as [d|q|m], o' as [d'|q'|m']; simpl; intros [E1 E2] [E3 E4]; subst.
  - injection E3 as E3. apply app_inj_tail in E3 as [_ ->]. reflexivity.
  - injection E3 as E3 E5. apply L in E3 as [].
  - symmetry in E4. apply L in E4 as [].
  - injection E3 as E3 E5. symmetry in E3. apply L in E3 as [].
  - injection E3 as E3. apply app_inj_tail in E3 as [_ ->]. reflexivity.
  - symmetry in E4. apply L in E4 as [].
  - apply L in E4 as [].
  - apply L in E4 as [].
  - apply app_inj_tail in E4 as [_ E4]. injection E4 as ->. reflexivity.
Qed.

(** One step of the loop on a well-formed redemption: it returns, leaves
    the world alone, and exactly one outcome happened. *)
Lemma classify_one redemption acc s :
  well_formed redemption ->
  exists acc' s',
    classify redemption acc s = (Ok acc', s')
    /\ world s' = world s
    /\ exists! o, happened acc acc' (trace s) (trace s') o.
Proof.
  intros ([user U] & [redeemed_at R] & [status S] & T).
  apply user_input_text in T as [text T].
  rewrite (classify_text _ _ _ _ _ _ _ T U R S).
  assert (X : forall acc' s' o, world s' = world s ->
              happened acc acc' (trace s) (trace s') o ->
              exists acc'' s'',
                (Ok acc', s') = (Ok acc'', s'') /\ world s'' = world s
                /\ exists! o, happened acc acc'' (trace s) (trace s'') o).
  { intros acc' s' o W Ho. exists acc', s'. split; [reflexivity|]. split; [exact W|].
    exists o. split; [exact Ho|]. intros o'. apply happened_unique, Ho. }
  destruct (parse_ref text) as [[|c i]|].
  2: { eapply X; [reflexivity|]. instantiate (1 := Direct _). simpl. split; reflexivity. }
  all: destruct (has_url_marker text);
    [ eapply X; [reflexivity|]; instantiate (1 := Discarded _); simpl; split; reflexivity |].
  all: destruct (strip text);
    [ eapply X; [reflexivity|]; instantiate (1 := Discarded _); simpl; split; reflexivity
    | eapply X; [reflexivity|]; instantiate (1 := Search _); simpl; split; reflexivity ].
Qed.

Lemma classify_loop (redemptions : list json) acc s :
  Forall well_formed redemptions ->
  exists acc' diagnostics,
    for_each redemptions classify acc s = (Ok acc', traced s (map Print diagnostics))
    /\ length (fst acc') + length (snd acc') + length diagnostics
       = length (fst acc) + length (snd acc) + length redemptions.
Proof.
  intros W. revert acc s. induction W as [|r rs Wr _ IH]; intros acc s.
  - exists acc, []. simpl. unfold ret. rewrite traced_nil. split; [reflexivity | lia].
  - destruct (classify_one r acc s Wr) as (acc1 & s1 & E & Hw & o & Ho & _).
    destruct (IH acc1 s1) as (acc2 & ds & E2 & L2).
    cbn [for_each]. unfold bind at 1. rewrite E, E2.
    assert (S1 : forall evs, trace s1 = trace s ++ evs -> s1 = traced s evs).
    { intros evs Et. destruct s1 as [w1 t1]. unfold traced. simpl in *. subst. reflexivity. }
    destruct o as [d|q|m]; simpl in Ho; destruct Ho as [-> Et].
    + exists acc2, ds. rewrite (S1 []), traced_nil in * by (rewrite app_nil_r; exact Et).
      split; [reflexivity|]. simpl in L2. rewrite length_app in L2. simpl in *. lia.
    + exists acc2, ds. rewrite (S1 []), traced_nil in * by (rewrite app_nil_r; exact Et).
      split; [reflexivity|]. simpl in L2. rewrite length_app in L2. simpl in *. lia.
    + exists acc2, (m :: ds). rewrite (S1 _ Et), traced_traced.
      split; [reflexivity|]. simpl. lia.
Qed.

(** C2.  Classification is total and mutually exclusive.  On a redemption
    of the fetched list (the requester, time and status present, the text a
    string or absent) the loop body returns and exactly one outcome happened:
    a direct request appended, a search request appended, or a diagnostic
    printed and nothing appended.  The loop over the whole list returns, and
    the direct requests, search requests and diagnostics add up to the
    number of redemptions. *)
Theorem classification_total_exclusive (redemptions : list json) :
  Forall well_formed redemptions ->
  (forall r acc s, r ∈ redemptions ->
     exists acc' s',
       classify r acc s = (Ok acc', s')
       /\ world s' = world s
       /\ exists! o, happened acc acc' (trace s) (trace s') o)
  /\ (forall s, exists song_requests search_requests diagnostics,
        classify_all redemptions s
        = (Ok (song_requests, search_requests), traced s (map Print diagnostics))
        /\ length song_requests + length search_requests + length diagnostics
           = length redemptions).
Proof.
  intros W. split.
  - intros r acc s Hr. apply classify_one. rewrite Forall_forall in W. auto.
  - intros s. destruct (classify_loop redemptions ([], []) s W) as ([a b] & ds & E & L).
    exists a, b, ds. split; [exact E | exact L].
Qed.

(** [p in s] holds exactly when [s] splits around [p]. *)
Lemma startswith_spec (p s : str) :
  startswith p s = true <-> exists post, s = p ++ post.
Proof.
  revert s. induction p as [|a p IH]; intros s; simpl.
  - split; eauto.
  - destruct s as [|b s].
    + split; [discriminate | intros [post E]; discriminate].
    + rewrite andb_true_iff, IH. unfold ascii_eqb. rewrite Ascii.eqb_eq. split.
      * intros [-> [post ->]]. eauto.
      * intros [post E]. injection E as -> ->. eauto.
Qed.

Lemma contains_spec (p s : str) :
  contains p s = true <-> exists pre post, s = pre ++ p ++ post.
Proof.
  induction s as [|c s IH]; simpl; rewrite orb_true_iff, startswith_spec.
  - split.
    + intros [[post E] | D]; [|discriminate]. exists [], post. exact E.
    + intros ([|? pre] & post & E); [left; eauto | discriminate].
  - rewrite IH. split.
    + intros [[post E] | (pre & post & ->)].
      * exists [], post. exact E.
      * exists (c :: pre), post. reflexivity.
    + intros ([|c' pre] & post & E).
      * left. eauto.
      * injection E as -> ->. right. eauto.
Qed.

Lemma lower_idempotent (s : str) : lower (lower s) = lower s.
Proof.
  unfold lower. rewrite map_map. apply map_ext.
  intros [[] [] [] [] [] [] [] []]; reflexivity.
Qed.

(** Looking for a marker in the lowered text finds it whatever its case. *)
Lemma contains_lower (marker text : str) :
  contains (lower marker) (lower text) = true <-> ci_substring marker text.
Proof.
  rewrite contains_spec. unfold ci_substring, lower. split.
  - intros (pre & post & E).
    apply map_eq_app in E as (pre' & rest & -> & <- & E).
    apply map_eq_app in E as (mid & post' & -> & E & <-).
    eauto.
  - intros (pre & mid & post & -> & E).
    exists (map lower_char pre), (map lower_char post).
    rewrite !map_app, E. reflexivity.
Qed.

Lemma has_url_marker_spec (text : str) : has_url_marker text = true <-> url_shaped text.
Proof.
  unfold has_url_marker, url_shaped.
  rewrite !orb_true_iff, <- !contains_lower. tauto.
Qed.

(** C3, as amended.  A redemption whose text is URL-shaped (it holds
    [http://], [https://] or [www.], case ignored) never becomes a search
    request, whatever else the text holds.  When it is a non-Spotify link
    that holds no [track/<id>] fragment either, it is discarded: the loop
    body prints the non-Spotify diagnostic and appends nothing.  When the
    parser finds an identifier in it, by any of its three forms, it is a
    direct request and nothing is printed: so it is with a link to a track
    of another site, by form (c). *)
Theorem url_shaped_is_discarded redemption (text : str) acc s :
  redemption !! "user_input" = Some (PyStr text) ->
  url_shaped text ->
  (forall acc' s', classify redemption acc s = (Ok acc', s') -> snd acc' = snd acc)
  /\ (~ spotify_track_reference text ->
      find_ref [lit "track/"] text = None ->
      classify redemption acc s
      = (Ok acc, traced s [Print (MSkippingNonSpotify (take 50 text))]))
  /\ (forall i user redeemed_at status,
        parse_ref text = Some i ->
        redemption !! "user_name" = Some user ->
        redemption !! "redeemed_at" = Some redeemed_at ->
        redemption !! "status" = Some status ->
        classify redemption acc s
        = (Ok (fst acc ++ [{| dr_track_id := i; dr_user := user;
                              dr_redeemed_at := redeemed_at; dr_status := status;
                              dr_original_input := PyStr text;
                              dr_method := lit "direct_url" |}],
               snd acc),
           s)).
Proof.
  intros T U. apply has_url_marker_spec in U.
  assert (None_case : parse_ref text = None ->
            classify redemption acc s
            = (Ok acc, traced s [Print (MSkippingNonSpotify (take 50 text))])).
  { intros P. unfold classify, bind, dict_get. rewrite T, parse_str, P. cbn.
    rewrite U. reflexivity. }
  split; [|split].
  - intros acc' s'. destruct (parse_ref text) as [i|] eqn:P.
    + destruct (parse_ref_alnum text i P) as [Ne _].
      destruct i as [|c i]; [congruence|].
      unfold classify, bind, dict_get, getitem. rewrite T, parse_str, P.
      destruct (redemption !! "user_name"); [|discriminate].
      destruct (redemption !! "redeemed_at"); [|discriminate].
      destruct (redemption !! "status"); [|discriminate].
      unfold ret. intros [= <- _]. reflexivity.
    + rewrite (None_case eq_refl). intros [= <- _]. reflexivity.
  - intros No Frag. apply None_case. unfold parse_ref, first_of.
    destruct (find_ref [_; _] text) eqn:A.
    { exfalso. apply No. left. rewrite A. discriminate. }
    destruct (find_ref [lit "spotify:track:"] text) eqn:B.
    { exfalso. apply No. right. rewrite B. discriminate. }
    exact Frag.
  - intros i user redeemed_at status P Hu Hr Hs.
    destruct (parse_ref_alnum text i P) as [Ne _].
    destruct i as [|c i]; [congruence|].
    unfold classify, bind, dict_get, getitem. rewrite T, parse_str, P, Hu, Hr, Hs.
    reflexivity.
Qed.

(** C9.  A redemption without a [user_input] field is read as the empty
    text and discarded as empty input: the loop body returns, prints the
    empty-input diagnostic for its requester and appends nothing. *)
Theorem missing_user_input_is_empty redemption (user : pyval) acc s :
  redemption !! "user_input" = None ->
  redemption !! "user_name" = Some user ->
  dict_get redemption "user_input" (PyStr []) = PyStr []
  /\ classify redemption acc s = (Ok acc, traced s [Print (MEmptyInput user)]).
Proof.
  intros T U. unfold classify, bind, getitem, dict_get. rewrite T. cbn. rewrite U.
  split; reflexivity.
Qed.

End Classifier.

(** ** The assembler *)

Lemma dict_keys_set (d : list (str * pyval)) (k : str) (v : pyval) :
  dict_keys (dict_set d k v)
  = if bool_decide (k ∈ dict_keys d) then dict_keys d else dict_keys d ++ [k].
Proof.
  unfold dict_keys. induction d as [|[k' v'] d IH]; cbn [dict_set map fst].
  - case_bool_decide as Hin; [apply elem_of_nil in Hin as [] | reflexivity].
  - destruct (decide (k' = k)) as [->|Hne].
    + rewrite (bool_decide_eq_true_2 (k = k)) by reflexivity.
      rewrite (bool_decide_eq_true_2 (k ∈ k :: map fst d)) by left. reflexivity.
    + rewrite (bool_decide_eq_false_2 (k' = k)) by exact Hne. cbn [map fst]. rewrite IH.
      destruct (decide (k ∈ map fst d)) as [Hin|Hnin].
      * rewrite (bool_decide_eq_true_2 _ Hin).
        rewrite (bool_decide_eq_true_2 (k ∈ k' :: map fst d)) by (right; exact Hin).
        reflexivity.
      * rewrite (bool_decide_eq_false_2 _ Hnin).
        rewrite (bool_decide_eq_false_2 (k ∈ k' :: map fst d)); [reflexivity|].
        intros [E|Hin]%elem_of_cons; [apply Hne; symmetry; exact E | exact (Hnin Hin)].
Qed.

(** Filling a dict key by key keeps the keys of the dict, then the keys not
    seen before, in the order they come. *)
Lemma dict_keys_fold (l : list str) (d : list (str * pyval)) :
  dict_keys (fold_left (fun d k => dict_set d k PyNone) l d)
  = dict_keys d ++ unseen (dict_keys d) l.
Proof.
  revert d. induction l as [|x l IH]; intros d; simpl.
  - rewrite app_nil_r. reflexivity.
  - rewrite IH, dict_keys_set.
    destruct (bool_decide (x ∈ dict_keys d)); [reflexivity|].
    rewrite <- app_assoc. reflexivity.
Qed.

Lemma dict_fromkeys_first_occurrences (l : list str) :
  dict_keys (dict_fromkeys l) = first_occurrences l.
Proof. unfold dict_fromkeys. rewrite dict_keys_fold. reflexivity. Qed.

Lemma unseen_elem (seen l : list str) (x : str) :
  x ∈ unseen seen l <-> x ∈ l /\ x ∉ seen.
Proof.
  revert seen. induction l as [|y l IH]; intros seen; simpl.
  - split; [intros []%elem_of_nil | intros [[]%elem_of_nil _]].
  - destruct (bool_decide_reflect (y ∈ seen)) as [Hin|Hnin].
    + rewrite IH, elem_of_cons. split; [tauto|].
      intros [[->|Hx] Hs]; [contradiction | tauto].
    + rewrite !elem_of_cons, IH, elem_of_app, list_elem_of_singleton. split.
      * intros [->|[Hx Hs]]; [tauto | tauto].
      * intros [[->|Hx] Hs]; [tauto|].
        destruct (decide (x = y)); [tauto | right; tauto].
Qed.

Lemma unseen_NoDup (seen l : list str) : NoDup (unseen seen l).
Proof.
  revert seen. induction l as [|y l IH]; intros seen; simpl.
  - constructor.
  - destruct (bool_decide (y ∈ seen)); [apply IH|].
    constructor; [|apply IH].
    rewrite unseen_elem, elem_of_app, list_elem_of_singleton. tauto.
Qed.

Lemma unseen_sublist (seen l : list str) : sublist (unseen seen l) l.
Proof.
  revert seen. induction l as [|y l IH]; intros seen; simpl.
  - constructor.
  - destruct (bool_decide (y ∈ seen)); [apply sublist_cons | apply sublist_skip]; apply IH.
Qed.

(** The first occurrence stays: a URI that was not seen before the point
    where it stands is kept there, after what is kept of the URIs before it. *)
Lemma unseen_app (seen l1 l2 : list str) :
  unseen seen (l1 ++ l2) = unseen seen l1 ++ unseen (seen ++ unseen seen l1) l2.
Proof.
  revert seen. induction l1 as [|y l1 IH]; intros seen; simpl.
  - rewrite app_nil_r. reflexivity.
  - destruct (bool_decide (y ∈ seen)); [apply IH|].
    simpl. rewrite IH, <- app_assoc. reflexivity.
Qed.

(** C4.  The assembled list is the URIs of the direct requests, in their
    order, followed by the URIs of the search results, in theirs, with only
    the first occurrence of each URI kept.  It has no duplicates, holds
    exactly the URIs of the input, in the input's order, and a URI stands
    after what is kept of the URIs before its first occurrence.  The
    sequence A, B, A, C gives A, B, C. *)
Theorem assemble_first_occurrences (song_requests : list direct_request)
    (search_results : list search_result) (A B C : str) :
  let uris := map direct_uri song_requests ++ map sr_track_uri search_results in
  assemble song_requests search_results = first_occurrences uris
  /\ NoDup (assemble song_requests search_results)
  /\ (forall u, u ∈ assemble song_requests search_results <-> u ∈ uris)
  /\ sublist (assemble song_requests search_results) uris
  /\ (forall before u after, uris = before ++ u :: after -> u ∉ before ->
        assemble song_requests search_results
        = first_occurrences before ++ u :: unseen (first_occurrences before ++ [u]) after)
  /\ (A <> B -> A <> C -> B <> C ->
        dict_keys (dict_fromkeys [A; B; A; C]) = [A; B; C]).
Proof.
  intros uris.
  assert (E : assemble song_requests search_results = first_occurrences uris).
  { unfold assemble. apply dict_fromkeys_first_occurrences. }
  rewrite E. unfold first_occurrences. repeat split.
  - apply unseen_NoDup.
  - intros [Hu _]%unseen_elem. exact Hu.
  - intros Hu. apply unseen_elem. split; [exact Hu | apply not_elem_of_nil].
  - apply unseen_sublist.
  - intros before u after -> Hu. rewrite unseen_app. f_equal. simpl.
    rewrite bool_decide_eq_false_2; [reflexivity|].
    rewrite unseen_elem. tauto.
  - intros AB AC BC. rewrite dict_fromkeys_first_occurrences. unfold first_occurrences.
    cbn [unseen app].
    rewrite (bool_decide_eq_false_2 (A ∈ [])) by apply not_elem_of_nil.
    rewrite (bool_decide_eq_false_2 (B ∈ [A])) by (rewrite list_elem_of_singleton; auto).
    rewrite (bool_decide_eq_true_2 (A ∈ [A; B])) by left.
    rewrite (bool_decide_eq_false_2 (C ∈ [A; B])); [reflexivity|].
    rewrite !elem_of_cons, elem_of_nil. intros [->|[->|[]]]; auto.
Qed.

(** [assemble_first_occurrences] at two direct requests and two search
    results, the first of which names a track already requested. *)
Lemma assemble_example :
  let a := lit "spotify:track:A" in
  let b := lit "spotify:track:B" in
  let c := lit "spotify:track:C" in
  dict_keys (dict_fromkeys [a; b; a; c]) = [a; b; c].
Proof.
  intros a b c.
  apply (assemble_first_occurrences [] [] a b c); discriminate.
Defined.

(** ** The playlist writer and the search loop *)

Section Playlist.
Context `{Env}.

(** The range of the batch loop cuts the list into slices of [step]. *)
Lemma slices_concat (step n : nat) (l : list str) :
  length l <= n * step ->
  concat (map (fun i => take step (drop i l)) (map (fun k => k * step) (seq 0 n))) = l.
Proof.
  revert l. induction n as [|n IH]; intros l L.
  - destruct l; [reflexivity | simpl in L; lia].
  - cbn [seq map concat]. rewrite Nat.mul_0_l, drop_0, <- seq_shift, !map_map.
    transitivity (take step l ++ drop step l); [|apply take_drop].
    f_equal. rewrite <- (IH (drop step l)) by (rewrite length_drop; lia).
    rewrite map_map. f_equal. apply map_ext. intros k.
    rewrite drop_drop. reflexivity.
Qed.

Lemma batches_concat (uris : list str) : concat (batches uris) = uris.
Proof.
  unfold batches, py_range. apply slices_concat.
  unfold batch_size. pose proof (Nat.div_mod_eq (length uris + 100 - 1) 100).
  pose proof (Nat.mod_upper_bound (length uris + 100 - 1) 100). lia.
Qed.

Lemma batches_lookup (uris : list str) (i : nat) (b : list str) :
  batches uris !! i = Some b ->
  b = take batch_size (drop (i * batch_size) uris)
  /\ i * batch_size < length uris.
Proof.
  unfold batches, py_range. rewrite !list_lookup_fmap.
  destruct (seq 0 _ !! i) as [k|] eqn:E; [|discriminate].
  apply lookup_seq in E as [-> L]. simpl. intros [= <-]. split; [reflexivity|].
  unfold batch_size in *. pose proof (Nat.div_mod_eq (length uris + 100 - 1) 100).
  pose proof (Nat.mod_upper_bound (length uris + 100 - 1) 100). lia.
Qed.

Lemma batches_length (uris : list str) :
  length (batches uris) = (length uris + batch_size - 1) / batch_size.
Proof. unfold batches, py_range. rewrite !length_map, length_seq. reflexivity. Qed.

(** No batch is empty or longer than the maximum; all but the last are full. *)
Lemma batches_sizes (uris : list str) (i : nat) (b : list str) :
  batches uris !! i = Some b ->
  1 <= length b <= batch_size
  /\ (S i < length (batches uris) -> length b = batch_size).
Proof.
  intros E. pose proof (lookup_lt_Some _ _ _ E) as Li.
  apply batches_lookup in E as [-> L].
  rewrite length_take, length_drop. rewrite batches_length in *.
  unfold batch_size in *. split; [lia|]. intros Ls.
  pose proof (Nat.div_mod_eq (length uris + 100 - 1) 100).
  pose proof (Nat.mod_upper_bound (length uris + 100 - 1) 100). lia.
Qed.

Lemma add_calls_app (a b : list event) : add_calls (a ++ b) = add_calls a ++ add_calls b.
Proof. apply omap_app. Qed.

Lemma search_calls_app (a b : list event) :
  search_calls (a ++ b) = search_calls a ++ search_calls b.
Proof. apply omap_app. Qed.

(** One turn of the batch loop: the call is made; when it returns the
    count grows by the batch, when it raises the batch joins the failed
    tracks and the count stays. *)
Lemma add_batch_step (playlist_id : str) (uris : list str) (i : nat)
    (acc : nat * list str) (s : state) :
  let batch := take batch_size (drop i uris) in
  exists diagnostic,
    add_batch playlist_id uris i acc s
    = (Ok (match fst (sp_playlist_add_items playlist_id batch (world s)) with
           | Ok _ => (fst acc + length batch, snd acc)
           | Raise _ => (fst acc, snd acc ++ batch)
           end),
       {| world := snd (sp_playlist_add_items playlist_id batch (world s));
          trace := trace s ++ [EvAddItems playlist_id batch; Print diagnostic] |}).
Proof.
  intros batch. unfold add_batch, try_except, bind, call, print, emit, ret.
  fold batch. destruct (sp_playlist_add_items playlist_id batch (world s)) as [[[]|e] w'];
    simpl; rewrite <- app_assoc; eauto.
Qed.

(** The batch loop over any indices: it returns; every slice is submitted,
    in order; the count grows by the batches whose call returned and the
    failed tracks by those whose call raised. *)
Lemma add_loop (playlist_id : str) (uris : list str) (idx : list nat)
    (acc : nat * list str) (s : state) :
  let bs := map (fun i => take batch_size (drop i uris)) idx in
  let oks := add_outcomes playlist_id bs (world s) in
  exists w' evs,
    for_each idx (add_batch playlist_id uris) acc s
    = (Ok (fst acc + length (select true oks bs), snd acc ++ select false oks bs),
       {| world := w'; trace := trace s ++ evs |})
    /\ add_calls evs = bs.
Proof.
  revert acc s. induction idx as [|i idx IH]; intros acc s; cbn zeta.
  - exists (world s), []. simpl. unfold ret. rewrite Nat.add_0_r, !app_nil_r.
    destruct s, acc; split; reflexivity.
  - cbn [for_each map add_outcomes]. unfold bind at 1.
    destruct (add_batch_step playlist_id uris i acc s) as [m ->].
    set (batch := take batch_size (drop i uris)).
    destruct (sp_playlist_add_items playlist_id batch (world s)) as [[[]|e] w1];
      cbn [fst snd];
      match goal with |- context [for_each idx _ ?a ?t] =>
        destruct (IH a t) as (w' & evs & -> & C) end;
      cbn [world trace fst snd select Bool.eqb] in *;
      exists w', (EvAddItems playlist_id batch :: Print m :: evs);
      (split; [| cbn; f_equal; exact C]);
      rewrite <- !app_assoc, ?length_app; cbn [app];
      first [reflexivity | rewrite Nat.add_assoc; reflexivity].
Qed.

Lemma add_outcomes_length (playlist_id : str) (bs : list (list str)) (w : World) :
  length (add_outcomes playlist_id bs w) = length bs.
Proof.
  revert w. induction bs as [|b bs IH]; intros w; simpl; [reflexivity|].
  destruct (sp_playlist_add_items playlist_id b w) as [[[]|e] w']; simpl; rewrite IH;
    reflexivity.
Qed.

(** Every URI of the batches is in exactly one of the two selections. *)
Lemma select_partition (oks : list bool) (bs : list (list str)) :
  length oks = length bs ->
  select true oks bs ++ select false oks bs ≡ₚ concat bs.
Proof.
  revert bs. induction oks as [|ok oks IH]; intros [|b bs] L; try discriminate; simpl.
  - reflexivity.
  - injection L as L. specialize (IH bs L). destruct ok; simpl.
    + rewrite <- app_assoc. apply Permutation_app_head, IH.
    + rewrite (Permutation_app_comm (select true oks bs)), <- app_assoc.
      apply Permutation_app_head. rewrite Permutation_app_comm. exact IH.
Qed.

(** C5.  The writer cuts the URI sequence into consecutive batches and
    submits them in order: the batches put end to end are the sequence, none
    is empty or longer than 100, and all but the last hold 100.  The loop
    returns; the added count is the size of the batches whose call returned
    and the failed tracks are the batches whose call raised, so that every
    URI is counted once, as added or as failed, and added plus failed is the
    length of the sequence.  150 URIs are submitted as a batch of 100 and a
    batch of 50. *)
Theorem writer_batches (playlist_id : str) (uris : list str) (s : state) :
  let bs := batches uris in
  let oks := add_outcomes playlist_id bs (world s) in
  let r := add_in_batches playlist_id uris s in
  fst r = Ok (length (select true oks bs), select false oks bs)
  /\ add_calls (trace (snd r)) = add_calls (trace s) ++ bs
  /\ concat bs = uris
  /\ (forall i b, bs !! i = Some b ->
        1 <= length b <= 100 /\ (S i < length bs -> length b = 100))
  /\ select true oks bs ++ select false oks bs ≡ₚ uris
  /\ length (select true oks bs) + length (select false oks bs) = length uris
  /\ (length uris = 150 -> map length bs = [100; 50]).
Proof.
  intros bs oks r.
  destruct (add_loop playlist_id uris (py_range (length uris) batch_size) (0, []) s)
    as (w' & evs & E & C).
  fold (add_in_batches playlist_id uris s) in E. fold r in E.
  fold (batches uris) in E, C. fold bs in E, C. fold oks in E.
  assert (P : select true oks bs ++ select false oks bs ≡ₚ uris).
  { transitivity (concat bs); [apply select_partition, add_outcomes_length|].
    unfold bs. rewrite batches_concat. reflexivity. }
  rewrite E. cbn [fst snd trace].
  split; [reflexivity|].
  split; [rewrite add_calls_app, C; reflexivity|].
  split; [apply batches_concat|].
  split; [intros i b Hb; apply (batches_sizes uris i b Hb)|].
  split; [exact P|].
  split; [rewrite <- length_app; apply Permutation_length, P|].
  intros L. unfold bs, batches, py_range, batch_size. rewrite L.
  change ((150 + 100 - 1) / 100) with 2. cbn [seq map Nat.mul Nat.add].
  rewrite !length_take, !length_drop, L. reflexivity.
Qed.

(** One turn of the search loop: the search is made; the results grow by
    what the response gives, which is nothing when the call raises, finds
    nothing or names no artist. *)
Lemma search_one_step (req : search_request) (acc : list search_result) (s : state) :
  let out := sp_search (sq_search_query req) (world s) in
  exists diagnostic,
    search_one req acc s
    = (Ok (acc ++ result_of req (fst out)),
       {| world := snd out;
          trace := trace s ++ [EvSearch (sq_search_query req); Print diagnostic] |}).
Proof.
  intros out. unfold search_one, try_except, bind, call, print, emit, ret, raise.
  subst out. destruct (sp_search (sq_search_query req) (world s)) as [[[|t ts]|e] w'];
    [| destruct (tr_artists t) as [|a arts] eqn:A | ]; simpl; rewrite ?A; simpl;
    rewrite <- ?app_assoc, ?app_nil_r; eauto.
Qed.

(** The search loop: it returns; every query is searched, in order; the
    results are those of the searches that found a track. *)
Lemma search_loop (reqs : list search_request) (acc : list search_result) (s : state) :
  exists w' evs,
    for_each reqs search_one acc s
    = (Ok (acc ++ search_hits reqs (world s)), {| world := w'; trace := trace s ++ evs |})
    /\ search_calls evs = map sq_search_query reqs.
Proof.
  revert acc s. induction reqs as [|req reqs IH]; intros acc s.
  - exists (world s), []. simpl. unfold ret. rewrite !app_nil_r. destruct s; split; reflexivity.
  - cbn [for_each map search_hits]. unfold bind at 1.
    destruct (search_one_step req acc s) as [m ->].
    destruct (sp_search (sq_search_query req) (world s)) as [response w1]. cbn [fst snd].
    match goal with |- context [for_each reqs _ ?a ?t] =>
      destruct (IH a t) as (w' & evs & -> & C) end.
    cbn [world trace] in *.
    exists w', (EvSearch (sq_search_query req) :: Print m :: evs).
    rewrite <- !app_assoc. split; [reflexivity|]. cbn. f_equal. exact C.
Qed.

(** C6.  A failure of one item stays with that item.  The search loop
    returns whatever the searches do, and searches every query, in order; a
    query whose search raises or finds nothing adds no result.  The batch
    loop returns whatever the calls do, and submits every batch, in order; a
    batch whose call raises joins the failed tracks and leaves the added
    count as it was. *)
Theorem failures_stay_local (search_requests : list search_request)
    (playlist_id : str) (uris : list str) (s : state) :
  (let r := resolve_searches search_requests s in
   fst r = Ok (search_hits search_requests (world s))
   /\ search_calls (trace (snd r))
      = search_calls (trace s) ++ map sq_search_query search_requests)
  /\ (forall req acc s0,
        let response := fst (sp_search (sq_search_query req) (world s0)) in
        (exists e, response = Raise e) \/ response = Ok [] ->
        fst (search_one req acc s0) = Ok acc
        /\ search_calls (trace (snd (search_one req acc s0)))
           = search_calls (trace s0) ++ [sq_search_query req])
  /\ (let r := add_in_batches playlist_id uris s in
      (exists added failed, fst r = Ok (added, failed))
      /\ add_calls (trace (snd r)) = add_calls (trace s) ++ batches uris)
  /\ (forall i acc s0 e,
        let batch := take batch_size (drop i uris) in
        fst (sp_playlist_add_items playlist_id batch (world s0)) = Raise e ->
        fst (add_batch playlist_id uris i acc s0) = Ok (fst acc, snd acc ++ batch)
        /\ add_calls (trace (snd (add_batch playlist_id uris i acc s0)))
           = add_calls (trace s0) ++ [batch]).
Proof.
  split; [|split; [|split]].
  - destruct (search_loop search_requests [] s) as (w' & evs & E & C).
    unfold resolve_searches. rewrite E. cbn [fst snd trace].
    rewrite search_calls_app, C. split; reflexivity.
  - intros req acc s0 response Miss.
    destruct (search_one_step req acc s0) as [m ->]. cbn [fst snd trace].
    rewrite search_calls_app. fold response. split; [|reflexivity].
    destruct Miss as [[e ->] | ->]; simpl; rewrite app_nil_r; reflexivity.
  - destruct (add_loop playlist_id uris (py_range (length uris) batch_size) (0, []) s)
      as (w' & evs & E & C).
    unfold add_in_batches. rewrite E. cbn [fst snd trace].
    rewrite add_calls_app, C. split; [eauto | reflexivity].
  - intros i acc s0 e batch Fail.
    destruct (add_batch_step playlist_id uris i acc s0) as [m ->]. cbn [fst snd trace].
    fold batch. rewrite Fail, add_calls_app. split; reflexivity.
Qed.

End Playlist.

(** ** The authorization wait *)

Section OAuth.
Context `{Env}.

Lemma sleeps_app (a b : list event) : sleeps (a ++ b) = sleeps a + sleeps b.
Proof.
  induction a as [|ev a IH]; simpl; [reflexivity|].
  destruct ev; simpl; rewrite IH; reflexivity.
Qed.

Lemma sleeps_replicate (k : nat) : sleeps (replicate k EvSleep) = k.
Proof. induction k as [|k IH]; simpl; [reflexivity | rewrite IH; reflexivity]. Qed.

Lemma after_sleeps_S (k : nat) (self : TwitchOAuth) (w : World) :
  after_sleeps (S k) self w
  = after_sleeps k (fst (sleep1 self w)) (snd (sleep1 self w)).
Proof. simpl. destruct (sleep1 self w). reflexivity. Qed.

(** The wait loop: it returns after [k] sleeps, where [k] is the first poll
    that sees a token, or the bound when no poll does. *)
Lemma wait_for_token_polls (n : nat) (self : TwitchOAuth) (s : state) :
  exists k,
    k <= n
    /\ wait_for_token n self s
       = (Ok (fst (after_sleeps k self (world s))),
          {| world := snd (after_sleeps k self (world s));
             trace := trace s ++ replicate k EvSleep |})
    /\ (forall j, 1 <= j < k -> truthy (token_after j self (world s)) = false)
    /\ (k < n -> 1 <= k /\ truthy (token_after k self (world s)) = true).
Proof.
  revert self s. induction n as [|n IH]; intros self s.
  - exists 0. simpl. unfold ret. rewrite app_nil_r. destruct s.
    repeat split; try reflexivity; lia.
  - cbn [wait_for_token]. unfold bind at 1, call_total, call.
    destruct (sleep1 self (world s)) as [self1 w1] eqn:E1.
    destruct (truthy (access_token self1)) eqn:T.
    + exists 1. unfold ret, token_after. cbn [after_sleeps replicate]. rewrite E1.
      cbn [fst snd]. repeat split; try reflexivity; try lia. exact T.
    + destruct (IH self1 {| world := w1; trace := trace s ++ [EvSleep] |})
        as (k & Lk & -> & Before & At).
      exists (S k). unfold token_after in *. cbn [replicate world trace] in *.
      rewrite after_sleeps_S, E1. cbn [fst snd]. rewrite <- app_assoc. cbn [app].
      split; [lia|]. split; [reflexivity|]. split.
      * intros [|j] Hj; [lia|]. rewrite after_sleeps_S, E1. cbn [fst snd].
        destruct j as [|j]; [exact T | apply Before; lia].
      * intros Lt. split; [lia|]. apply At. lia.
Qed.

(** The flow, once the listener is up and the browser open: [k] sleeps,
    the cleanup, and the verdict read from the object after the cleanup. *)
Lemma start_oauth_flow_runs (self self0 : TwitchOAuth) (s : state) (w0 w1 : World) :
  oauth_listen self (world s) = (Ok self0, w0) ->
  webbrowser_open w0 = (Ok tt, w1) ->
  exists k,
    k <= timeout
    /\ (forall j, 1 <= j < k -> truthy (token_after j self0 w1) = false)
    /\ (k < timeout -> 1 <= k /\ truthy (token_after k self0 w1) = true)
    /\ let waited := after_sleeps k self0 w1 in
       let cleaned := runner_cleanup (fst waited) (snd waited) in
       let opened := [EvOAuthListen; Print MStartingOAuth; EvOpenBrowser] in
       start_oauth_flow self s
       = if truthy (access_token (fst cleaned)) then
           (Ok (fst cleaned, true),
            {| world := snd cleaned;
               trace := trace s ++ opened ++ replicate k EvSleep ++ [EvCleanup] |})
         else
           (Ok (fst cleaned, false),
            {| world := snd cleaned;
               trace := trace s ++ opened ++ replicate k EvSleep
                        ++ [EvCleanup; Print MOAuthTimeout] |}).
Proof.
  intros L B. unfold start_oauth_flow, bind, call_total, call, print, emit, ret.
  rewrite L. cbn [world trace]. rewrite B.
  match goal with |- context [wait_for_token timeout self0 ?t] =>
    destruct (wait_for_token_polls timeout self0 t) as (k & Lk & -> & Before & At) end.
  cbn [world trace] in *. exists k. split; [exact Lk|]. split; [exact Before|].
  split; [exact At|]. cbn zeta.
  destruct (runner_cleanup _ _) as [self2 w2]. cbn [fst snd world trace].
  destruct (truthy (access_token self2)); cbn [negb world trace];
    repeat rewrite <- app_assoc; reflexivity.
Qed.

(** C8, as amended.  The authorization wait is a bounded poll: the loop
    returns after at most 120 sleeps, at the first poll that sees a token
    when one does, and after the 120th otherwise; the whole flow never
    sleeps more than 120 times.  When no poll sees a token, the flow sleeps
    120 times, cleans up and returns, waiting no further; what it returns
    is read from the object after the cleanup (line 154): failure, with
    the timeout reported, when no token is there by then, and success,
    with nothing reported, when the handler stored one during the
    cleanup. *)
Theorem oauth_wait_is_bounded (self : TwitchOAuth) (s : state) :
  (exists k,
     k <= 120
     /\ wait_for_token timeout self s
        = (Ok (fst (after_sleeps k self (world s))),
           {| world := snd (after_sleeps k self (world s));
              trace := trace s ++ replicate k EvSleep |})
     /\ (forall j, 1 <= j < k -> truthy (token_after j self (world s)) = false)
     /\ (k < 120 -> 1 <= k /\ truthy (token_after k self (world s)) = true))
  /\ sleeps (trace (snd (start_oauth_flow self s))) <= sleeps (trace s) + 120
  /\ (forall self0 w0 w1,
        oauth_listen self (world s) = (Ok self0, w0) ->
        webbrowser_open w0 = (Ok tt, w1) ->
        (forall j, 1 <= j <= 120 -> truthy (token_after j self0 w1) = false) ->
        let waited := after_sleeps 120 self0 w1 in
        let cleaned := runner_cleanup (fst waited) (snd waited) in
        let success := truthy (access_token (fst cleaned)) in
        start_oauth_flow self s
        = (Ok (fst cleaned, success),
           {| world := snd cleaned;
              trace := trace s ++ [EvOAuthListen; Print MStartingOAuth; EvOpenBrowser]
                       ++ replicate 120 EvSleep
                       ++ EvCleanup :: (if success then [] else [Print MOAuthTimeout]) |})).
Proof.
  split; [apply (wait_for_token_polls timeout self s)|]. split.
  - destruct (oauth_listen self (world s)) as [[self0|e] w0] eqn:L.
    + destruct (webbrowser_open w0) as [[[]|e] w1] eqn:B.
      * destruct (start_oauth_flow_runs self self0 s w0 w1 L B) as (k & Lk & _ & _ & E).
        cbn zeta in E. rewrite E. unfold timeout in Lk.
        destruct (truthy _); cbn [snd trace];
          rewrite !sleeps_app, sleeps_replicate; simpl; lia.
      * unfold start_oauth_flow, bind, call_total, call, print, emit, ret.
        rewrite L. cbn [world trace]. rewrite B. cbn [snd trace].
        rewrite !sleeps_app. simpl. lia.
    + unfold start_oauth_flow, bind, call_total, call. rewrite L. cbn [snd trace].
      rewrite sleeps_app. simpl. lia.
  - intros self0 w0 w1 L B No waited cleaned success.
    destruct (start_oauth_flow_runs self self0 s w0 w1 L B) as (k & Lk & _ & At & E).
    unfold timeout in *. assert (k = 120) as ->.
    { destruct (decide (k < 120)) as [Lt|]; [|lia].
      destruct (At Lt) as [Pos T]. rewrite No in T by lia. discriminate. }
    cbn zeta in E. rewrite E. fold waited. fold cleaned. fold success.
    destruct success; reflexivity.
Qed.

End OAuth.

(** ** The run *)

Section Run.
Context `{Env}.

Lemma emits_ret {A : Type} (P : event -> Prop) (Q : A -> Prop) (a : A) :
  Q a -> emits P Q (ret a).
Proof.
  intros Qa s. exists []. simpl. rewrite app_nil_r.
  split; [reflexivity|]. split; [constructor|]. intros a' [= <-]. exact Qa.
Qed.

Lemma emits_raise {A : Type} (P : event -> Prop) (Q : A -> Prop) (e : exn) :
  emits P Q (raise e).
Proof.
  intros s. exists []. simpl. rewrite app_nil_r.
  split; [reflexivity|]. split; [constructor|]. intros a' [=].
Qed.

Lemma emits_pure {A : Type} (P : event -> Prop) (Q : A -> Prop) (f : state -> result A) :
  (forall s a, f s = Ok a -> Q a) -> emits P Q (fun s => (f s, s)).
Proof.
  intros Qf s. exists []. simpl. rewrite app_nil_r.
  split; [reflexivity|]. split; [constructor|]. apply Qf.
Qed.

Lemma emits_call {A : Type} (P : event -> Prop) (ev : event)
    (f : World -> result A * World) :
  P ev -> emits P anything (call ev f).
Proof.
  intros Pev s. exists [ev]. unfold call. destruct (f (world s)) as [r w]. simpl.
  split; [reflexivity|]. split; [repeat constructor; exact Pev|]. intros; exact I.
Qed.

Lemma emits_call_total {A : Type} (P : event -> Prop) (ev : event) (f : World -> A * World) :
  P ev -> emits P anything (call_total ev f).
Proof. apply emits_call. Qed.

Lemma emits_print (P : event -> Prop) (m : msg) :
  P (Print m) -> emits P anything (print m).
Proof.
  intros Pev s. exists [Print m]. simpl.
  split; [reflexivity|]. split; [repeat constructor; exact Pev|]. intros; exact I.
Qed.

Lemma emits_bind {A B : Type} (P : event -> Prop) (Q : A -> Prop) (R : B -> Prop)
    (m : M A) (k : A -> M B) :
  emits P Q m -> (forall a, Q a -> emits P R (k a)) -> emits P R (bind m k).
Proof.
  intros Hm Hk s. destruct (Hm s) as (evs & Et & Pe & Qa). unfold bind.
  destruct (m s) as [[a|e] s1]; simpl in *.
  - destruct (Hk a (Qa a eq_refl) s1) as (evs' & Et' & Pe' & Ra).
    exists (evs ++ evs'). rewrite Et', Et, app_assoc.
    split; [reflexivity|]. split; [apply Forall_app; auto | exact Ra].
  - exists evs. split; [exact Et|]. split; [exact Pe|]. intros b [=].
Qed.

Lemma emits_weaken {A : Type} (P : event -> Prop) (Q Q' : A -> Prop) (m : M A) :
  (forall a, Q a -> Q' a) -> emits P Q m -> emits P Q' m.
Proof.
  intros W Hm s. destruct (Hm s) as (evs & Et & Pe & Qa).
  exists evs. split; [exact Et|]. split; [exact Pe|]. intros a E. apply W, Qa, E.
Qed.

Lemma emits_events {A : Type} (P P' : event -> Prop) (Q : A -> Prop) (m : M A) :
  (forall ev, P ev -> P' ev) -> emits P Q m -> emits P' Q m.
Proof.
  intros W Hm s. destruct (Hm s) as (evs & Et & Pe & Qa).
  exists evs. split; [exact Et|]. split; [|exact Qa].
  eapply Forall_impl; [exact Pe | exact W].
Qed.

Lemma emits_try {A : Type} (P : event -> Prop) (Q : A -> Prop)
    (body : M A) (handler : exn -> M A) :
  emits P Q body -> (forall e, emits P Q (handler e)) -> emits P Q (try_except body handler).
Proof.
  intros Hb Hh s. destruct (Hb s) as (evs & Et & Pe & Qa). unfold try_except.
  destruct (body s) as [[a|e] s1]; simpl in *.
  - exists evs. auto.
  - destruct (Hh e s1) as (evs' & Et' & Pe' & Ra).
    exists (evs ++ evs'). rewrite Et', Et, app_assoc.
    split; [reflexivity|]. split; [apply Forall_app; auto | exact Ra].
Qed.

Lemma emits_for_each {A S : Type} (P : event -> Prop) (l : list A)
    (body : A -> S -> M S) (st : S) :
  (forall x st', emits P anything (body x st')) ->
  emits P anything (for_each l body st).
Proof.
  intros Hb. revert st. induction l as [|x l IH]; intros st; simpl.
  - apply emits_ret. exact I.
  - eapply emits_bind; [apply Hb | intros; apply IH].
Qed.

Lemma emits_getitem (P : event -> Prop) (d : json) (k : string) :
  emits P anything (getitem d k).
Proof.
  unfold getitem. destruct (d !! k); [apply emits_ret; exact I | apply emits_raise].
Qed.

Lemma emits_py_lower (P : event -> Prop) (v : pyval) : emits P anything (py_lower v).
Proof.
  unfold py_lower. destruct v; try apply emits_raise. apply emits_ret. exact I.
Qed.

End Run.

(** Taking a computation apart, one construct at a time. *)
Ltac emits_step :=
  lazymatch goal with
  | |- emits _ _ (bind _ _) => eapply emits_bind with (Q := anything); [|intros ? _]
  | |- emits _ _ (ret _) => apply emits_ret
  | |- emits _ _ (raise _) => apply emits_raise
  | |- emits _ _ (print _) => apply emits_print
  | |- emits _ _ (call_total _ _) => apply emits_call_total
  | |- emits _ _ (call _ _) => apply emits_call
  | |- emits _ _ (getitem _ _) => apply emits_getitem
  | |- emits _ _ (py_lower _) => apply emits_py_lower
  | |- emits _ _ (try_except _ _) => apply emits_try; [|intros ?]
  | |- emits _ _ (for_each _ _ _) => apply emits_for_each; intros ? ?
  | |- emits _ _ (if ?b then _ else _) => destruct b
  | |- emits _ _ (match ?x with _ => _ end) => destruct x
  | |- emits _ _ (fun s => (_, s)) => apply emits_pure; intros ? ? ?
  end.

Ltac emits_auto :=
  repeat emits_step;
  try exact I;
  try (split; [reflexivity | discriminate]);
  try discriminate;
  try (eexists; eexists; reflexivity).

Section Run_facts.
Context `{Env}.

Lemma wait_for_token_emits (n : nat) (self : TwitchOAuth) :
  emits twitch_side anything (wait_for_token n self).
Proof. revert self. induction n as [|n IH]; intros self; simpl; emits_auto. apply IH. Qed.

Lemma start_oauth_flow_emits (self : TwitchOAuth) :
  emits twitch_side anything (start_oauth_flow self).
Proof. unfold start_oauth_flow. emits_auto. apply wait_for_token_emits. Qed.

Lemma find_reward_emits (rewards : list json) :
  emits twitch_side anything (find_reward rewards).
Proof. induction rewards as [|r rs IH]; simpl; emits_auto. apply IH. Qed.

Lemma titles_emits (rewards : list json) : emits twitch_side anything (titles rewards).
Proof. induction rewards as [|r rs IH]; simpl; emits_auto. apply IH. Qed.

Lemma classify_emits (redemption : json) (acc : list direct_request * list search_request) :
  emits twitch_side anything (classify redemption acc).
Proof. unfold classify. emits_auto. Qed.

(** The Twitch side calls Spotify nowhere, and what it returns is a pair. *)
Lemma get_song_requests_emits (login : str) :
  emits twitch_side is_pair (get_song_requests_from_twitch login).
Proof.
  unfold get_song_requests_from_twitch, classify_all. emits_auto;
    first [ apply start_oauth_flow_emits | apply find_reward_emits
          | apply titles_emits | apply classify_emits ].
Qed.

Lemma create_spotify_playlist_emits (song_requests : list direct_request)
    (search_requests : list search_request) (broadcaster_name : str) :
  emits not_failed_fetch anything
        (create_spotify_playlist song_requests search_requests broadcaster_name).
Proof.
  unfold create_spotify_playlist, resolve_searches, search_one, add_in_batches, add_batch.
  emits_auto.
Qed.

(** [main] never reports a failed fetch. *)
Lemma main_emits : emits not_failed_fetch anything main.
Proof.
  unfold main. eapply emits_bind with (Q := anything); [emits_auto | intros _ _].
  eapply emits_bind with (Q := anything); [emits_auto | intros line _].
  destruct (strip line) as [|c login]; [emits_auto|].
  eapply emits_bind with (Q := is_pair).
  - eapply emits_events; [|apply get_song_requests_emits]. intros ev [_ N]. exact N.
  - intros r (a & b & ->). cbn [fetched_truthy negb].
    destruct a, b; emits_auto; apply create_spotify_playlist_emits.
Qed.

Lemma spotify_calls_none (evs : list event) :
  Forall twitch_side evs -> spotify_calls evs = [].
Proof.
  induction 1 as [|ev evs [Q _] _ IH]; [reflexivity|].
  unfold spotify_calls in *. simpl. rewrite Q. exact IH.
Qed.

(** A run whose fetch returns no request at all: [main] reports that no
    valid request was found and returns, and no call to Spotify was made. *)
Lemma main_zero_requests (w w1 : World) (line login : str) (s2 : state) :
  input w = (line, w1) ->
  strip line = login ->
  login <> [] ->
  get_song_requests_from_twitch login {| world := w1; trace := [Print MBanner; EvInput] |}
  = (Ok (FPair [] []), s2) ->
  run main w = (Ok tt, traced s2 [Print MNoValidRequests])
  /\ spotify_calls (trace (snd (run main w))) = [].
Proof.
  intros I S N G.
  assert (E : run main w = (Ok tt, traced s2 [Print MNoValidRequests])).
  { unfold run, main, bind, call_total, call, print, emit. cbn [world trace app].
    rewrite I, S. destruct login as [|c login]; [contradiction|].
    rewrite G. reflexivity. }
  split; [exact E|]. rewrite E. cbn [snd traced trace].
  destruct (get_song_requests_emits login {| world := w1; trace := [Print MBanner; EvInput] |})
    as (evs & Et & Pe & _).
  rewrite G in Et. cbn [snd trace] in Et. rewrite Et.
  unfold spotify_calls. rewrite !List.filter_app.
  fold (spotify_calls evs). rewrite (spotify_calls_none evs Pe). reflexivity.
Qed.

(** A failed authorization ends the fetch with nothing. *)
Lemma get_song_requests_auth_failure (login : str) (s s2 : state) (o : TwitchOAuth) :
  start_oauth_flow new_oauth (traced s [Print (MFetching login)]) = (Ok (o, false), s2) ->
  get_song_requests_from_twitch login s
  = (Ok (FPair [] []), traced s2 [Print MFailedToAuthenticate]).
Proof.
  intros F. unfold get_song_requests_from_twitch, bind at 1, print, emit.
  unfold bind at 1. unfold traced in F. rewrite F. reflexivity.
Qed.

(** C7.  A run-level failure creates no playlist.  When the authorization
    flow fails, and whenever the fetch yields no direct and no search
    request, [main] reports it on the console and returns before any call to
    Spotify: neither the playlist creation nor any other. *)
Theorem fatal_failures_create_no_playlist (w w1 : World) (line login : str) :
  input w = (line, w1) ->
  strip line = login ->
  login <> [] ->
  let s0 := {| world := w1; trace := [Print MBanner; EvInput] |} in
  (forall o s2,
     start_oauth_flow new_oauth (traced s0 [Print (MFetching login)]) = (Ok (o, false), s2) ->
     run main w
     = (Ok tt, traced s2 [Print MFailedToAuthenticate; Print MNoValidRequests])
     /\ spotify_calls (trace (snd (run main w))) = [])
  /\ (forall s2,
        get_song_requests_from_twitch login s0 = (Ok (FPair [] []), s2) ->
        run main w = (Ok tt, traced s2 [Print MNoValidRequests])
        /\ spotify_calls (trace (snd (run main w))) = []).
Proof.
  intros I S N s0. split.
  - intros o s2 F. apply get_song_requests_auth_failure in F.
    destruct (main_zero_requests w w1 line login _ I S N F) as [E C].
    split; [|exact C]. rewrite E. unfold traced. cbn [world trace].
    rewrite <- app_assoc. reflexivity.
  - intros s2 G. exact (main_zero_requests w w1 line login s2 I S N G).
Qed.

Lemma find_reward_none (rewards : list json) (s : state) :
  Forall other_title rewards -> find_reward rewards s = (Ok None, s).
Proof.
  induction 1 as [|r rs (t & T & N) _ IH]; [reflexivity|].
  cbn [find_reward]. unfold bind, getitem. rewrite T. cbn.
  rewrite bool_decide_eq_false_2 by exact N. exact IH.
Qed.

Lemma titles_all (rewards : list json) (s : state) :
  Forall other_title rewards ->
  titles rewards s = (Ok (omap (fun r : json => r !! "title") rewards), s).
Proof.
  induction 1 as [|r rs (t & T & N) _ IH]; [reflexivity|].
  cbn [titles omap list_omap]. unfold bind, getitem. rewrite T. cbn.
  unfold bind in IH. rewrite IH. reflexivity.
Qed.

(** An unknown broadcaster ends the fetch with nothing. *)
Lemma get_song_requests_no_broadcaster (login : str) (s s2 : state) (o : TwitchOAuth)
    (broadcaster_id : pyval) (w3 : World) :
  start_oauth_flow new_oauth (traced s [Print (MFetching login)]) = (Ok (o, true), s2) ->
  get_broadcaster_id (access_token o) login (world s2) = (Ok broadcaster_id, w3) ->
  truthy broadcaster_id = false ->
  get_song_requests_from_twitch login s
  = (Ok (FPair [] []),
     {| world := w3;
        trace := trace s2 ++ [EvGetBroadcasterId login; Print (MNoBroadcaster login)] |}).
Proof.
  intros F B T. unfold get_song_requests_from_twitch, bind at 1, print, emit.
  unfold bind at 1. unfold traced in F. rewrite F. cbn [snd fst negb].
  unfold bind at 1, call. rewrite B, T. cbn. rewrite <- app_assoc. reflexivity.
Qed.

(** A channel without the song request reward ends the fetch with nothing. *)
Lemma get_song_requests_no_reward (login : str) (s s2 : state) (o : TwitchOAuth)
    (broadcaster_id : pyval) (w3 w4 : World) (rewards : list json) :
  start_oauth_flow new_oauth (traced s [Print (MFetching login)]) = (Ok (o, true), s2) ->
  get_broadcaster_id (access_token o) login (world s2) = (Ok broadcaster_id, w3) ->
  truthy broadcaster_id = true ->
  get_custom_rewards (access_token o) broadcaster_id w3 = (Ok rewards, w4) ->
  Forall other_title rewards ->
  get_song_requests_from_twitch login s
  = (Ok (FPair [] []),
     {| world := w4;
        trace := trace s2
                 ++ [EvGetBroadcasterId login; Print (MFoundBroadcaster broadcaster_id);
                     EvGetCustomRewards broadcaster_id; Print (MFoundRewards (length rewards));
                     Print MNoReward;
                     Print (MAvailableRewards (omap (fun r : json => r !! "title") rewards))] |}).
Proof.
  intros F B T R O. unfold get_song_requests_from_twitch, bind at 1, print, emit.
  unfold bind at 1. unfold traced in F. rewrite F. cbn [snd fst negb].
  unfold bind at 1, call. rewrite B, T. cbn [negb world trace].
  unfold bind at 1. unfold bind at 1. cbn [world trace]. rewrite R.
  unfold bind at 1. unfold bind at 1. rewrite (find_reward_none rewards _ O).
  unfold bind at 1. unfold bind at 1. rewrite (titles_all rewards _ O).
  cbn. repeat rewrite <- app_assoc. reflexivity.
Qed.

(** C10.  The fetch-failure branch of [main] is dead.  Whenever
    [get_song_requests_from_twitch] returns, it returns a pair of lists,
    which is true as a condition, so [main] never prints the failed-fetch
    report.  On a failed authorization, an unknown broadcaster and a missing
    reward the pair is two empty lists, and with two empty lists [main]
    leaves through the no-valid-requests report, without a call to Spotify. *)
Theorem fetch_failure_branch_is_dead :
  (forall login s r s',
     get_song_requests_from_twitch login s = (Ok r, s') ->
     (exists song_requests search_requests, r = FPair song_requests search_requests)
     /\ fetched_truthy r = true)
  /\ (forall w, Print MFailedToFetch ∉ trace (snd (run main w)))
  /\ (forall login s o s2,
        start_oauth_flow new_oauth (traced s [Print (MFetching login)]) = (Ok (o, false), s2) ->
        fst (get_song_requests_from_twitch login s) = Ok (FPair [] []))
  /\ (forall login s o s2 broadcaster_id w3,
        start_oauth_flow new_oauth (traced s [Print (MFetching login)]) = (Ok (o, true), s2) ->
        get_broadcaster_id (access_token o) login (world s2) = (Ok broadcaster_id, w3) ->
        truthy broadcaster_id = false ->
        fst (get_song_requests_from_twitch login s) = Ok (FPair [] []))
  /\ (forall login s o s2 broadcaster_id w3 rewards w4,
        start_oauth_flow new_oauth (traced s [Print (MFetching login)]) = (Ok (o, true), s2) ->
        get_broadcaster_id (access_token o) login (world s2) = (Ok broadcaster_id, w3) ->
        truthy broadcaster_id = true ->
        get_custom_rewards (access_token o) broadcaster_id w3 = (Ok rewards, w4) ->
        Forall other_title rewards ->
        fst (get_song_requests_from_twitch login s) = Ok (FPair [] []))
  /\ (forall w w1 line login s2,
        input w = (line, w1) ->
        strip line = login ->
        login <> [] ->
        get_song_requests_from_twitch login {| world := w1; trace := [Print MBanner; EvInput] |}
        = (Ok (FPair [] []), s2) ->
        run main w = (Ok tt, traced s2 [Print MNoValidRequests])
        /\ spotify_calls (trace (snd (run main w))) = []).
Proof.
  split; [|split; [|split; [|split; [|split]]]].
  - intros login s r s' G.
    destruct (get_song_requests_emits login s) as (_ & _ & _ & Q).
    rewrite G in Q. destruct (Q r eq_refl) as (a & b & ->). split; [eauto | reflexivity].
  - intros w In. destruct (main_emits {| world := w; trace := [] |}) as (evs & Et & Pe & _).
    unfold run in In. rewrite Et in In. cbn [trace app] in In.
    rewrite Forall_forall in Pe. exact (Pe _ In eq_refl).
  - intros login s o s2 F.
    rewrite (get_song_requests_auth_failure login s s2 o F). reflexivity.
  - intros login s o s2 b w3 F B T.
    rewrite (get_song_requests_no_broadcaster login s s2 o b w3 F B T). reflexivity.
  - intros login s o s2 b w3 rewards w4 F B T R O.
    rewrite (get_song_requests_no_reward login s s2 o b w3 w4 rewards F B T R O). reflexivity.
  - intros w w1 line login s2. apply main_zero_requests.
Qed.

End Run_facts.

(** ** The properties at work *)

Example parse_web :
  parse_spotify_url (PyStr (lit "https://open.spotify.com/track/abc123?si=1"))
  = Ok (Some (lit "abc123")).
Proof. vm_compute. reflexivity. Qed.

Example parse_uri :
  parse_spotify_url (PyStr (lit "play spotify:track:4uLU6hMCjMI75M1A2tKUQC pls"))
  = Ok (Some (lit "4uLU6hMCjMI75M1A2tKUQC")).
Proof. vm_compute. reflexivity. Qed.

Example parse_no_reference :
  parse_spotify_url (PyStr (lit "please play freebird")) = Ok None.
Proof. vm_compute. reflexivity. Qed.

(** [parse_spotify_url_reference] on a web URL followed by a query string. *)
Lemma parse_web_identifier :
  lit "abc123" <> [] /\ forallb is_alnum (lit "abc123") = true.
Proof.
  apply (proj1 (proj2 parse_spotify_url_reference)
           (lit "https://open.spotify.com/track/abc123?si=1")).
  vm_compute. reflexivity.
Defined.

(** The fragment form matches inside a link to any site: such a text is a
    direct request, not a discarded link. *)
Example track_path_of_another_site :
  parse_spotify_url (PyStr (lit "https://example.com/track/abc")) = Ok (Some (lit "abc")).
Proof. vm_compute. reflexivity. Qed.

(** A text that is JSON [null]: the parser returns nothing, and the loop
    body then raises on [user_input.lower()]. *)
Example null_text_raises :
  fst (@classify (scripted happy) (<["user_input" := PyNone]> (redemption_of "")) ([], [])
         (fresh happy))
  = Raise AttributeError.
Proof. vm_compute. reflexivity. Qed.

(** End-to-end scenario 1: one direct request, one search request, one
    redemption discarded as empty. *)
Example classify_scenario_1 :
  fst (@run (scripted happy) _ (classify_all scenario_1) 0)
  = Ok ([{| dr_track_id := lit "abc123"; dr_user := PyStr (lit "viewer");
            dr_redeemed_at := PyStr (lit "2025-01-01T00:00:00Z");
            dr_status := PyStr (lit "FULFILLED");
            dr_original_input := PyStr (lit "https://open.spotify.com/track/abc123");
            dr_method := lit "direct_url" |}],
        [{| sq_search_query := lit "please play freebird";
            sq_user := PyStr (lit "viewer");
            sq_redeemed_at := PyStr (lit "2025-01-01T00:00:00Z");
            sq_status := PyStr (lit "FULFILLED") |}])
  /\ trace (snd (@run (scripted happy) _ (classify_all scenario_1) 0))
     = [Print (MEmptyInput (PyStr (lit "viewer")))].
Proof. vm_compute. split; reflexivity. Qed.

Lemma scenario_1_well_formed : Forall well_formed scenario_1.
Proof.
  repeat constructor; try (eexists; vm_compute; reflexivity);
    right; eexists; vm_compute; reflexivity.
Defined.

(** [classification_total_exclusive] on scenario 1. *)
Lemma classification_scenario_1 :
  Forall well_formed scenario_1
  /\ exists song_requests search_requests diagnostics,
       @classify_all (scripted happy) scenario_1 (fresh happy)
       = (Ok (song_requests, search_requests),
          @traced (scripted happy) (fresh happy) (map Print diagnostics))
       /\ length song_requests + length search_requests + length diagnostics
          = length scenario_1.
Proof.
  split; [exact scenario_1_well_formed|].
  apply (@classification_total_exclusive (scripted happy) scenario_1 scenario_1_well_formed).
Defined.

(** [url_shaped_is_discarded] on a link to a video. *)
Lemma youtube_link_is_discarded :
  @classify (scripted happy) (redemption_of "Check WWW.youtube.com/watch?v=1") ([], [])
            (fresh happy)
  = (Ok ([], []),
     @traced (scripted happy) (fresh happy)
       [Print (MSkippingNonSpotify (lit "Check WWW.youtube.com/watch?v=1"))]).
Proof.
  apply (@url_shaped_is_discarded (scripted happy)
           (redemption_of "Check WWW.youtube.com/watch?v=1")
           (lit "Check WWW.youtube.com/watch?v=1")).
  - vm_compute. reflexivity.
  - apply has_url_marker_spec. vm_compute. reflexivity.
  - intros [R | R]; apply R; vm_compute; reflexivity.
  - vm_compute. reflexivity.
Defined.

(** C3 (as stated) fails: a link to a track of another music site is
    URL-shaped and no Spotify track reference, yet form (c) finds an
    identifier in it; the redemption becomes a direct request and no
    diagnostic is printed. *)
Lemma other_site_track_link_is_direct :
  let text := "https://www.deezer.com/track/3135556" in
  let r := @classify (scripted happy) (redemption_of text) ([], []) (fresh happy) in
  non_spotify_link (lit text)
  /\ r = (Ok ([{| dr_track_id := lit "3135556"; dr_user := PyStr (lit "viewer");
                  dr_redeemed_at := PyStr (lit "2025-01-01T00:00:00Z");
                  dr_status := PyStr (lit "FULFILLED");
                  dr_original_input := PyStr (lit text);
                  dr_method := lit "direct_url" |}], []),
          fresh happy)
  /\ r <> (Ok ([], []),
           @traced (scripted happy) (fresh happy)
             [Print (MSkippingNonSpotify (take 50 (lit text)))]).
Proof.
  split; [split|split].
  - apply has_url_marker_spec. vm_compute. reflexivity.
  - intros [R | R]; apply R; vm_compute; reflexivity.
  - vm_compute. reflexivity.
  - vm_compute. discriminate.
Qed.

(** [missing_user_input_is_empty] on a redemption that has no text field. *)
Lemma redemption_without_text :
  let redemption : json := delete "user_input" (redemption_of "") in
  dict_get redemption "user_input" (PyStr []) = PyStr []
  /\ @classify (scripted happy) redemption ([], []) (fresh happy)
     = (Ok ([], []),
        @traced (scripted happy) (fresh happy) [Print (MEmptyInput (PyStr (lit "viewer")))]).
Proof.
  intros redemption.
  apply (@missing_user_input_is_empty (scripted happy) redemption (PyStr (lit "viewer")));
    vm_compute; reflexivity.
Defined.

(** [writer_batches] on 150 URIs: a batch of 100, then one of 50. *)
Lemma writer_150 : length uris_150 = 150 /\ map length (batches uris_150) = [100; 50].
Proof.
  split; [reflexivity|].
  apply (@writer_batches (scripted happy) (lit "p1") uris_150 (fresh happy)).
  reflexivity.
Defined.

(** End-to-end scenario 3 with a service that refuses every batch: both
    batches are still submitted, and all 150 URIs end as failed. *)
Example writer_150_refused :
  let r := @add_in_batches (scripted hostile) (lit "p1") uris_150 (fresh hostile) in
  fst r = Ok (0, uris_150)
  /\ map length (add_calls (trace (snd r))) = [100; 50].
Proof. vm_compute. split; reflexivity. Qed.

(** [failures_stay_local] on a search that raises: no result, and the
    query was searched. *)
Lemma failed_search_adds_nothing :
  let req := {| sq_search_query := lit "please play freebird";
                sq_user := PyStr (lit "viewer");
                sq_redeemed_at := PyNone; sq_status := PyNone |} in
  fst (@search_one (scripted hostile) req [] (fresh hostile)) = Ok []
  /\ search_calls (trace (snd (@search_one (scripted hostile) req [] (fresh hostile))))
     = [lit "please play freebird"].
Proof.
  intros req.
  apply (@failures_stay_local (scripted hostile) [] (lit "p1") [] (fresh hostile)).
  left. exists ServiceError. reflexivity.
Defined.

(** End-to-end scenario 2: a search that finds nothing between two that
    find a track. *)
Example search_miss_between_hits :
  let sc := {| sc_line := []; sc_token_at := None; sc_broadcaster := PyNone;
               sc_rewards := []; sc_redemptions := [];
               sc_search := fun q => if bool_decide (q = lit "nothing") then Ok []
                                     else Ok [freebird];
               sc_refused := fun _ => false |} in
  let req q := {| sq_search_query := lit q; sq_user := PyNone;
                  sq_redeemed_at := PyNone; sq_status := PyNone |} in
  let r := @resolve_searches (scripted sc) [req "one"; req "nothing"; req "two"] (fresh sc) in
  option_map (map sr_search_query)
             (match fst r with Ok l => Some l | Raise _ => None end)
  = Some [lit "one"; lit "two"]
  /\ search_calls (trace (snd r)) = [lit "one"; lit "nothing"; lit "two"].
Proof. vm_compute. split; reflexivity. Qed.

Lemma unanswered_after_sleeps (k w : nat) :
  @after_sleeps (scripted unanswered) k new_oauth w = (new_oauth, k + w).
Proof.
  revert w. induction k as [|k IH]; intros w; [reflexivity|].
  cbn [after_sleeps scripted sleep1 unanswered sc_token_at].
  rewrite bool_decide_eq_false_2 by discriminate. rewrite IH. f_equal. lia.
Qed.

(** [oauth_wait_is_bounded] when no authorization comes: 120 sleeps, the
    cleanup, the report, failure. *)
Lemma unanswered_flow_times_out :
  @start_oauth_flow (scripted unanswered) new_oauth (fresh unanswered)
  = (Ok (new_oauth, false),
     @Build_state (scripted unanswered) 120
       ([EvOAuthListen; Print MStartingOAuth; EvOpenBrowser]
        ++ replicate 120 EvSleep ++ [EvCleanup; Print MOAuthTimeout])).
Proof.
  pose proof (proj2 (proj2 (@oauth_wait_is_bounded (scripted unanswered) new_oauth
                              (fresh unanswered)))
                new_oauth 0 0 eq_refl eq_refl) as T.
  cbn zeta in T. rewrite unanswered_after_sleeps in T. apply T.
  intros j _. unfold token_after. rewrite unanswered_after_sleeps. reflexivity.
Defined.

(** C8 (as stated) fails: in a world where the handler finishes during the
    cleanup, no token has been obtained at any of the 120 polls, and yet
    the flow reports nothing and returns success, with the token stored
    after the last poll. *)
Lemma token_stored_in_cleanup_is_success :
  let r := @start_oauth_flow answered_in_cleanup new_oauth
             (@Build_state answered_in_cleanup 0 []) in
  forallb (fun j => negb (truthy (@token_after answered_in_cleanup j new_oauth 0)))
          (seq 1 120) = true
  /\ r = (Ok ({| access_token := PyStr (lit "token"); refresh_token := PyNone;
                 auth_code := PyNone |}, true),
          @Build_state answered_in_cleanup 120
            ([EvOAuthListen; Print MStartingOAuth; EvOpenBrowser]
             ++ replicate 120 EvSleep ++ [EvCleanup]))
  /\ fst r <> Ok (new_oauth, false).
Proof. vm_compute. repeat split; discriminate. Qed.

(** When the operator authorizes after three seconds the flow stops
    waiting there. *)
Example happy_flow_stops_early :
  let r := @start_oauth_flow (scripted happy) new_oauth (fresh happy) in
  option_map snd (match fst r with Ok v => Some v | Raise _ => None end) = Some true
  /\ sleeps (trace (snd r)) = 3.
Proof. vm_compute. split; reflexivity. Qed.

(** [fatal_failures_create_no_playlist] when no authorization comes. *)
Lemma unanswered_run_creates_no_playlist :
  fst (@run (scripted unanswered) _ main 0) = Ok tt
  /\ spotify_calls (trace (snd (@run (scripted unanswered) _ main 0))) = [].
Proof.
  destruct (@fatal_failures_create_no_playlist (scripted unanswered) 0 0
              (lit " somechannel ") (lit "somechannel") eq_refl eq_refl)
    as [Auth _]; [discriminate|].
  edestruct (Auth new_oauth) as [E C]; [vm_compute; reflexivity|].
  split; [rewrite E; reflexivity | exact C].
Defined.

(** [fetch_failure_branch_is_dead] when no authorization comes: the fetch
    returns two empty lists. *)
Lemma unanswered_fetch_returns_pair :
  fst (@get_song_requests_from_twitch (scripted unanswered) (lit "somechannel")
         (fresh unanswered))
  = Ok (FPair [] []).
Proof.
  eapply (proj1 (proj2 (proj2 (@fetch_failure_branch_is_dead (scripted unanswered))))).
  vm_compute. reflexivity.
Defined.

(** A whole run: the playlist is created after the fetch, the direct
    track and the searched one are added in one batch. *)
Example happy_run :
  let r := @run (scripted happy) _ main 0 in
  fst r = Ok tt
  /\ spotify_calls (trace (snd r))
     = [EvCurrentUser;
        EvPlaylistCreate (lit "me") (lit "somechannel - Community Song Requests");
        EvSearch (lit "please play freebird");
        EvAddItems (lit "p1") [lit "spotify:track:abc123"; lit "spotify:track:fb"]].
Proof. vm_compute. split; reflexivity. Qed.

(** A channel that Twitch does not know: the fetch returns two empty
    lists and [main] leaves through the no-valid-requests report. *)
Example unknown_broadcaster_run :
  let sc := {| sc_line := lit "nobody"; sc_token_at := Some 2; sc_broadcaster := PyNone;
               sc_rewards := []; sc_redemptions := [];
               sc_search := fun _ => Ok []; sc_refused := fun _ => false |} in
  let r := @run (scripted sc) _ main 0 in
  fst r = Ok tt
  /\ trace (snd r)
     = [Print MBanner; EvInput; Print (MFetching (lit "nobody"));
        EvOAuthListen; Print MStartingOAuth; EvOpenBrowser; EvSleep; EvSleep; EvCleanup;
        EvGetBroadcasterId (lit "nobody"); Print (MNoBroadcaster (lit "nobody"));
        Print MNoValidRequests].
Proof. vm_compute. split; reflexivity. Qed.

(** A channel without the song request reward. *)
Example missing_reward_run :
  let other : json := {[ "title" := PyStr (lit "Hydrate"); "id" := PyStr (lit "reward-2") ]} in
  let sc := {| sc_line := lit "somechannel"; sc_token_at := Some 1;
               sc_broadcaster := PyStr (lit "1234");
               sc_rewards := [other]; sc_redemptions := scenario_1;
               sc_search := fun _ => Ok []; sc_refused := fun _ => false |} in
  let r := @run (scripted sc) _ main 0 in
  fst r = Ok tt
  /\ trace (snd r)
     = [Print MBanner; EvInput; Print (MFetching (lit "somechannel"));
        EvOAuthListen; Print MStartingOAuth; EvOpenBrowser; EvSleep; EvCleanup;
        EvGetBroadcasterId (lit "somechannel");
        Print (MFoundBroadcaster (PyStr (lit "1234")));
        EvGetCustomRewards (PyStr (lit "1234")); Print (MFoundRewards 1);
        Print MNoReward; Print (MAvailableRewards [PyStr (lit "Hydrate")]);
        Print MNoValidRequests].
Proof. vm_compute. split; reflexivity. Qed.

(** * Further properties

    What the code shows beyond the statements above. *)

(** ** The parser, again *)

(** Where [id_after] finds an identifier, the text starts with the prefix
    and the identifier, and goes on with no letter or digit. *)
Lemma id_after_Some (p s i : str) :
  id_after p s = Some i ->
  exists post, s = p ++ i ++ post /\ span is_alnum post = [].
Proof.
  unfold id_after. destruct (startswith p s) eqn:P; [|discriminate].
  apply startswith_spec in P as [rest ->].
  rewrite drop_app_length.
  destruct (span is_alnum rest) as [|c run] eqn:S; [discriminate|].
  intros [= <-]. rewrite <- S. clear S. exists (drop (length (span is_alnum rest)) rest).
  split.
  - f_equal. rewrite <- (take_span is_alnum rest) at 1. symmetry. apply take_drop.
  - induction rest as [|a rest IH]; [reflexivity|]. simpl.
    destruct (is_alnum a) eqn:A; simpl; [exact IH | rewrite A; reflexivity].
Qed.

Lemma first_some_Some {A B : Type} (f : A -> option B) (l : list A) (b : B) :
  first_some f l = Some b -> exists a, a ∈ l /\ f a = Some b.
Proof.
  induction l as [|a l IH]; [discriminate|]. simpl.
  destruct (f a) as [b'|] eqn:E.
  - intros [= <-]. exists a. split; [left | exact E].
  - intros [a' [In E']]%IH. exists a'. split; [right; exact In | exact E'].
Qed.

(** An identifier found by [find_ref] stands in the text, right after one
    of the prefixes. *)
Lemma find_ref_Some (prefixes : list str) (s i : str) :
  find_ref prefixes s = Some i ->
  exists p pre post, p ∈ prefixes /\ s = pre ++ p ++ i ++ post.
Proof.
  induction s as [|c s IH]; simpl;
    destruct (first_some _ prefixes) as [j|] eqn:E; try discriminate.
  - intros [= <-]. apply first_some_Some in E as (p & In & [post [E _]]%id_after_Some).
    exists p, [], post. auto.
  - intros [= <-]. apply first_some_Some in E as (p & In & [post [E _]]%id_after_Some).
    exists p, [], post. auto.
  - intros (p & pre & post & In & ->)%IH. exists p, (c :: pre), post. auto.
Qed.

(** No reference is found in a text in which some character of every
    prefix is missing. *)
Lemma find_ref_lacking (prefixes : list str) (s : str) (c : ascii) :
  Forall (fun p => c ∈ p) prefixes -> c ∉ s -> find_ref prefixes s = None.
Proof.
  intros All Not. destruct (find_ref prefixes s) as [i|] eqn:E; [|reflexivity].
  apply find_ref_Some in E as (p & pre & post & In & ->).
  rewrite Forall_forall in All. exfalso. apply Not.
  rewrite !elem_of_app. right. left. exact (All p In).
Qed.

Lemma span_stop (f : ascii -> bool) (run rest : str) :
  forallb f run = true -> span f rest = [] -> span f (run ++ rest) = run.
Proof.
  intros All Stop. induction run as [|c run IH]; [exact Stop|].
  simpl in *. apply andb_true_iff in All as [-> All]. rewrite IH by exact All. reflexivity.
Qed.

Lemma id_after_here (p i rest : str) :
  i <> [] -> forallb is_alnum i = true -> span is_alnum rest = [] ->
  id_after p (p ++ i ++ rest) = Some i.
Proof.
  intros Ne All Stop. unfold id_after.
  rewrite (proj2 (startswith_spec p (p ++ i ++ rest))) by eauto.
  rewrite drop_app_length, (span_stop _ _ _ All Stop).
  destruct i; [contradiction | reflexivity].
Qed.

Lemma find_ref_here (p : str) (ps : list str) (i rest : str) :
  i <> [] -> forallb is_alnum i = true -> span is_alnum rest = [] ->
  find_ref (p :: ps) (p ++ i ++ rest) = Some i.
Proof.
  intros Ne All Stop.
  destruct (p ++ i ++ rest) eqn:T; simpl; rewrite <- T;
    rewrite (id_after_here p i rest Ne All Stop); reflexivity.
Qed.

Lemma alnum_not_punct (i : str) (c : ascii) :
  forallb is_alnum i = true -> is_alnum c = false -> c ∉ i.
Proof.
  intros All Nc In. rewrite forallb_forall in All.
  apply list_elem_of_In in In. rewrite (All c In) in Nc. discriminate.
Qed.

(** The URI the assembler builds for a track identifier parses back to the
    identifier (lines 250 and 378). *)
Theorem uri_round_trip (id : str) :
  id <> [] ->
  forallb is_alnum id = true ->
  parse_spotify_url (PyStr (lit "spotify:track:" ++ id)) = Ok (Some id).
Proof.
  intros Ne All. rewrite parse_str. unfold parse_ref, first_of.
  rewrite (find_ref_lacking _ (lit "spotify:track:" ++ id) "/"%char).
  - rewrite <- (app_nil_r id) at 1.
    rewrite (find_ref_here (lit "spotify:track:") [] id [] Ne All eq_refl). reflexivity.
  - repeat constructor; vm_compute; repeat (first [left | right]).
  - rewrite elem_of_app. intros [In | In].
    + vm_compute in In. repeat (apply elem_of_cons in In as [In|In]; [discriminate|]).
      apply elem_of_nil in In as [].
    + exact (alnum_not_punct id "/"%char All eq_refl In).
Qed.

Lemma uri_round_trip_example :
  parse_spotify_url (PyStr (lit "spotify:track:" ++ lit "4uLU6hMCjMI75M1A2tKUQC"))
  = Ok (Some (lit "4uLU6hMCjMI75M1A2tKUQC")).
Proof. apply uri_round_trip; [discriminate | reflexivity]. Defined.

Lemma find_ref_unfold (prefixes : list str) (s : str) :
  find_ref prefixes s
  = match first_some (fun p => id_after p s) prefixes with
    | Some i => Some i
    | None => match s with [] => None | _ :: s' => find_ref prefixes s' end
    end.
Proof. destruct s; reflexivity. Qed.

Lemma find_ref_second (p1 p i rest : str) :
  id_after p1 (p ++ i ++ rest) = None ->
  i <> [] -> forallb is_alnum i = true -> span is_alnum rest = [] ->
  find_ref [p1; p] (p ++ i ++ rest) = Some i.
Proof.
  intros N Ne All Stop. rewrite find_ref_unfold. cbn [first_some].
  rewrite N, (id_after_here p i rest Ne All Stop). reflexivity.
Qed.

(** A web URL of a track, in either scheme and whatever follows the
    identifier (a query string, a space, nothing), parses to the identifier
    (line 249). *)
Theorem web_url_round_trip (id rest : str) :
  id <> [] ->
  forallb is_alnum id = true ->
  span is_alnum rest = [] ->
  parse_spotify_url (PyStr (lit "https://open.spotify.com/track/" ++ id ++ rest))
  = Ok (Some id)
  /\ parse_spotify_url (PyStr (lit "http://open.spotify.com/track/" ++ id ++ rest))
     = Ok (Some id).
Proof.
  intros Ne All Stop. rewrite !parse_str. unfold parse_ref, first_of. split.
  - rewrite (find_ref_here _ _ id rest Ne All Stop). reflexivity.
  - rewrite (find_ref_second _ _ id rest); auto.
Qed.

Lemma web_url_round_trip_example :
  parse_spotify_url
    (PyStr (lit "https://open.spotify.com/track/" ++ lit "abc123" ++ lit "?si=9f2e"))
  = Ok (Some (lit "abc123"))
  /\ parse_spotify_url
       (PyStr (lit "http://open.spotify.com/track/" ++ lit "abc123" ++ lit "?si=9f2e"))
     = Ok (Some (lit "abc123")).
Proof. apply web_url_round_trip; [discriminate | reflexivity | reflexivity]. Defined.

(** The parser invents nothing: an identifier it returns stands in the
    text, right after [track/] or [track:] (lines 249-251). *)
Theorem parsed_identifier_is_in_the_text (text i : str) :
  parse_spotify_url (PyStr text) = Ok (Some i) ->
  exists pre sep post,
    text = pre ++ lit "track" ++ [sep] ++ i ++ post
    /\ (sep = "/"%char \/ sep = ":"%char).
Proof.
  rewrite parse_str. unfold parse_ref, first_of.
  match goal with |- Ok ?m = _ -> _ => set (r := m) end.
  intros [= E]. unfold r in E. clear r.
  assert (F : exists p pre post,
             p ∈ [lit "https://open.spotify.com/track/"; lit "http://open.spotify.com/track/";
                  lit "spotify:track:"; lit "track/"]
             /\ text = pre ++ p ++ i ++ post).
  { destruct (find_ref [_; _] text) as [j|] eqn:A.
    - injection E as ->. apply find_ref_Some in A as (p & pre & post & In & T).
      exists p, pre, post. split; [|exact T].
      apply elem_of_cons in In as [->|In]; [left|].
      apply list_elem_of_singleton in In as ->. right; left.
    - destruct (find_ref [lit "spotify:track:"] text) as [j|] eqn:B.
      + injection E as ->. apply find_ref_Some in B as (p & pre & post & In & T).
        apply list_elem_of_singleton in In as ->.
        exists (lit "spotify:track:"), pre, post. split; [|exact T].
        right; right; left.
      + apply find_ref_Some in E as (p & pre & post & In & T).
        apply list_elem_of_singleton in In as ->.
        exists (lit "track/"), pre, post. split; [|exact T].
        right; right; right; left. }
  destruct F as (p & pre & post & In & ->).
  repeat (apply elem_of_cons in In as [->|In]).
  - exists (pre ++ lit "https://open.spotify.com/"), "/"%char, post.
    split; [|auto]. rewrite <- !app_assoc. reflexivity.
  - exists (pre ++ lit "http://open.spotify.com/"), "/"%char, post.
    split; [|auto]. rewrite <- !app_assoc. reflexivity.
  - exists (pre ++ lit "spotify:"), ":"%char, post.
    split; [|auto]. rewrite <- !app_assoc. reflexivity.
  - exists pre, "/"%char, post. split; [|auto]. reflexivity.
  - apply elem_of_nil in In as [].
Qed.

Lemma parsed_identifier_example :
  exists pre sep post,
    lit "play spotify:track:7xyz now" = pre ++ lit "track" ++ [sep] ++ lit "7xyz" ++ post
    /\ (sep = "/"%char \/ sep = ":"%char).
Proof.
  apply (parsed_identifier_is_in_the_text (lit "play spotify:track:7xyz now") (lit "7xyz")).
  vm_compute. reflexivity.
Defined.

(** ** Blank text *)

Lemma lstrip_blank (s : str) : forallb is_space s = true -> lstrip s = [].
Proof.
  induction s as [|c s IH]; [reflexivity|]. simpl.
  intros [-> All]%andb_true_iff. exact (IH All).
Qed.

Lemma strip_blank (s : str) : forallb is_space s = true -> strip s = [].
Proof. intros All. unfold strip, rstrip. rewrite (lstrip_blank s All). reflexivity. Qed.

Lemma lower_blank (s : str) : forallb is_space s = true -> lower s = s.
Proof.
  induction s as [|c s IH]; [reflexivity|]. simpl.
  intros [Sc All]%andb_true_iff. rewrite (IH All). f_equal.
  revert Sc. destruct c as [[] [] [] [] [] [] [] []]; vm_compute; congruence.
Qed.

Lemma blank_has_no (s : str) (c : ascii) :
  forallb is_space s = true -> is_space c = false -> c ∉ s.
Proof.
  intros All Nc In. rewrite forallb_forall in All.
  apply list_elem_of_In in In. rewrite (All c In) in Nc. discriminate.
Qed.

Lemma contains_first (c : ascii) (p s : str) : contains (c :: p) s = true -> c ∈ s.
Proof.
  intros (pre & post & ->)%contains_spec. rewrite elem_of_app. right. left.
Qed.

Lemma blank_is_plain (text : str) :
  forallb is_space text = true ->
  parse_ref text = None /\ has_url_marker text = false.
Proof.
  intros All. split.
  - unfold parse_ref, first_of.
    rewrite !(find_ref_lacking _ text "t"%char);
      [reflexivity | | | | | | ];
      try (apply (blank_has_no text _ All); reflexivity);
      repeat constructor; vm_compute; repeat (first [left | right]).
  - unfold has_url_marker. rewrite (lower_blank text All).
    destruct (contains (lit "http://") text) eqn:A.
    { apply contains_first in A. exfalso. revert A. apply (blank_has_no text _ All). reflexivity. }
    destruct (contains (lit "https://") text) eqn:B.
    { apply contains_first in B. exfalso. revert B. apply (blank_has_no text _ All). reflexivity. }
    destruct (contains (lit "www.") text) eqn:C; [|reflexivity].
    apply contains_first in C. exfalso. revert C. apply (blank_has_no text _ All). reflexivity.
Qed.

Section Blank.
Context `{Env}.

(** A redemption whose text is only whitespace is discarded as empty
    input: it is neither a direct request nor a search (lines 329-337). *)
Theorem blank_text_is_discarded (redemption : json) (text : str) (user : pyval)
    (acc : list direct_request * list search_request) (s : state) :
  redemption !! "user_input" = Some (PyStr text) ->
  redemption !! "user_name" = Some user ->
  forallb is_space text = true ->
  classify redemption acc s = (Ok acc, traced s [Print (MEmptyInput user)]).
Proof.
  intros T U All. destruct (blank_is_plain text All) as [P M].
  unfold classify, bind, getitem, dict_get. rewrite T, parse_str, P, M, U.
  rewrite (strip_blank text All). reflexivity.
Qed.

(** A channel name that is empty or only whitespace ends the run at once:
    [main] reports it and calls neither Twitch nor Spotify (lines 460-464). *)
Theorem blank_channel_name_ends_the_run (w w1 : World) (line : str) :
  input w = (line, w1) ->
  forallb is_space line = true ->
  run main w
  = (Ok tt, {| world := w1; trace := [Print MBanner; EvInput; Print MNoChannel] |}).
Proof.
  intros I All. unfold run, main, bind, call_total, call, print, emit.
  cbn [world trace app]. rewrite I, (strip_blank line All). reflexivity.
Qed.

End Blank.

Lemma blank_text_example :
  @classify (scripted happy) (redemption_of "   ") ([], []) (fresh happy)
  = (Ok ([], []),
     @traced (scripted happy) (fresh happy) [Print (MEmptyInput (PyStr (lit "viewer")))]).
Proof.
  apply (@blank_text_is_discarded (scripted happy) (redemption_of "   ") (lit "   "));
    vm_compute; reflexivity.
Defined.

Lemma blank_channel_name_example :
  let sc := {| sc_line := lit "   "; sc_token_at := Some 1; sc_broadcaster := PyNone;
               sc_rewards := []; sc_redemptions := [];
               sc_search := fun _ => Ok []; sc_refused := fun _ => false |} in
  @run (scripted sc) _ main 0
  = (Ok tt, @Build_state (scripted sc) 0 [Print MBanner; EvInput; Print MNoChannel]).
Proof.
  intros sc. apply (@blank_channel_name_ends_the_run (scripted sc) 0 0 (lit "   "));
    reflexivity.
Defined.

(** ** What the classifier hands on *)

Section Classified.
Context `{Env}.

Lemma classify_loop_invariant (redemptions : list json)
    (acc : list direct_request * list search_request) (s : state) :
  Forall well_formed redemptions ->
  exists a b s',
    for_each redemptions classify acc s = (Ok (fst acc ++ a, snd acc ++ b), s')
    /\ Forall direct_ok a
    /\ Forall search_ok b
    /\ sublist (map (fun d => (dr_original_input d, dr_user d)) a)
               (map (fun r => (text_of r, requester_of r)) redemptions)
    /\ sublist (map (fun q => (PyStr (sq_search_query q), sq_user q)) b)
               (map (fun r => (text_of r, requester_of r)) redemptions).
Proof.
  intros W. revert acc s. induction W as [|r rs Wr _ IH]; intros acc s.
  - exists [], [], s. simpl. unfold ret. rewrite !app_nil_r. destruct acc.
    repeat split; constructor.
  - destruct Wr as ([user U] & [redeemed_at R] & [status St] & T).
    apply user_input_text in T as [text T].
    cbn [for_each map]. unfold bind at 1.
    rewrite (classify_text r text user redeemed_at status acc s T U R St).
    unfold text_of, requester_of. rewrite T, U. cbn [default].
    destruct (parse_ref text) as [[|c i]|] eqn:P.
    2: { match goal with |- context [for_each _ classify ?x ?t] =>
           destruct (IH x t) as (a & b & s' & -> & Da & Sb & Oa & Ob) end.
         cbn [fst snd]. eexists (_ :: a), b, s'. rewrite <- app_assoc.
         split; [reflexivity|]. split; [|split; [exact Sb|split]].
         - constructor; [|exact Da]. split; [|reflexivity].
           cbn. rewrite parse_str, P. reflexivity.
         - cbn [map]. apply sublist_skip, Oa.
         - apply sublist_cons, Ob. }
    all: destruct (has_url_marker text) eqn:Mk;
      [ match goal with |- context [for_each _ classify ?x ?t] =>
          destruct (IH x t) as (a & b & s' & -> & Da & Sb & Oa & Ob) end;
        exists a, b, s'; split; [reflexivity|];
        split; [exact Da|]; split; [exact Sb|]; split; apply sublist_cons; assumption |].
    all: destruct (strip text) as [|c' t'] eqn:Sp;
      [ match goal with |- context [for_each _ classify ?x ?t] =>
          destruct (IH x t) as (a & b & s' & -> & Da & Sb & Oa & Ob) end;
        exists a, b, s'; split; [reflexivity|];
        split; [exact Da|]; split; [exact Sb|]; split; apply sublist_cons; assumption |].
    all: match goal with |- context [for_each _ classify ?x ?t] =>
           destruct (IH x t) as (a & b & s' & -> & Da & Sb & Oa & Ob) end;
      cbn [fst snd]; eexists a, (_ :: b), s'; rewrite <- app_assoc;
      (split; [reflexivity|]); (split; [exact Da|]);
      (split; [|split; [apply sublist_cons, Oa | cbn [map]; apply sublist_skip, Ob]]);
      (constructor; [|exact Sb]); unfold search_ok; cbn [sq_search_query];
      (split; [rewrite parse_str, P; try reflexivity | split; [exact Mk | rewrite Sp; discriminate]]).
    (* the parser never returns an empty identifier *)
    destruct (parse_ref_alnum text [] P) as [Ne _]. contradiction.
Qed.

(** What the classifier hands on can be relied on: the track of every
    direct request is the one the parser reads in the request's own text,
    and every search query is free of track references and link markers and
    is not blank (lines 312-337). *)
Theorem classified_requests_are_sound (redemptions : list json) (s : state) :
  Forall well_formed redemptions ->
  exists song_requests search_requests s',
    classify_all redemptions s = (Ok (song_requests, search_requests), s')
    /\ Forall direct_ok song_requests
    /\ Forall search_ok search_requests.
Proof.
  intros W.
  destruct (classify_loop_invariant redemptions ([], []) s W)
    as (a & b & s' & E & Da & Sb & _).
  exists a, b, s'. split; [exact E|]. split; assumption.
Qed.

(** The classifier keeps the order of the fetch and the requester of each
    text: the direct requests, and the search requests, are subsequences of
    the redemptions (lines 312-337). *)
Theorem classification_keeps_order (redemptions : list json) (s : state) :
  Forall well_formed redemptions ->
  exists song_requests search_requests s',
    classify_all redemptions s = (Ok (song_requests, search_requests), s')
    /\ sublist (map (fun d => (dr_original_input d, dr_user d)) song_requests)
               (map (fun r => (text_of r, requester_of r)) redemptions)
    /\ sublist (map (fun q => (PyStr (sq_search_query q), sq_user q)) search_requests)
               (map (fun r => (text_of r, requester_of r)) redemptions).
Proof.
  intros W.
  destruct (classify_loop_invariant redemptions ([], []) s W)
    as (a & b & s' & E & _ & _ & Oa & Ob).
  exists a, b, s'. split; [exact E|]. split; assumption.
Qed.

End Classified.

Lemma classified_scenario_1_sound :
  exists song_requests search_requests s',
    @classify_all (scripted happy) scenario_1 (fresh happy)
    = (Ok (song_requests, search_requests), s')
    /\ Forall direct_ok song_requests
    /\ Forall search_ok search_requests.
Proof.
  apply (@classified_requests_are_sound (scripted happy)). exact scenario_1_well_formed.
Defined.

Lemma classified_scenario_1_order :
  exists song_requests search_requests s',
    @classify_all (scripted happy) scenario_1 (fresh happy)
    = (Ok (song_requests, search_requests), s')
    /\ sublist (map (fun d => (dr_original_input d, dr_user d)) song_requests)
               (map (fun r => (text_of r, requester_of r)) scenario_1)
    /\ sublist (map (fun q => (PyStr (sq_search_query q), sq_user q)) search_requests)
               (map (fun r => (text_of r, requester_of r)) scenario_1).
Proof.
  apply (@classification_keeps_order (scripted happy)). exact scenario_1_well_formed.
Defined.

(** ** Removing duplicates, again *)

Lemma unseen_fresh (seen l : list str) :
  NoDup l -> (forall x, x ∈ l -> x ∉ seen) -> unseen seen l = l.
Proof.
  intros N. revert seen. induction N as [|x l Nx N IH]; intros seen Fresh; [reflexivity|].
  simpl. rewrite bool_decide_eq_false_2 by (apply Fresh; left). f_equal.
  apply IH. intros y Hy [In | ->%list_elem_of_singleton]%elem_of_app.
  - apply (Fresh y); [right; exact Hy | exact In].
  - exact (Nx Hy).
Qed.

(** Removing duplicates changes nothing where there are none, never makes
    the list longer, and done twice is the same as done once (lines 410-412). *)
Theorem assemble_only_removes (song_requests : list direct_request)
    (search_results : list search_result) :
  let uris := map direct_uri song_requests ++ map sr_track_uri search_results in
  (NoDup uris -> assemble song_requests search_results = uris)
  /\ length (assemble song_requests search_results)
     <= length song_requests + length search_results
  /\ dict_keys (dict_fromkeys (assemble song_requests search_results))
     = assemble song_requests search_results.
Proof.
  intros uris.
  assert (E : assemble song_requests search_results = first_occurrences uris).
  { unfold assemble. apply dict_fromkeys_first_occurrences. }
  rewrite E. unfold first_occurrences. split; [|split].
  - intros N. apply unseen_fresh; [exact N|]. intros x _. apply not_elem_of_nil.
  - pose proof (sublist_length _ _ (unseen_sublist [] uris)) as L.
    unfold uris in L at 2. rewrite length_app, !length_map in L. exact L.
  - rewrite dict_fromkeys_first_occurrences. unfold first_occurrences.
    apply unseen_fresh; [apply unseen_NoDup|]. intros x _. apply not_elem_of_nil.
Qed.

Lemma assemble_distinct_example :
  let hit id := {| sr_track_id := lit id; sr_track_uri := lit "spotify:track:" ++ lit id;
                   sr_track_name := []; sr_artist := []; sr_user := PyNone;
                   sr_search_query := []; sr_method := lit "search" |} in
  assemble [] [hit "fb"; hit "st"]
  = map direct_uri [] ++ map sr_track_uri [hit "fb"; hit "st"].
Proof.
  intros hit. apply (proj1 (assemble_only_removes [] [hit "fb"; hit "st"])).
  repeat constructor; rewrite ?elem_of_cons, ?elem_of_nil; intros In;
    decompose [or] In; try discriminate; assumption.
Defined.

(** ** The fetch *)

Section Fetch.
Context `{Env}.

Lemma find_reward_first (before after : list json) (reward : json)
    (title : str) (s : state) :
  Forall other_title before ->
  reward !! "title" = Some (PyStr title) ->
  lower title = lower REWARD_NAME ->
  find_reward (before ++ reward :: after) s = (Ok (Some reward), s).
Proof.
  intros O T L. induction O as [|r rs (t & Tr & N) _ IH]; cbn [app find_reward].
  - unfold bind, getitem. rewrite T. cbn.
    rewrite bool_decide_eq_true_2 by exact L. reflexivity.
  - unfold bind at 1 2, getitem. rewrite Tr. cbn.
    rewrite bool_decide_eq_false_2 by exact N. exact IH.
Qed.

(** The first reward with the name wins: rewards after it are not looked
    at, whatever they are; rewards before it must have a title that is a
    string (lines 290-294). *)
Theorem first_matching_reward_wins (before after : list json) (reward : json)
    (title : str) (s : state) :
  Forall other_title before ->
  reward !! "title" = Some (PyStr title) ->
  lower title = lower REWARD_NAME ->
  find_reward (before ++ reward :: after) s = (Ok (Some reward), s).
Proof. apply find_reward_first. Qed.

(** The flow answers success exactly when the object it hands back holds a
    token that is not empty, so the Twitch API is never given an empty one
    (lines 154-158 and 270-275). *)
Theorem flow_success_means_token (self o : TwitchOAuth) (verdict : bool) (s s' : state) :
  start_oauth_flow self s = (Ok (o, verdict), s') ->
  verdict = truthy (access_token o).
Proof.
  intros E.
  destruct (oauth_listen self (world s)) as [[self0|e] w0] eqn:L.
  - destruct (webbrowser_open w0) as [[[]|e] w1] eqn:B.
    + destruct (start_oauth_flow_runs self self0 s w0 w1 L B) as (k & _ & _ & _ & R).
      cbn zeta in R. rewrite R in E.
      destruct (truthy (access_token _)) eqn:T; injection E as <- <- _; rewrite T; reflexivity.
    + unfold start_oauth_flow, bind, call_total, call, print, emit, ret in E.
      rewrite L in E. cbn [world trace] in E. rewrite B in E. discriminate.
  - unfold start_oauth_flow, bind, call_total, call in E. rewrite L in E. discriminate.
Qed.

End Fetch.

Lemma first_matching_reward_example :
  let other : json := {[ "title" := PyStr (lit "Hydrate") ]} in
  let broken : json := ∅ in
  @find_reward (scripted happy) [other; song_reward; broken] (fresh happy)
  = (Ok (Some song_reward), fresh happy).
Proof.
  intros other broken.
  apply (@first_matching_reward_wins (scripted happy) [other] [broken] song_reward
           (lit "Song Request Bot")).
  - repeat constructor. exists (lit "Hydrate"). split; [reflexivity | discriminate].
  - reflexivity.
  - reflexivity.
Defined.

Lemma flow_success_example :
  true = truthy (PyStr (lit "token")).
Proof.
  apply (@flow_success_means_token (scripted happy) new_oauth
           {| access_token := PyStr (lit "token"); refresh_token := PyNone;
              auth_code := PyStr (lit "code") |}
           true (fresh happy)
           (@Build_state (scripted happy) 3
              ([EvOAuthListen; Print MStartingOAuth; EvOpenBrowser]
               ++ replicate 3 EvSleep ++ [EvCleanup]))).
  vm_compute. reflexivity.
Defined.

(** ** Creating the playlist *)

Section Creation.
Context `{Env}.

Lemma bind_print {A : Type} (m : msg) (k : unit -> M A) (s : state) :
  bind (print m) k s = k tt (traced s [Print m]).
Proof. reflexivity. Qed.

Lemma bind_ret {A B : Type} (a : A) (k : A -> M B) (s : state) :
  bind (ret a) k s = k a s.
Proof. reflexivity. Qed.

Lemma bind_call {A B : Type} (ev : event) (f : World -> result A * World)
    (k : A -> M B) (s : state) :
  bind (call ev f) k s
  = match fst (f (world s)) with
    | Ok a => k a {| world := snd (f (world s)); trace := trace s ++ [ev] |}
    | Raise e => (Raise e, {| world := snd (f (world s)); trace := trace s ++ [ev] |})
    end.
Proof. unfold bind, call. destruct (f (world s)) as [[a|e] w]; reflexivity. Qed.

Lemma bind_read {A B : Type} (f : state -> A) (k : A -> M B) (s : state) :
  bind (fun s => (Ok (f s), s)) k s = k (f s) s.
Proof. reflexivity. Qed.

Lemma spotify_calls_app (a b : list event) :
  spotify_calls (a ++ b) = spotify_calls a ++ spotify_calls b.
Proof. apply List.filter_app. Qed.

Lemma print_each {A : Type} (f : A -> msg) (l : list A) (s : state) :
  for_each l (fun r _ => print (f r)) tt s = (Ok tt, traced s (map (fun r => Print (f r)) l)).
Proof.
  revert s. induction l as [|x l IH]; intros s; cbn [for_each map].
  - unfold ret. rewrite traced_nil. reflexivity.
  - rewrite bind_print, IH, traced_traced. reflexivity.
Qed.

Lemma spotify_calls_prints {A : Type} (f : A -> msg) (l : list A) :
  spotify_calls (map (fun r => Print (f r)) l) = [].
Proof. induction l as [|x l IH]; [reflexivity | exact IH]. Qed.

(** The search loop calls Spotify once per query, in order, and nothing
    else. *)
Lemma search_loop_calls (reqs : list search_request) (acc : list search_result)
    (s : state) :
  exists w' evs,
    for_each reqs search_one acc s
    = (Ok (acc ++ search_hits reqs (world s)), {| world := w'; trace := trace s ++ evs |})
    /\ spotify_calls evs = map EvSearch (map sq_search_query reqs).
Proof.
  revert acc s. induction reqs as [|req reqs IH]; intros acc s.
  - exists (world s), []. simpl. unfold ret. rewrite !app_nil_r. destruct s; split; reflexivity.
  - cbn [for_each map search_hits]. unfold bind at 1.
    destruct (search_one_step req acc s) as [m ->].
    destruct (sp_search (sq_search_query req) (world s)) as [response w1]. cbn [fst snd].
    match goal with |- context [for_each reqs _ ?a ?t] =>
      destruct (IH a t) as (w' & evs & -> & C) end.
    cbn [world trace] in *.
    exists w', (EvSearch (sq_search_query req) :: Print m :: evs).
    rewrite <- !app_assoc. split; [reflexivity|]. cbn. f_equal. exact C.
Qed.

(** The batch loop calls Spotify once per slice, in order, and nothing
    else. *)
Lemma add_loop_calls (playlist_id : str) (uris : list str) (idx : list nat)
    (acc : nat * list str) (s : state) :
  exists r w' evs,
    for_each idx (add_batch playlist_id uris) acc s
    = (Ok r, {| world := w'; trace := trace s ++ evs |})
    /\ spotify_calls evs
       = map (EvAddItems playlist_id) (map (fun i => take batch_size (drop i uris)) idx).
Proof.
  revert acc s. induction idx as [|i idx IH]; intros acc s.
  - exists acc, (world s), []. simpl. unfold ret. rewrite app_nil_r.
    destruct s; split; reflexivity.
  - cbn [for_each map]. unfold bind at 1.
    destruct (add_batch_step playlist_id uris i acc s) as [m ->].
    match goal with |- context [for_each idx _ ?a ?t] =>
      destruct (IH a t) as (r & w' & evs & -> & C) end.
    cbn [world trace] in *.
    exists r, w', (EvAddItems playlist_id (take batch_size (drop i uris)) :: Print m :: evs).
    rewrite <- !app_assoc. split; [reflexivity|]. cbn. f_equal. exact C.
Qed.

(** The end of [create_spotify_playlist]: the summary and the samples are
    printed, the playlist returned. *)
Lemma summary_returns (song_requests : list direct_request)
    (search_results : list search_result) (added : nat * list str) (pl : playlist)
    (s : state) :
  exists lines,
    (print (MSummary (length song_requests) (length search_results) (fst added)) ;;;
     match snd added with
     | _ :: _ => print (MFailedToAdd (length (snd added)))
     | [] => ret tt
     end ;;;
     match song_requests with
     | _ :: _ =>
         print MSampleDirectHeading ;;;
         for_each (take 3 song_requests) (fun r _ => print (MSampleDirect r)) tt
     | [] => ret tt
     end ;;;
     match search_results with
     | _ :: _ =>
         print MSampleSearchHeading ;;;
         for_each (take 3 search_results) (fun r _ => print (MSampleSearch r)) tt
     | [] => ret tt
     end ;;;
     ret pl) s
    = (Ok pl, traced s (map Print lines)).
Proof.
  assert (D : exists l1, forall (k : unit -> M playlist) (t : state),
             bind (match song_requests with
                   | _ :: _ =>
                       print MSampleDirectHeading ;;;
                       for_each (take 3 song_requests) (fun r _ => print (MSampleDirect r)) tt
                   | [] => ret tt
                   end) k t
             = k tt (traced t (map Print l1))).
  { destruct song_requests as [|d ds].
    - exists []. intros k t. rewrite bind_ret, traced_nil. reflexivity.
    - exists (MSampleDirectHeading :: map MSampleDirect (take 3 (d :: ds))). intros k t.
      unfold bind at 1. rewrite bind_print, print_each, traced_traced.
      change (map Print (?h :: map ?f ?l)) with (Print h :: map Print (map f l)).
      rewrite map_map. reflexivity. }
  assert (S : exists l2, forall (k : unit -> M playlist) (t : state),
             bind (match search_results with
                   | _ :: _ =>
                       print MSampleSearchHeading ;;;
                       for_each (take 3 search_results) (fun r _ => print (MSampleSearch r)) tt
                   | [] => ret tt
                   end) k t
             = k tt (traced t (map Print l2))).
  { destruct search_results as [|d ds].
    - exists []. intros k t. rewrite bind_ret, traced_nil. reflexivity.
    - exists (MSampleSearchHeading :: map MSampleSearch (take 3 (d :: ds))). intros k t.
      unfold bind at 1. rewrite bind_print, print_each, traced_traced.
      change (map Print (?h :: map ?f ?l)) with (Print h :: map Print (map f l)).
      rewrite map_map. reflexivity. }
  destruct D as [l1 D], S as [l2 S].
  destruct (snd added) as [|f fs] eqn:F.
  - exists (MSummary (length song_requests) (length search_results) (fst added) :: l1 ++ l2).
    rewrite bind_print, bind_ret, D, S. unfold ret.
    rewrite !traced_traced. cbn [map]. rewrite map_app. reflexivity.
  - exists (MSummary (length song_requests) (length search_results) (fst added)
            :: MFailedToAdd (length (f :: fs)) :: l1 ++ l2).
    rewrite !bind_print, D, S. unfold ret.
    rewrite !traced_traced. cbn [map]. rewrite map_app. reflexivity.
Qed.

Lemma spotify_calls_lines (lines : list msg) : spotify_calls (map Print lines) = [].
Proof. induction lines as [|m l IH]; [reflexivity | exact IH]. Qed.

Lemma spotify_calls_quiet (evs : list event) :
  Forall (fun ev => is_spotify_call ev = false) evs -> spotify_calls evs = [].
Proof.
  induction 1 as [|ev evs Q _ IH]; [reflexivity|].
  unfold spotify_calls in *. simpl. rewrite Q. exact IH.
Qed.

Lemma playlist_calls (song_requests : list direct_request)
    (search_requests : list search_request) (broadcaster_name : str) (s : state)
    (user : spotify_user) (w1 w2 : World) (pl : playlist) :
  let name := broadcaster_name ++ lit " - Community Song Requests" in
  sp_current_user (world s) = (Ok user, w1) ->
  sp_user_playlist_create (su_id user) name
    (lit "Community requested songs from Twitch channel points. Created on " ++ today w1) w1
  = (Ok pl, w2) ->
  let r := create_spotify_playlist song_requests search_requests broadcaster_name s in
  fst r = Ok pl
  /\ spotify_calls (trace (snd r))
     = spotify_calls (trace s)
       ++ EvCurrentUser :: EvPlaylistCreate (su_id user) name
          :: map EvSearch (map sq_search_query search_requests)
       ++ map (EvAddItems (pl_id pl))
              (batches (assemble song_requests (search_hits search_requests w2))).
Proof.
  intros name CU PC r.
  enough (X : exists s',
             create_spotify_playlist song_requests search_requests broadcaster_name s
             = (Ok pl, s')
             /\ spotify_calls (trace s')
                = spotify_calls (trace s)
                  ++ EvCurrentUser :: EvPlaylistCreate (su_id user) name
                     :: map EvSearch (map sq_search_query search_requests)
                  ++ map (EvAddItems (pl_id pl))
                         (batches (assemble song_requests (search_hits search_requests w2)))).
  { destruct X as (s' & E & C). subst r. rewrite E. split; [reflexivity | exact C]. }
  clear r. unfold create_spotify_playlist.
  rewrite bind_print, bind_call. cbn [world traced trace]. rewrite CU. cbn [fst snd].
  rewrite bind_print, bind_read, bind_call. cbn [world traced trace].
  fold name. rewrite PC. cbn [fst snd].
  rewrite !bind_print. unfold bind at 1. unfold resolve_searches.
  match goal with |- context [for_each search_requests search_one [] ?t] =>
    destruct (search_loop_calls search_requests [] t) as (w3 & evs & -> & Cs) end.
  cbn [app world traced trace].
  rewrite !bind_print. unfold bind at 1. unfold add_in_batches.
  match goal with |- context [for_each ?idx (add_batch ?p ?u) ?a ?t] =>
    destruct (add_loop_calls p u idx a t) as (added & w4 & evs' & -> & Ca) end.
  fold (batches (assemble song_requests (search_hits search_requests w2))) in Ca.
  match goal with |- context [bind (print (MSummary _ _ _)) ?k ?t] =>
    destruct (summary_returns song_requests (search_hits search_requests w2) added pl t)
      as (lines & ->) end.
  eexists. split; [reflexivity|]. cbn [traced trace world].
  rewrite !spotify_calls_app, Cs, Ca, spotify_calls_lines, app_nil_r.
  cbn. rewrite <- !app_assoc. reflexivity.
Qed.

(** With the session and the playlist in hand, [create_spotify_playlist]
    returns the playlist it created, and its calls to Spotify are, in this
    order: the current user, the creation of the playlist under the
    channel's name, one search per search request, and one addition per
    batch of the assembled URIs (lines 358-429). *)
Theorem playlist_calls_in_order (song_requests : list direct_request)
    (search_requests : list search_request) (broadcaster_name : str) (s : state)
    (user : spotify_user) (w1 w2 : World) (pl : playlist) :
  let name := broadcaster_name ++ lit " - Community Song Requests" in
  sp_current_user (world s) = (Ok user, w1) ->
  sp_user_playlist_create (su_id user) name
    (lit "Community requested songs from Twitch channel points. Created on " ++ today w1) w1
  = (Ok pl, w2) ->
  let r := create_spotify_playlist song_requests search_requests broadcaster_name s in
  fst r = Ok pl
  /\ spotify_calls (trace (snd r))
     = spotify_calls (trace s)
       ++ EvCurrentUser :: EvPlaylistCreate (su_id user) name
          :: map EvSearch (map sq_search_query search_requests)
       ++ map (EvAddItems (pl_id pl))
              (batches (assemble song_requests (search_hits search_requests w2))).
Proof. apply playlist_calls. Qed.

(** When nothing resolves, the playlist is created all the same and stays
    empty: with no direct request and no search that finds a track, the
    playlist is created, every query is searched, and no addition is made
    (lines 367-372 and 421). *)
Theorem empty_playlist_is_still_created (search_requests : list search_request)
    (broadcaster_name : str) (s : state) (user : spotify_user) (w1 w2 : World)
    (pl : playlist) :
  let name := broadcaster_name ++ lit " - Community Song Requests" in
  sp_current_user (world s) = (Ok user, w1) ->
  sp_user_playlist_create (su_id user) name
    (lit "Community requested songs from Twitch channel points. Created on " ++ today w1) w1
  = (Ok pl, w2) ->
  search_hits search_requests w2 = [] ->
  let r := create_spotify_playlist [] search_requests broadcaster_name s in
  fst r = Ok pl
  /\ spotify_calls (trace (snd r))
     = spotify_calls (trace s)
       ++ EvCurrentUser :: EvPlaylistCreate (su_id user) name
          :: map EvSearch (map sq_search_query search_requests).
Proof.
  intros name CU PC Miss r.
  destruct (playlist_calls [] search_requests broadcaster_name s user w1 w2 pl CU PC)
    as [E C].
  split; [exact E|]. subst r. rewrite C, Miss. cbn. rewrite app_nil_r. reflexivity.
Qed.

End Creation.

Lemma playlist_calls_example :
  let songs := [{| dr_track_id := lit "abc123"; dr_user := PyNone; dr_redeemed_at := PyNone;
                   dr_status := PyNone; dr_original_input := PyNone;
                   dr_method := lit "direct_url" |}] in
  let searches := [{| sq_search_query := lit "please play freebird"; sq_user := PyNone;
                      sq_redeemed_at := PyNone; sq_status := PyNone |}] in
  let name := lit "somechannel" ++ lit " - Community Song Requests" in
  let r := @create_spotify_playlist (scripted happy) songs searches (lit "somechannel")
             (fresh happy) in
  fst r = Ok {| pl_id := lit "p1"; pl_name := name;
                pl_url := lit "https://open.spotify.com/playlist/p1" |}
  /\ spotify_calls (trace (snd r))
     = [] ++ EvCurrentUser :: EvPlaylistCreate (lit "me") name
          :: map EvSearch (map sq_search_query searches)
       ++ map (EvAddItems (lit "p1"))
              (batches (assemble songs (@search_hits (scripted happy) searches 0))).
Proof.
  intros songs searches name.
  apply (@playlist_calls_in_order (scripted happy) songs searches (lit "somechannel")
           (fresh happy) {| su_id := lit "me"; su_display_name := lit "Me" |} 0 0);
    reflexivity.
Defined.

Section Run_more.
Context `{Env}.

(** A failure of the Spotify session is not caught: when the fetch found
    requests and [sp.current_user()] raises, the run ends with that
    exception right there; no playlist is created and nothing is searched or
    added (lines 358-361 and 479-484). *)
Theorem spotify_session_failure_ends_the_run (w w1 w3 : World) (line login : str)
    (song_requests : list direct_request) (search_requests : list search_request)
    (s2 : state) (e : exn) :
  input w = (line, w1) ->
  strip line = login ->
  login <> [] ->
  get_song_requests_from_twitch login {| world := w1; trace := [Print MBanner; EvInput] |}
  = (Ok (FPair song_requests search_requests), s2) ->
  song_requests <> [] \/ search_requests <> [] ->
  sp_current_user (world s2) = (Raise e, w3) ->
  run main w
  = (Raise e, {| world := w3; trace := trace s2 ++ [Print MCreatingPlaylist; EvCurrentUser] |}).
Proof.
  intros I S N G Some CU.
  assert (C : forall name,
             create_spotify_playlist song_requests search_requests name s2
             = (Raise e, {| world := w3;
                            trace := trace s2 ++ [Print MCreatingPlaylist; EvCurrentUser] |})).
  { intros name. unfold create_spotify_playlist. rewrite bind_print, bind_call.
    cbn [world traced trace]. rewrite CU. cbn [fst snd]. rewrite <- app_assoc. reflexivity. }
  unfold run, main, bind, call_total, call, print, emit. cbn [world trace app].
  rewrite I, S. destruct login as [|c login]; [contradiction|].
  rewrite G. cbn [fetched_truthy negb].
  destruct song_requests, search_requests;
    [destruct Some; contradiction | | | ]; rewrite C; reflexivity.
Qed.

(** The fetch, when every step succeeds: the token of the flow is used for
    the three calls to Twitch, the redemptions are asked for under the id of
    the first reward that has the name, and what is returned is the
    classification of exactly those redemptions (lines 274-342). *)
Theorem fetch_classifies_the_redemptions (login : str) (s s2 : state) (o : TwitchOAuth)
    (broadcaster_id id : pyval) (w3 w4 w5 : World)
    (before after redemptions : list json) (reward : json) (name : str) :
  start_oauth_flow new_oauth (traced s [Print (MFetching login)]) = (Ok (o, true), s2) ->
  get_broadcaster_id (access_token o) login (world s2) = (Ok broadcaster_id, w3) ->
  truthy broadcaster_id = true ->
  get_custom_rewards (access_token o) broadcaster_id w3
  = (Ok (before ++ reward :: after), w4) ->
  Forall other_title before ->
  reward !! "title" = Some (PyStr name) ->
  lower name = lower REWARD_NAME ->
  reward !! "id" = Some id ->
  get_reward_redemptions (access_token o) broadcaster_id id w4 = (Ok redemptions, w5) ->
  let s5 := {| world := w5;
               trace := trace s2
                 ++ [EvGetBroadcasterId login; Print (MFoundBroadcaster broadcaster_id);
                     EvGetCustomRewards broadcaster_id;
                     Print (MFoundRewards (length (before ++ reward :: after)));
                     Print (MFoundReward (PyStr name) id); Print MFetchingRedemptions;
                     EvGetRedemptions broadcaster_id id;
                     Print (MFoundRedemptions (length redemptions))] |} in
  get_song_requests_from_twitch login s
  = match classify_all redemptions s5 with
    | (Ok requests, s6) =>
        (Ok (FPair (fst requests) (snd requests)),
         traced s6 [Print (MParsed (length (fst requests)));
                    Print (MNeedSearch (length (snd requests)))])
    | (Raise e, s6) => (Raise e, s6)
    end.
Proof.
  intros F B T R O Ti L Id Rd s5.
  unfold get_song_requests_from_twitch. rewrite bind_print.
  unfold bind at 1. rewrite F. cbn [snd fst negb].
  rewrite bind_call, B. cbn [fst snd]. rewrite T. cbn [negb].
  rewrite bind_print, bind_call. cbn [world traced trace]. rewrite R. cbn [fst snd].
  rewrite bind_print. unfold bind at 1.
  rewrite (find_reward_first before after reward name _ O Ti L).
  unfold bind at 1, getitem at 1. rewrite Ti. unfold ret at 1.
  unfold bind at 1, getitem at 1. rewrite Id. unfold ret at 1.
  rewrite !bind_print.
  unfold bind at 1, getitem at 1. rewrite Id. unfold ret at 1.
  rewrite bind_call. cbn [world traced trace]. rewrite Rd. cbn [fst snd].
  rewrite bind_print. unfold bind at 1.
  replace (traced _ [Print (MFoundRedemptions (length redemptions))]) with s5.
  2: { unfold s5, traced. cbn [world trace]. f_equal. repeat rewrite <- app_assoc. reflexivity. }
  destruct (classify_all redemptions s5) as [[requests|e] s6]; [|reflexivity].
  rewrite !bind_print. unfold ret. rewrite traced_traced. reflexivity.
Qed.

End Run_more.

Lemma spotify_session_failure_example :
  let offline : Env := {|
    World := nat;
    input := fun w => (lit "somechannel", w);
    today := fun _ => [];
    oauth_listen := fun self w => (Ok self, w);
    webbrowser_open := fun w => (Ok tt, w);
    sleep1 := fun self w =>
      ({| access_token := PyStr (lit "token"); refresh_token := PyNone;
          auth_code := PyNone |}, S w);
    runner_cleanup := fun self w => (self, w);
    get_broadcaster_id := fun _ _ w => (Ok (PyStr (lit "1234")), w);
    get_custom_rewards := fun _ _ w => (Ok [song_reward], w);
    get_reward_redemptions := fun _ _ _ w => (Ok scenario_1, w);
    sp_current_user := fun w => (Raise ServiceError, w);
    sp_user_playlist_create := fun _ _ _ w => (Raise ServiceError, w);
    sp_search := fun _ w => (Raise ServiceError, w);
    sp_playlist_add_items := fun _ _ w => (Raise ServiceError, w)
  |} in
  exists s2 : @state offline,
    @run offline _ (@main offline) 0
    = (Raise ServiceError,
       @Build_state offline 1 (@trace offline s2 ++ [Print MCreatingPlaylist; EvCurrentUser])).
Proof.
  intros offline. eexists.
  eapply (@spotify_session_failure_ends_the_run offline 0 0 1
            (lit "somechannel") (lit "somechannel")).
  - reflexivity.
  - reflexivity.
  - discriminate.
  - vm_compute. reflexivity.
  - left. discriminate.
  - reflexivity.
Defined.

Lemma fetch_example :
  let s2 := @Build_state (scripted happy) 3
              [Print (MFetching (lit "somechannel"));
               EvOAuthListen; Print MStartingOAuth; EvOpenBrowser;
               EvSleep; EvSleep; EvSleep; EvCleanup] in
  let s5 := @Build_state (scripted happy) 3
              (@trace (scripted happy) s2
               ++ [EvGetBroadcasterId (lit "somechannel");
                   Print (MFoundBroadcaster (PyStr (lit "1234")));
                   EvGetCustomRewards (PyStr (lit "1234"));
                   Print (MFoundRewards (length ([] ++ song_reward :: [])));
                   Print (MFoundReward (PyStr (lit "Song Request Bot")) (PyStr (lit "reward-1")));
                   Print MFetchingRedemptions;
                   EvGetRedemptions (PyStr (lit "1234")) (PyStr (lit "reward-1"));
                   Print (MFoundRedemptions (length scenario_1))]) in
  @get_song_requests_from_twitch (scripted happy) (lit "somechannel") (fresh happy)
  = match @classify_all (scripted happy) scenario_1 s5 with
    | (Ok requests, s6) =>
        (Ok (FPair (fst requests) (snd requests)),
         @traced (scripted happy) s6 [Print (MParsed (length (fst requests)));
                                      Print (MNeedSearch (length (snd requests)))])
    | (Raise e, s6) => (Raise e, s6)
    end.
Proof.
  intros s2 s5.
  apply (@fetch_classifies_the_redemptions (scripted happy) (lit "somechannel")
           (fresh happy) s2
           {| access_token := PyStr (lit "token"); refresh_token := PyNone;
              auth_code := PyStr (lit "code") |}
           (PyStr (lit "1234")) (PyStr (lit "reward-1"))
           3 3 3 [] [] scenario_1 song_reward (lit "Song Request Bot"));
    try (vm_compute; reflexivity).
  constructor.
Defined.

(** ** The callback handler *)

Section Callback.
Context `{TokenEndpoint}.

Lemma callback_rejected (params : gmap string str) (st : cb_state) :
  is_Some (params !! "error") \/ params !! "state" <> oo_state (cb_self st) ->
  exists reason,
    oauth_callback params st = (Ok {| wr_status := 400; wr_page := reason |}, st)
    /\ (reason = PageStateMismatch \/ exists d, reason = PageAuthorizationFailed d).
Proof.
  intros Bad. unfold oauth_callback.
  destruct (params !! "error") as [err|] eqn:E.
  - eexists. split; [reflexivity|]. right. eauto.
  - destruct Bad as [[? [=]] | Ne].
    rewrite bool_decide_eq_false_2 by exact Ne. cbn [negb].
    eexists. split; [reflexivity|]. left. reflexivity.
Qed.

(** A callback that reports an error, or whose [state] is not the one of
    the flow, is answered with status 400 and touches nothing: the object is
    as it was and nothing is posted to the token endpoint (lines 50-57). *)
Theorem rejected_callback_changes_nothing (params : gmap string str) (st : cb_state) :
  is_Some (params !! "error") \/ params !! "state" <> oo_state (cb_self st) ->
  exists reason,
    oauth_callback params st = (Ok {| wr_status := 400; wr_page := reason |}, st)
    /\ (reason = PageStateMismatch \/ exists d, reason = PageAuthorizationFailed d).
Proof. apply callback_rejected. Qed.

(** What [exchange_code_for_token] does to the tokens: nothing, unless the
    endpoint answers 200 with a JSON body, whose fields they then are. *)
Lemma exchange_tokens (st : cb_state) :
  let r := exchange_code_for_token st in
  (oo_fields (cb_self (snd r)) = oo_fields (cb_self st) /\ fst r <> Ok true)
  \/ exists response net token_data,
       session_post token_url (token_request (cb_self st)) (cb_net st) = (Ok response, net)
       /\ resp_status response = 200
       /\ resp_json response = Ok token_data
       /\ fst r = Ok true
       /\ access_token (oo_fields (cb_self (snd r))) = dict_get token_data "access_token" PyNone
       /\ refresh_token (oo_fields (cb_self (snd r))) = dict_get token_data "refresh_token" PyNone.
Proof.
  cbn zeta. unfold exchange_code_for_token.
  destruct (session_post token_url (token_request (cb_self st)) (cb_net st))
    as [[response|e] net] eqn:P.
  - destruct (Nat.eqb (resp_status response) 200) eqn:S.
    + destruct (resp_json response) as [token_data|e] eqn:J.
      * right. exists response, net, token_data. apply Nat.eqb_eq in S.
        split; [reflexivity|]. split; [exact S|]. split; [exact J|].
        repeat split; reflexivity.
      * left. split; [reflexivity | discriminate].
    + left. split; [reflexivity | discriminate].
  - left. split; [reflexivity | discriminate].
Qed.

(** The handler never gives the object a token of its own making: after a
    callback the two tokens are what they were, unless the callback reported
    no error, carried the [state] of the flow and a code, and the token
    endpoint, given that code, answered 200 with a JSON body; then they are
    the fields of that body and the answer is the success page
    (lines 46-105). *)
Theorem token_needs_valid_callback (params : gmap string str) (st : cb_state) :
  let r := oauth_callback params st in
  (access_token (oo_fields (cb_self (snd r))) = access_token (oo_fields (cb_self st))
   /\ refresh_token (oo_fields (cb_self (snd r))) = refresh_token (oo_fields (cb_self st))
   /\ fst r <> Ok {| wr_status := 200; wr_page := PageSuccess |})
  \/ (params !! "error" = None
      /\ params !! "state" = oo_state (cb_self st)
      /\ exists code response net token_data,
           params !! "code" = Some code
           /\ code <> []
           /\ session_post token_url (token_request (with_code (cb_self st) (PyStr code)))
                 (cb_net st)
              = (Ok response, net)
           /\ resp_status response = 200
           /\ resp_json response = Ok token_data
           /\ fst r = Ok {| wr_status := 200; wr_page := PageSuccess |}
           /\ access_token (oo_fields (cb_self (snd r)))
              = dict_get token_data "access_token" PyNone
           /\ refresh_token (oo_fields (cb_self (snd r)))
              = dict_get token_data "refresh_token" PyNone).
Proof.
  cbn zeta. unfold oauth_callback.
  destruct (params !! "error") as [err|] eqn:E.
  { left. repeat split; discriminate. }
  destruct (bool_decide_reflect (params !! "state" = oo_state (cb_self st))) as [St|St];
    cbn [negb].
  2: { left. repeat split; discriminate. }
  unfold param. destruct (params !! "code") as [[|c code]|] eqn:C; cbn [truthy negb].
  1, 3: left; repeat split; discriminate.
  match goal with |- context [exchange_code_for_token ?t] =>
    destruct (exchange_tokens t) as [[Same Not] | X];
    destruct (exchange_code_for_token t) as [[[]|e] st2] eqn:X2 end;
    cbn [fst snd cb_self cb_net] in *.
  - contradiction.
  - left. rewrite Same. repeat split; discriminate.
  - left. rewrite Same. repeat split; discriminate.
  - destruct X as (response & net & token_data & P & S & J & _ & A & R).
    right. split; [reflexivity|]. split; [exact St|].
    exists (c :: code), response, net, token_data.
    repeat split; try assumption; discriminate.
  - destruct X as (? & ? & ? & _ & _ & _ & [=] & _).
  - destruct X as (? & ? & ? & _ & _ & _ & [=] & _).
Qed.

(** The success page is no proof of a token: when the endpoint answers 200
    with a body that has no [access_token], the browser is shown the success
    page and the object holds no token, so the flow goes on waiting
    (lines 96-101 and 68-79). *)
Theorem success_page_without_token (params : gmap string str) (st : cb_state)
    (code : str) (response : token_response) (net : Net) (token_data : json) :
  params !! "error" = None ->
  params !! "state" = oo_state (cb_self st) ->
  params !! "code" = Some code ->
  code <> [] ->
  session_post token_url (token_request (with_code (cb_self st) (PyStr code))) (cb_net st)
  = (Ok response, net) ->
  resp_status response = 200 ->
  resp_json response = Ok token_data ->
  token_data !! "access_token" = None ->
  let r := oauth_callback params st in
  fst r = Ok {| wr_status := 200; wr_page := PageSuccess |}
  /\ truthy (access_token (oo_fields (cb_self (snd r)))) = false.
Proof.
  intros E St C Ne P S J A. cbn zeta. unfold oauth_callback.
  rewrite E, bool_decide_eq_true_2 by exact St. cbn [negb]. unfold param. rewrite C.
  destruct code as [|c code]; [contradiction|]. cbn [truthy negb].
  unfold exchange_code_for_token. cbn [cb_self cb_net].
  rewrite P, S. change (Nat.eqb 200 200) with true. cbn iota.
  rewrite J. cbn [fst snd cb_self oo_fields with_fields access_token].
  unfold dict_get. rewrite A. split; reflexivity.
Qed.

(** A valid callback that the endpoint answers with 200 and a JSON body:
    the object gets the code and the two fields of the body. *)
Lemma callback_granted (params : gmap string str) (st : cb_state)
    (code : str) (response : token_response) (net : Net) (token_data : json) :
  params !! "error" = None ->
  params !! "state" = oo_state (cb_self st) ->
  params !! "code" = Some code ->
  code <> [] ->
  session_post token_url (token_request (with_code (cb_self st) (PyStr code))) (cb_net st)
  = (Ok response, net) ->
  resp_status response = 200 ->
  resp_json response = Ok token_data ->
  oauth_callback params st
  = (Ok {| wr_status := 200; wr_page := PageSuccess |},
     {| cb_self :=
          with_fields (cb_self st)
            {| access_token := dict_get token_data "access_token" PyNone;
               refresh_token := dict_get token_data "refresh_token" PyNone;
               auth_code := PyStr code |};
        cb_net := net;
        cb_log := (cb_log st ++ [CbPost token_url (token_request (with_code (cb_self st) (PyStr code)))])
                  ++ [CbPrint LineObtainedToken] |}).
Proof.
  intros E St C Ne P S J. unfold oauth_callback.
  rewrite E, bool_decide_eq_true_2 by exact St. cbn [negb]. unfold param. rewrite C.
  destruct code as [|c code]; [contradiction|]. cbn [truthy negb].
  unfold exchange_code_for_token. cbn [cb_self cb_net cb_log].
  rewrite P, S. change (Nat.eqb 200 200) with true. cbn iota.
  rewrite J. reflexivity.
Qed.


End Callback.

(** ** The Twitch API *)

Section Api.
Context `{Helix}.

Import TwitchAPI.

Lemma fetch_pages_step (fuel : nat) (h : headers) (params : json)
    (all_redemptions : list json) (net : HNet) (log : list request) :
  fetch_pages (S fuel) h params all_redemptions {| api_net := net; api_log := log |}
  = match session_get redemptions_url h params net with
    | (Raise e, net') =>
        Some (Raise e, {| api_net := net'; api_log := log ++ [request_of h params] |})
    | (Ok data, net') =>
        if truthy (cursor_of data) then
          fetch_pages fuel h (<["after" := cursor_of data]> params)
            (all_redemptions ++ items data)
            {| api_net := net'; api_log := log ++ [request_of h params] |}
        else
          Some (Ok (all_redemptions ++ items data),
                {| api_net := net'; api_log := log ++ [request_of h params] |})
    end.
Proof.
  cbn [fetch_pages]. unfold get. cbn [api_net api_log].
  destruct (session_get redemptions_url h params net) as [[data|e] net']; reflexivity.
Qed.

(** The pagination loop gathers what the server holds: all pages, in
    order, after what was gathered before. *)
Lemma fetch_pages_gathers (h : headers) (params : json) (net net' : HNet)
    (pages : list (list json)) (asked : list json) :
  serves h params net pages asked net' ->
  forall fuel all_redemptions log,
    length pages <= fuel ->
    fetch_pages fuel h params all_redemptions {| api_net := net; api_log := log |}
    = Some (Ok (all_redemptions ++ concat pages),
            {| api_net := net'; api_log := log ++ map (request_of h) asked |}).
Proof.
  induction 1 as [params net body net' G C | params net body net' pages asked net'' G C _ IH];
    intros [|fuel] all_redemptions log L; simpl in L; try lia;
    rewrite fetch_pages_step, G, C.
  - cbn [concat map]. rewrite app_nil_r. reflexivity.
  - rewrite IH by lia. cbn [concat map]. rewrite <- !app_assoc. reflexivity.
Qed.

Lemma serves_asks_first (h : headers) (params : json) (net net' : HNet)
    (pages : list (list json)) (asked : list json) :
  serves h params net pages asked net' ->
  exists more, asked = params :: more /\ length asked = length pages.
Proof.
  induction 1 as [| ? ? ? ? ? ? ? ? ? ? (more & -> & L)]; eexists; split; try reflexivity.
  simpl in *. lia.
Qed.

(** [get_reward_redemptions] returns everything the server holds: for each
    status in the order given, all its pages in the order served.  With
    enough fuel for the longest chain of pages it returns; it makes one
    request per page, and the first request for a status carries no cursor
    of the status before (lines 202-238). *)
Theorem redemptions_are_all_pages (self : t) (broadcaster_id reward_id : pyval)
    (given : option (list str)) (net net' : HNet) (pagess : list (list (list json)))
    (asked : list json) (fuel : nat) (log : list request) :
  let statuses := default default_statuses given in
  serves_all self broadcaster_id reward_id statuses net pagess asked net' ->
  Forall (fun pages => length pages <= fuel) pagess ->
  get_reward_redemptions fuel self broadcaster_id reward_id given
    {| api_net := net; api_log := log |}
  = Some (Ok (concat (map (fun pages => concat pages) pagess)),
          {| api_net := net'; api_log := log ++ map (request_of (headers_of self)) asked |})
  /\ length asked = length (concat pagess).
Proof.
  intros statuses S F. unfold get_reward_redemptions.
  replace (match given with None => default_statuses | Some l => l end) with statuses
    by (destruct given; reflexivity).
  clearbody statuses.
  enough (X : forall all_redemptions log,
             fetch_statuses fuel self broadcaster_id reward_id statuses all_redemptions
               {| api_net := net; api_log := log |}
             = Some (Ok (all_redemptions ++ concat (map (fun pages => concat pages) pagess)),
                     {| api_net := net';
                        api_log := log ++ map (request_of (headers_of self)) asked |})
             /\ length asked = length (concat pagess)).
  { exact (X [] log). }
  clear log. induction S as [net | status rest net pages asked net' pagess asked' net'' P _ IH];
    intros all_redemptions log.
  - cbn. rewrite !app_nil_r. split; reflexivity.
  - apply Forall_cons in F as [Lp F]. cbn [fetch_statuses map concat].
    rewrite (fetch_pages_gathers _ _ _ _ _ _ P fuel all_redemptions log Lp).
    destruct (IH F (all_redemptions ++ concat pages)
                (log ++ map (request_of (headers_of self)) asked)) as [-> La].
    destruct (serves_asks_first _ _ _ _ _ _ P) as (_ & _ & Lq).
    rewrite map_app, <- !app_assoc, !length_app, La, Lq. split; reflexivity.
Qed.

(** Nothing bounds the pages: against a server that always hands out a
    cursor the loop never ends, whatever fuel it is given (lines 225-236). *)
Theorem endless_cursor_never_returns (self : t) (broadcaster_id reward_id : pyval)
    (status : str) (rest : list str) :
  (forall params net, exists body net',
      session_get redemptions_url (headers_of self) params net = (Ok body, net')
      /\ truthy (cursor_of body) = true) ->
  forall fuel st,
    get_reward_redemptions fuel self broadcaster_id reward_id (Some (status :: rest)) st = None.
Proof.
  intros Endless fuel st. unfold get_reward_redemptions. cbn [fetch_statuses].
  enough (X : forall params all_redemptions st,
             fetch_pages fuel (headers_of self) params all_redemptions st = None).
  { rewrite X. reflexivity. }
  clear st. induction fuel as [|fuel IH]; intros params all_redemptions [net log];
    [reflexivity|].
  rewrite fetch_pages_step.
  destruct (Endless params net) as (body & net' & -> & ->). apply IH.
Qed.

(** [get_broadcaster_id] answers with the id of the first user listed, and
    with [None] when the answer has no [data] or an empty one; it raises
    [KeyError] when the first user has no [id] (lines 181-185). *)
Theorem broadcaster_id_is_the_first_user (self : t) (login : str) (st : api_state)
    (body : helix_body) (net' : HNet) :
  session_get (base_url ++ lit "/users") (headers_of self) {[ "login" := PyStr login ]}
    (api_net st)
  = (Ok body, net') ->
  fst (get_broadcaster_id self login st)
  = match hb_data body with
    | Some (user :: _) =>
        match user !! "id" with
        | Some id => Ok id
        | None => Raise (KeyError "id")
        end
    | _ => Ok PyNone
    end.
Proof.
  intros G. unfold get_broadcaster_id, get. rewrite G.
  destruct (hb_data body) as [[|user others]|]; try reflexivity.
  destruct (user !! "id"); reflexivity.
Qed.

End Api.

(** *** The callback handler and the API at work *)

Lemma forged_callback_example :
  let E := fixed_endpoint (Ok granted) in
  let params : gmap string str := {[ "state" := lit "guess"; "code" := lit "c0de" ]} in
  exists reason,
    @oauth_callback E params (waiting E tt (lit "s3cret"))
    = (Ok {| wr_status := 400; wr_page := reason |}, waiting E tt (lit "s3cret"))
    /\ (reason = PageStateMismatch \/ exists d, reason = PageAuthorizationFailed d).
Proof.
  intros E params.
  apply (@rejected_callback_changes_nothing E params (waiting E tt (lit "s3cret"))).
  right. vm_compute. discriminate.
Defined.

(** A valid callback, answered by the endpoint with both tokens. *)
Example valid_callback :
  let E := fixed_endpoint (Ok granted) in
  let params : gmap string str := {[ "state" := lit "s3cret"; "code" := lit "c0de" ]} in
  let r := @oauth_callback E params (waiting E tt (lit "s3cret")) in
  fst r = Ok {| wr_status := 200; wr_page := PageSuccess |}
  /\ oo_fields (@cb_self E (snd r))
     = {| access_token := PyStr (lit "tok"); refresh_token := PyStr (lit "ref");
          auth_code := PyStr (lit "c0de") |}.
Proof. vm_compute. split; reflexivity. Qed.

Lemma success_page_without_token_example :
  let E := fixed_endpoint (Ok granted_nothing) in
  let params : gmap string str := {[ "state" := lit "s3cret"; "code" := lit "c0de" ]} in
  let r := @oauth_callback E params (waiting E tt (lit "s3cret")) in
  fst r = Ok {| wr_status := 200; wr_page := PageSuccess |}
  /\ truthy (access_token (oo_fields (@cb_self E (snd r)))) = false.
Proof.
  intros E params.
  apply (@success_page_without_token E params (waiting E tt (lit "s3cret")) (lit "c0de")
           granted_nothing tt ∅); try reflexivity. discriminate.
Defined.

Lemma two_pages_example :
  exists st',
    @TwitchAPI.get_reward_redemptions two_pages 2 api (PyStr (lit "1234"))
      (PyStr (lit "reward-1")) None (@Build_api_state two_pages tt [])
    = Some (Ok [redemption_of "first"; redemption_of "second"], st').
Proof.
  edestruct (@redemptions_are_all_pages two_pages api (PyStr (lit "1234"))
               (PyStr (lit "reward-1")) None tt) with (fuel := 2) (log := @nil request)
    as [E _].
  - cbn [default TwitchAPI.default_statuses].
    eapply TwitchAPI.serves_status; [|eapply TwitchAPI.serves_status; [|
      eapply TwitchAPI.serves_status; [|apply TwitchAPI.serves_none]]].
    + eapply (@TwitchAPI.serves_last two_pages); reflexivity.
    + eapply (@TwitchAPI.serves_next two_pages); [reflexivity | reflexivity |].
      eapply (@TwitchAPI.serves_last two_pages); reflexivity.
    + eapply (@TwitchAPI.serves_last two_pages); reflexivity.
  - repeat (constructor; [cbn; lia|]). constructor.
  - eexists. exact E.
Defined.

Lemma endless_example :
  @TwitchAPI.get_reward_redemptions endless 1000 api (PyStr (lit "1234"))
    (PyStr (lit "reward-1")) (Some [lit "FULFILLED"]) (@Build_api_state endless tt [])
  = None.
Proof.
  apply (@endless_cursor_never_returns endless).
  intros params net. eexists. exists net. split; reflexivity.
Defined.

Lemma broadcaster_id_example :
  let users : Helix := {|
    HNet := unit;
    session_get := fun _ _ _ net =>
      (Ok {| hb_data := Some [{[ "id" := PyStr (lit "1234") ]}; {[ "id" := PyStr (lit "5678") ]}];
             hb_pagination := None |}, net) |} in
  fst (@TwitchAPI.get_broadcaster_id users api (lit "somechannel") (@Build_api_state users tt []))
  = Ok (PyStr (lit "1234")).
Proof.
  intros users. etransitivity.
  { apply (@broadcaster_id_is_the_first_user users api (lit "somechannel")
             (@Build_api_state users tt [])
             {| hb_data := Some [{[ "id" := PyStr (lit "1234") ]}; {[ "id" := PyStr (lit "5678") ]}];
                hb_pagination := None |} tt).
    reflexivity. }
  vm_compute. reflexivity.
Defined.

(** ** The flow and its handler together *)

Section Listening.
Context (base : Env) (E : TokenEndpoint) (config : oauth_object)
        (arrivals : nat -> option (gmap string str)) (latency : nat -> nat) (grace : nat).

Local Abbreviation here := (with_listener base E config arrivals latency grace).

Lemma after_sleeps_last (n : nat) (self : TwitchOAuth) (w : @World here) :
  @after_sleeps here (S n) self w
  = @sleep1 here (fst (@after_sleeps here n self w)) (snd (@after_sleeps here n self w)).
Proof.
  revert self w. induction n as [|n IH]; intros self w.
  - cbn [after_sleeps fst snd]. destruct (@sleep1 here self w). reflexivity.
  - rewrite (@after_sleeps_S here (S n)), IH, <- (@after_sleeps_S here n). reflexivity.
Qed.

Lemma after_sleeps_add (a b : nat) (self : TwitchOAuth) (w : @World here) :
  @after_sleeps here (a + b) self w
  = @after_sleeps here b (fst (@after_sleeps here a self w))
      (snd (@after_sleeps here a self w)).
Proof.
  revert self w. induction a as [|a IH]; intros self w; [reflexivity|].
  cbn [Nat.add]. rewrite !(@after_sleeps_S here). apply IH.
Qed.

(** Handlers whose answer is not in yet are left waiting. *)
Lemma land_due_waiting (t : nat) (flights : list flight) (self : oauth_object)
    (log : list cb_event) :
  Forall (fun f => t < fl_due f) flights ->
  land_due t flights self log = (self, log, flights).
Proof.
  induction 1 as [|f rest Late _ IH]; cbn [land_due]; [reflexivity|].
  rewrite (proj2 (Nat.leb_gt _ _) Late), IH. reflexivity.
Qed.

(** The first step of a callback that is turned away changes nothing. *)
Lemma forged_begins (params : gmap string str) (self : oauth_object) :
  forged config params ->
  oo_state self = oo_state config ->
  exists response, callback_begins params self = (Returned response, self).
Proof.
  unfold callback_begins, forged. intros F St.
  destruct (params !! "error"); [eauto|]. destruct F as [[x [=]] | Ne].
  rewrite bool_decide_eq_false_2 by (rewrite St; exact Ne). cbn [negb]. eauto.
Qed.

(** The first step of a callback that carries the [state] of the flow and
    a code: the code is stored and the request posted. *)
Lemma valid_begins (params : gmap string str) (self : oauth_object) (code : str) :
  params !! "error" = None ->
  params !! "state" = oo_state self ->
  params !! "code" = Some code ->
  code <> [] ->
  callback_begins params self
  = (Posting (token_request (with_code self (PyStr code))), with_code self (PyStr code)).
Proof.
  intros Er St Co Ne. unfold callback_begins, param. rewrite Er, Co.
  rewrite bool_decide_eq_true_2 by exact St. cbn [negb].
  destruct code; [congruence | reflexivity].
Qed.

(** The second step on an answer 200 with a JSON body. *)
Lemma granted_ends (response : token_response) (token_data : json) (self : oauth_object) :
  resp_status response = 200 ->
  resp_json response = Ok token_data ->
  callback_ends (Ok response) self
  = (Ok {| wr_status := 200; wr_page := PageSuccess |},
     with_fields self
       {| access_token := dict_get token_data "access_token" PyNone;
          refresh_token := dict_get token_data "refresh_token" PyNone;
          auth_code := auth_code (oo_fields self) |},
     [LineObtainedToken]).
Proof. intros Hs J. unfold callback_ends. rewrite Hs, J. reflexivity. Qed.

(** A second in which no answer is due and the callback, if one comes, is
    turned away. *)
Lemma idle_second (self : TwitchOAuth) (l : @listener E) :
  Forall (fun f => S (li_clock l) < fl_due f) (li_flights l) ->
  (forall params, arrivals (S (li_clock l)) = Some params -> forged config params) ->
  second config arrivals latency self l
  = (self, {| li_clock := S (li_clock l); li_net := li_net l; li_log := li_log l;
              li_flights := li_flights l |}).
Proof.
  intros Late Idle. unfold second. rewrite land_due_waiting by exact Late.
  destruct (arrivals (S (li_clock l))) as [params|]; [|reflexivity].
  destruct (forged_begins params (with_fields config self) (Idle params eq_refl) eq_refl)
    as [response ->].
  reflexivity.
Qed.

(** Seconds in which no answer is due and every callback is turned away,
    or none comes, leave the object as it is and nothing posted. *)
Lemma idle_after_sleeps (n : nat) (self : TwitchOAuth) (w : @World here) :
  Forall (fun f => li_clock (snd w) + n < fl_due f) (li_flights (snd w)) ->
  (forall j params, 1 <= j <= n -> arrivals (li_clock (snd w) + j) = Some params ->
     forged config params) ->
  @after_sleeps here n self w = (self, ticked n (li_flights (snd w)) w).
Proof.
  induction n as [|n IH]; intros Late Idle.
  - unfold ticked. cbn [after_sleeps]. rewrite Nat.add_0_r. destruct w as [b []]. reflexivity.
  - rewrite after_sleeps_last, IH;
      [| eapply Forall_impl; [exact Late | cbn; intros; lia]
       | intros j params Hj; apply Idle; lia ].
    cbn [fst snd sleep1 with_listener]. rewrite idle_second.
    + unfold ticked. cbn [fst snd li_clock li_net li_log li_flights].
      repeat f_equal; lia.
    + cbn [ticked snd li_clock li_flights].
      eapply Forall_impl; [exact Late | cbn; intros; lia].
    + cbn [ticked snd li_clock]. intros params A. apply (Idle (S n) params); [lia|].
      rewrite <- A. f_equal. lia.
Qed.

(** Callbacks that report an error or do not carry the [state] of the
    flow never authorize it: however many arrive during the wait, the flow
    sleeps its 120 seconds and returns failure, the object is untouched and
    nothing was posted to the token endpoint (lines 50-57 and 144-158). *)
Theorem forged_callbacks_never_authorize (self : TwitchOAuth) (s : @state here) :
  (forall t params, arrivals t = Some params -> forged config params) ->
  truthy (access_token self) = false ->
  let r := @start_oauth_flow here self s in
  fst r = Ok (self, false)
  /\ sleeps (@trace here (snd r)) = sleeps (@trace here s) + 120
  /\ li_log (snd (@world here (snd r))) = li_log (snd (@world here s)).
Proof.
  intros Forged No r.
  destruct (@start_oauth_flow_runs here self self s (listened (@world here s))
              (listened (@world here s)) eq_refl eq_refl) as (k & Lk & _ & At & R).
  assert (Idle : forall n, @after_sleeps here n self (listened (@world here s))
                           = (self, ticked n [] (listened (@world here s)))).
  { intros n. apply (idle_after_sleeps n self (listened (@world here s))).
    - constructor.
    - intros j params _. apply Forged. }
  unfold timeout in *. assert (k = 120) as ->.
  { destruct (decide (k < 120)) as [Lt|]; [|lia].
    destruct (At Lt) as [_ T]. unfold token_after in T. rewrite Idle in T.
    cbn [fst] in T. congruence. }
  subst r. cbn zeta in R. rewrite R, Idle. cbn [fst snd runner_cleanup with_listener].
  unfold closing. cbn [ticked listened snd li_flights land_due oo_fields with_fields fst].
  rewrite No. cbn [fst snd trace world li_log]. split; [reflexivity|]. split; [|reflexivity].
  rewrite !sleeps_app, sleeps_replicate. simpl. lia.
Qed.

(** A second in which no answer is due and a callback comes that carries
    the [state] of the flow and a code: the code is stored, the request
    posted, and the answer handled at once or left to arrive. *)
Lemma valid_second (self : TwitchOAuth) (l : @listener E) (params : gmap string str)
    (code : str) (answer : result token_response) (net : @Net E) :
  Forall (fun f => S (li_clock l) < fl_due f) (li_flights l) ->
  arrivals (S (li_clock l)) = Some params ->
  params !! "error" = None ->
  params !! "state" = oo_state config ->
  params !! "code" = Some code ->
  code <> [] ->
  session_post token_url (token_request (with_code (with_fields config self) (PyStr code)))
    (li_net l)
  = (answer, net) ->
  second config arrivals latency self l
  = let self1 := with_code (with_fields config self) (PyStr code) in
    let log1 := li_log l ++ [CbPost token_url (token_request self1)] in
    match latency (S (li_clock l)) with
    | 0 =>
        let '(_, self2, lines) := callback_ends answer self1 in
        (oo_fields self2,
         {| li_clock := S (li_clock l); li_net := net; li_log := log1 ++ map CbPrint lines;
            li_flights := li_flights l |})
    | S d =>
        (oo_fields self1,
         {| li_clock := S (li_clock l); li_net := net; li_log := log1;
            li_flights := li_flights l
                          ++ [{| fl_due := S (li_clock l) + S d; fl_answer := answer |}] |})
    end.
Proof.
  intros Late A Er St Co Ne P. unfold second. rewrite land_due_waiting by exact Late.
  rewrite A, (valid_begins params (with_fields config self) code Er St Co Ne), P.
  reflexivity.
Qed.

(** The second in which the one answer awaited is in, and the callback, if
    one comes, is turned away. *)
Lemma landing_second (self : TwitchOAuth) (l : @listener E) (f : flight)
    (response : token_response) (token_data : json) :
  li_flights l = [f] ->
  fl_due f = S (li_clock l) ->
  fl_answer f = Ok response ->
  resp_status response = 200 ->
  resp_json response = Ok token_data ->
  (forall params, arrivals (S (li_clock l)) = Some params -> forged config params) ->
  second config arrivals latency self l
  = ({| access_token := dict_get token_data "access_token" PyNone;
        refresh_token := dict_get token_data "refresh_token" PyNone;
        auth_code := auth_code self |},
     {| li_clock := S (li_clock l); li_net := li_net l;
        li_log := li_log l ++ [CbPrint LineObtainedToken]; li_flights := [] |}).
Proof.
  intros Fl Due An Hs J Idle. unfold second. rewrite Fl. cbn [land_due].
  rewrite Due, Nat.leb_refl, An, (granted_ends response token_data _ Hs J).
  cbn [map oo_fields with_fields].
  destruct (arrivals (S (li_clock l))) as [params|]; [|reflexivity].
  match goal with |- context [callback_begins params ?o] =>
    destruct (forged_begins params o (Idle params eq_refl) eq_refl) as [r ->] end.
  reflexivity.
Qed.

Section One_valid_callback.
Variables (self : TwitchOAuth) (w : @World here) (k : nat) (params : gmap string str)
          (code : str) (response : token_response) (net : @Net E).
Hypothesis Fresh : li_flights (snd w) = [].
Hypothesis Before : forall j other,
  1 <= j <= k -> arrivals (li_clock (snd w) + j) = Some other -> forged config other.
Hypothesis Arrives : arrivals (li_clock (snd w) + S k) = Some params.
Hypothesis Er : params !! "error" = None.
Hypothesis St : params !! "state" = oo_state config.
Hypothesis Co : params !! "code" = Some code.
Hypothesis Ne : code <> [].
Hypothesis Posted :
  session_post token_url (token_request (with_code (with_fields config self) (PyStr code)))
    (li_net (snd w))
  = (Ok response, net).

(** Until the callback comes nothing happens. *)
Lemma before_arrival (n : nat) :
  n <= k -> @after_sleeps here n self w = (self, ticked n [] w).
Proof.
  intros Ln. rewrite <- Fresh. apply idle_after_sleeps.
  - rewrite Fresh. constructor.
  - intros j other Hj. apply Before. lia.
Qed.

(** The second of the callback, when the endpoint answers at once. *)
Lemma arrival_answered_at_once (token_data : json) :
  latency (li_clock (snd w) + S k) = 0 ->
  resp_status response = 200 ->
  resp_json response = Ok token_data ->
  fst (@after_sleeps here (S k) self w)
  = {| access_token := dict_get token_data "access_token" PyNone;
       refresh_token := dict_get token_data "refresh_token" PyNone;
       auth_code := PyStr code |}
  /\ li_flights (snd (snd (@after_sleeps here (S k) self w))) = [].
Proof.
  intros Now Hs J. rewrite after_sleeps_last, (before_arrival k) by lia.
  cbn [fst snd sleep1 with_listener].
  rewrite (valid_second self (snd (ticked k [] w)) params code (Ok response) net);
    cbn [ticked snd li_clock li_flights li_net]; try assumption.
  - replace (S (li_clock (snd w) + k)) with (li_clock (snd w) + S k) by lia.
    rewrite Now. cbn zeta. rewrite (granted_ends response token_data _ Hs J).
    split; reflexivity.
  - constructor.
  - rewrite <- Arrives. f_equal. lia.
Qed.

(** The second of the callback, when the endpoint takes [S d] seconds: the
    code is stored and the handler waits. *)
Lemma arrival_posted (d : nat) :
  latency (li_clock (snd w) + S k) = S d ->
  @after_sleeps here (S k) self w
  = ({| access_token := access_token self; refresh_token := refresh_token self;
        auth_code := PyStr code |},
     (fst w,
      {| li_clock := li_clock (snd w) + S k; li_net := net;
         li_log := li_log (snd w)
                   ++ [CbPost token_url
                         (token_request (with_code (with_fields config self) (PyStr code)))];
         li_flights := [{| fl_due := li_clock (snd w) + S k + S d;
                           fl_answer := Ok response |}] |})).
Proof.
  intros Later. rewrite after_sleeps_last, (before_arrival k) by lia.
  cbn [fst snd sleep1 with_listener].
  rewrite (valid_second self (snd (ticked k [] w)) params code (Ok response) net);
    cbn [ticked snd li_clock li_flights li_net li_log]; try assumption.
  - replace (S (li_clock (snd w) + k)) with (li_clock (snd w) + S k) by lia.
    rewrite Later. reflexivity.
  - constructor.
  - rewrite <- Arrives. f_equal. lia.
Qed.

(** While the handler waits the object holds the code and the old tokens. *)
Lemma while_waiting (d m : nat) :
  latency (li_clock (snd w) + S k) = S d ->
  m <= d ->
  (forall j other, S k < j <= S k + m -> arrivals (li_clock (snd w) + j) = Some other ->
     forged config other) ->
  @after_sleeps here (S k + m) self w
  = ({| access_token := access_token self; refresh_token := refresh_token self;
        auth_code := PyStr code |},
     (fst w,
      {| li_clock := li_clock (snd w) + S k + m; li_net := net;
         li_log := li_log (snd w)
                   ++ [CbPost token_url
                         (token_request (with_code (with_fields config self) (PyStr code)))];
         li_flights := [{| fl_due := li_clock (snd w) + S k + S d;
                           fl_answer := Ok response |}] |})).
Proof.
  intros Later Lm After. rewrite after_sleeps_add, (arrival_posted d Later).
  cbn [fst snd]. rewrite idle_after_sleeps; cbn [snd li_clock li_flights].
  - reflexivity.
  - repeat constructor. cbn [fl_due]. lia.
  - intros j other Hj A. apply (After (S k + j)); [lia|]. rewrite <- A. f_equal. lia.
Qed.

(** The second in which the answer is in. *)
Lemma answer_lands (d : nat) (token_data : json) :
  latency (li_clock (snd w) + S k) = S d ->
  resp_status response = 200 ->
  resp_json response = Ok token_data ->
  (forall j other, S k < j <= S k + S d -> arrivals (li_clock (snd w) + j) = Some other ->
     forged config other) ->
  fst (@after_sleeps here (S k + S d) self w)
  = {| access_token := dict_get token_data "access_token" PyNone;
       refresh_token := dict_get token_data "refresh_token" PyNone;
       auth_code := PyStr code |}
  /\ li_flights (snd (snd (@after_sleeps here (S k + S d) self w))) = [].
Proof.
  intros Later Hs J After.
  replace (S k + S d) with (S (S k + d)) by lia.
  rewrite after_sleeps_last, (while_waiting d d Later);
    [| lia | intros j other Hj; apply After; lia].
  cbn [fst snd sleep1 with_listener].
  rewrite (landing_second _ _ {| fl_due := li_clock (snd w) + S k + S d;
                                   fl_answer := Ok response |} response token_data);
    cbn [li_flights li_clock fl_due fl_answer];
    [split; reflexivity | reflexivity | lia | reflexivity | exact Hs | exact J |].
  intros other A. apply (After (S k + S d)); [lia|]. rewrite <- A. f_equal. lia.
Qed.

End One_valid_callback.

(** With no handler waiting, the cleanup changes nothing. *)
Lemma closing_nothing (self : TwitchOAuth) (l : @listener E) :
  li_flights l = [] -> fst (closing config grace self l) = self.
Proof. intros Fl. unfold closing. rewrite Fl. reflexivity. Qed.

(** The first valid callback authorizes the flow: when it arrives in
    second [k] of the wait, the token endpoint takes [d] seconds to answer
    its code with 200 and a token that is not empty, and the wait lasts
    that long, the flow polls in vain [k + d - 1] times, sees the token at
    poll [k + d], stops waiting there and returns success, the object
    holding that token (lines 46-105 and 144-158). *)
Theorem valid_callback_authorizes (self : TwitchOAuth) (s : @state here) (k : nat)
    (params : gmap string str) (code : str) (response : token_response) (net : @Net E)
    (token_data : json) (token : pyval) :
  let l := snd (@world here s) in
  let d := latency (li_clock l + k) in
  1 <= k ->
  k + d <= 120 ->
  (forall j other, 1 <= j <= k + d -> j <> k -> arrivals (li_clock l + j) = Some other ->
     forged config other) ->
  arrivals (li_clock l + k) = Some params ->
  params !! "error" = None ->
  params !! "state" = oo_state config ->
  params !! "code" = Some code ->
  code <> [] ->
  session_post token_url (token_request (with_code (with_fields config self) (PyStr code)))
    (li_net l)
  = (Ok response, net) ->
  resp_status response = 200 ->
  resp_json response = Ok token_data ->
  token_data !! "access_token" = Some token ->
  truthy token = true ->
  truthy (access_token self) = false ->
  let r := @start_oauth_flow here self s in
  exists o,
    fst r = Ok (o, true)
    /\ access_token o = token
    /\ sleeps (@trace here (snd r)) = sleeps (@trace here s) + (k + d).
Proof.
  intros l d Hk Hd Others Arrives Er St Co Ne P Hs J Tk Tt No r. subst l.
  destruct k as [|k]; [lia|].
  set (w0 := listened (@world here s)).
  set (o := {| access_token := dict_get token_data "access_token" PyNone;
               refresh_token := dict_get token_data "refresh_token" PyNone;
               auth_code := PyStr code |}).
  assert (To : access_token o = token).
  { unfold o, dict_get. cbn [access_token]. rewrite Tk. reflexivity. }
  assert (Before : forall j other, 1 <= j <= k ->
            arrivals (li_clock (snd w0) + j) = Some other -> forged config other).
  { intros j other Hj. apply Others; lia. }
  assert (Quiet : forall n, n < S k + d ->
            truthy (access_token (fst (@after_sleeps here n self w0))) = false).
  { intros n Ln. destruct (le_lt_dec n k) as [Le | Gt].
    - rewrite (before_arrival self w0 k eq_refl Before n Le). exact No.
    - destruct d as [|d'] eqn:Ed; [lia|].
      replace n with (S k + (n - S k)) by lia.
      rewrite (while_waiting self w0 k params code response net eq_refl Before Arrives
                 Er St Co Ne P d' (n - S k) Ed); [exact No | lia |].
      intros j other Hj. apply Others; lia. }
  assert (Land : fst (@after_sleeps here (S k + d) self w0) = o
                 /\ li_flights (snd (snd (@after_sleeps here (S k + d) self w0))) = []).
  { destruct d as [|d'] eqn:Ed.
    - rewrite Nat.add_0_r.
      apply (arrival_answered_at_once self w0 k params code response net eq_refl Before
               Arrives Er St Co Ne P token_data Ed Hs J).
    - apply (answer_lands self w0 k params code response net eq_refl Before Arrives
               Er St Co Ne P d' token_data Ed Hs J).
      intros j other Hj. apply Others; lia. }
  destruct (@start_oauth_flow_runs here self self s w0 w0 eq_refl eq_refl)
    as (k' & Lk & Bf & At & R).
  unfold timeout, token_after in *. assert (k' = S k + d) as ->.
  { destruct (lt_eq_lt_dec k' (S k + d)) as [[Lt | ->] | Gt]; [| reflexivity |].
    - destruct (At ltac:(lia)) as [_ T]. rewrite (Quiet k' Lt) in T. discriminate.
    - specialize (Bf (S k + d) ltac:(lia)). rewrite (proj1 Land), To in Bf. congruence. }
  exists o. subst r. cbn zeta in R. rewrite R. clear R.
  destruct (@after_sleeps here (S k + d) self w0) as [o' [b l']].
  cbn [fst snd] in Land. destruct Land as [-> Fl].
  cbn [runner_cleanup with_listener fst snd].
  pose proof (closing_nothing o l' Fl) as C.
  destruct (closing config grace o l') as [o2 l2]. cbn [fst] in C. subst o2.
  cbn [fst snd]. rewrite To, Tt. cbn [fst snd trace].
  split; [reflexivity|]. split; [reflexivity|].
  rewrite !sleeps_app, sleeps_replicate. simpl. lia.
Qed.

(** An answer that comes after the wait: when the valid callback arrives
    within the 120 seconds but the token endpoint answers only after them,
    no poll sees a token and the flow sleeps all 120 seconds.  What it
    returns is decided by the cleanup: success, with the token, when the
    answer is in within the time the cleanup gives the handler, and
    failure, the code stored but no token, when it is not (lines 94-98
    against 146-158). *)
Theorem late_answer_is_decided_by_cleanup (self : TwitchOAuth) (s : @state here) (k : nat)
    (params : gmap string str) (code : str) (response : token_response) (net : @Net E)
    (token_data : json) (token : pyval) :
  let l := snd (@world here s) in
  let d := latency (li_clock l + k) in
  1 <= k <= 120 ->
  120 < k + d ->
  (forall j other, 1 <= j <= 120 -> j <> k -> arrivals (li_clock l + j) = Some other ->
     forged config other) ->
  arrivals (li_clock l + k) = Some params ->
  params !! "error" = None ->
  params !! "state" = oo_state config ->
  params !! "code" = Some code ->
  code <> [] ->
  session_post token_url (token_request (with_code (with_fields config self) (PyStr code)))
    (li_net l)
  = (Ok response, net) ->
  resp_status response = 200 ->
  resp_json response = Ok token_data ->
  token_data !! "access_token" = Some token ->
  truthy token = true ->
  truthy (access_token self) = false ->
  let r := @start_oauth_flow here self s in
  sleeps (@trace here (snd r)) = sleeps (@trace here s) + 120
  /\ (k + d <= 120 + grace ->
      exists o, fst r = Ok (o, true) /\ access_token o = token)
  /\ (120 + grace < k + d ->
      fst r = Ok ({| access_token := access_token self;
                     refresh_token := refresh_token self;
                     auth_code := PyStr code |}, false)).
Proof.
  intros l d Hk Hd Others Arrives Er St Co Ne P Hs J Tk Tt No r. subst l.
  destruct k as [|k]; [lia|].
  set (w0 := listened (@world here s)).
  destruct d as [|d'] eqn:Ed; [lia|].
  assert (Before : forall j other, 1 <= j <= k ->
            arrivals (li_clock (snd w0) + j) = Some other -> forged config other).
  { intros j other Hj. apply Others; lia. }
  assert (Waiting : forall m, S k + m <= 120 ->
            @after_sleeps here (S k + m) self w0
            = ({| access_token := access_token self; refresh_token := refresh_token self;
                  auth_code := PyStr code |},
               (fst w0,
                {| li_clock := li_clock (snd w0) + S k + m; li_net := net;
                   li_log := li_log (snd w0)
                             ++ [CbPost token_url
                                   (token_request
                                      (with_code (with_fields config self) (PyStr code)))];
                   li_flights := [{| fl_due := li_clock (snd w0) + S k + S d';
                                     fl_answer := Ok response |}] |}))).
  { intros m Lm.
    apply (while_waiting self w0 k params code response net eq_refl Before Arrives
             Er St Co Ne P d' m Ed); [lia|].
    intros j other Hj. apply Others; lia. }
  assert (Quiet : forall n, n <= 120 ->
            truthy (access_token (fst (@after_sleeps here n self w0))) = false).
  { intros n Ln. destruct (le_lt_dec n k) as [Le | Gt].
    - rewrite (before_arrival self w0 k eq_refl Before n Le). exact No.
    - replace n with (S k + (n - S k)) by lia. rewrite Waiting by lia. exact No. }
  destruct (@start_oauth_flow_runs here self self s w0 w0 eq_refl eq_refl)
    as (k' & Lk & _ & At & R).
  unfold timeout, token_after in *. assert (k' = 120) as ->.
  { destruct (decide (k' < 120)) as [Lt|]; [|lia].
    destruct (At Lt) as [_ T]. rewrite Quiet in T by lia. discriminate. }
  pose proof (Waiting (120 - S k) ltac:(lia)) as W120.
  replace (S k + (120 - S k)) with 120 in W120 by lia.
  subst r. cbn zeta in R. rewrite R, W120. clear R.
  cbn [runner_cleanup with_listener fst snd]. unfold closing.
  cbn [li_clock li_flights li_log land_due fl_due fl_answer].
  rewrite (granted_ends response token_data _ Hs J).
  destruct (Nat.leb_spec (li_clock (snd w0) + S k + S d')
              (li_clock (snd w0) + S k + (120 - S k) + grace)) as [In | Out].
  - assert (Tok : truthy (dict_get token_data "access_token" PyNone) = true)
      by (unfold dict_get; rewrite Tk; exact Tt).
    cbn [land_due oo_fields with_fields fst snd access_token].
    rewrite Tok. cbn [fst snd trace]. split; [|split].
    + rewrite !sleeps_app, sleeps_replicate. simpl. lia.
    + intros _. eexists. split; [reflexivity|]. cbn [access_token]. unfold dict_get.
      rewrite Tk. reflexivity.
    + intros Gt. lia.
  - cbn [land_due oo_fields with_fields fst snd access_token]. rewrite No.
    cbn [fst snd trace]. split; [|split].
    + rewrite !sleeps_app, sleeps_replicate. simpl. lia.
    + intros Le. lia.
    + intros _. reflexivity.
Qed.

End Listening.


Lemma empty_playlist_example :
  let searches := [{| sq_search_query := lit "no such song"; sq_user := PyNone;
                      sq_redeemed_at := PyNone; sq_status := PyNone |}] in
  let name := lit "somechannel" ++ lit " - Community Song Requests" in
  let r := @create_spotify_playlist (scripted hostile) [] searches (lit "somechannel")
             (fresh hostile) in
  fst r = Ok {| pl_id := lit "p1"; pl_name := name;
                pl_url := lit "https://open.spotify.com/playlist/p1" |}
  /\ spotify_calls (trace (snd r))
     = [] ++ EvCurrentUser :: EvPlaylistCreate (lit "me") name
          :: map EvSearch (map sq_search_query searches).
Proof.
  intros searches name.
  apply (@empty_playlist_is_still_created (scripted hostile) searches (lit "somechannel")
           (fresh hostile) {| su_id := lit "me"; su_display_name := lit "Me" |} 0 0);
    reflexivity.
Defined.

Lemma forged_callbacks_example :
  let here := listening_world guessing 3 60 in
  let r := @start_oauth_flow here new_oauth (listening_start guessing 3 60) in
  fst r = Ok (new_oauth, false)
  /\ sleeps (@trace here (snd r))
     = sleeps (@trace here (listening_start guessing 3 60)) + 120
  /\ li_log (snd (@world here (snd r)))
     = li_log (snd (@world here (listening_start guessing 3 60))).
Proof.
  apply (forged_callbacks_never_authorize (scripted unanswered) (fixed_endpoint (Ok granted))
           (listening (lit "s3cret")) guessing (fun _ => 3) 60 new_oauth
           (listening_start guessing 3 60)).
  - intros t params [= <-]. right. vm_compute. discriminate.
  - reflexivity.
Defined.

(** A guess in second 2, the operator's callback in second 5, the answer of
    the token endpoint three seconds later: success after eight sleeps. *)
Lemma valid_callback_example :
  let here := listening_world guess_then_grant 3 60 in
  let r := @start_oauth_flow here new_oauth (listening_start guess_then_grant 3 60) in
  exists o,
    fst r = Ok (o, true)
    /\ access_token o = PyStr (lit "tok")
    /\ sleeps (@trace here (snd r))
       = sleeps (@trace here (listening_start guess_then_grant 3 60)) + (5 + 3).
Proof.
  apply (valid_callback_authorizes (scripted unanswered) (fixed_endpoint (Ok granted))
           (listening (lit "s3cret")) guess_then_grant (fun _ => 3) 60 new_oauth
           (listening_start guess_then_grant 3 60) 5
           {[ "state" := lit "s3cret"; "code" := lit "c0de" ]} (lit "c0de") granted tt
           {[ "access_token" := PyStr (lit "tok"); "refresh_token" := PyStr (lit "ref") ]}
           (PyStr (lit "tok")));
    try reflexivity; try discriminate; try (cbn; lia).
  intros j other Hj Nj A. cbn in Hj.
  assert (C : j = 1 \/ j = 2 \/ j = 3 \/ j = 4 \/ j = 6 \/ j = 7 \/ j = 8) by lia.
  destruct C as [-> | [-> | [-> | [-> | [-> | [-> | ->]]]]]]; cbn in A; try discriminate.
  injection A as <-. right. vm_compute. discriminate.
Defined.

(** The operator's callback in second 118, the answer four seconds later,
    a cleanup that lets the handler finish: no poll sees a token, and the
    flow returns success. *)
Lemma late_answer_example :
  let here := listening_world grant_at_118 4 60 in
  let r := @start_oauth_flow here new_oauth (listening_start grant_at_118 4 60) in
  sleeps (@trace here (snd r))
  = sleeps (@trace here (listening_start grant_at_118 4 60)) + 120
  /\ (118 + 4 <= 120 + 60 ->
      exists o, fst r = Ok (o, true) /\ access_token o = PyStr (lit "tok"))
  /\ (120 + 60 < 118 + 4 ->
      fst r = Ok ({| access_token := PyNone; refresh_token := PyNone;
                     auth_code := PyStr (lit "c0de") |}, false)).
Proof.
  apply (late_answer_is_decided_by_cleanup (scripted unanswered)
           (fixed_endpoint (Ok granted)) (listening (lit "s3cret")) grant_at_118
           (fun _ => 4) 60 new_oauth (listening_start grant_at_118 4 60) 118
           {[ "state" := lit "s3cret"; "code" := lit "c0de" ]} (lit "c0de") granted tt
           {[ "access_token" := PyStr (lit "tok"); "refresh_token" := PyStr (lit "ref") ]}
           (PyStr (lit "tok")));
    try reflexivity; try discriminate; try (cbn; lia).
  intros j other Hj Nj. cbn [listening_start world snd li_clock Nat.add]. unfold grant_at_118.
  destruct (Nat.eqb_spec j 118); [contradiction | discriminate].
Defined.
